(** * gem-back: retry, fallback and rotation core

  A shallow embedding of the Python sources
  - [python/gemback/types.py]
  - [python/gemback/rotators.py]
  - [python/gemback/monitoring/rate_limit.py]
  - [python/gemback/monitoring/health.py]
  - [python/gemback/client.py]
  - [client.py]
  followed by the properties proved about them.

  Conventions of the embedding.
  - A Python [int] is a [Z]; a Python [float] (seconds, milliseconds,
    rates) is an exact rational [Q], so rounding of binary floating point
    is not modelled.
  - A [dict] is a [gmap]; a [list] is a [list].
  - A function that mutates [self] takes the object and returns the new
    one; a function that can raise returns an [outcome].
  - [time.time()] is an explicit argument of the leaf classes; the client
    reads it from the history of awaited events (see [Client]). *)

From Stdlib Require Import ZArith QArith Qround Lqa Ascii String Sorted.
From stdpp Require Import gmap strings list fin_maps.
From Equations Require Import Equations.

Local Open Scope Z_scope.

(** ** Python helpers *)

Module Py.

(** [range(n)] *)
Definition range (n : nat) : list Z := Z.of_nat <$> seq 0 n.

(** [l[i]] for a Python list: negative indices count from the end, an
    index outside [-len, len) raises [IndexError] (here [None]). *)
Definition getitem {A} (l : list A) (i : Z) : option A :=
  if decide (0 <= i) then l !! Z.to_nat i
  else if decide (- Z.of_nat (length l) <= i)
       then l !! Z.to_nat (Z.of_nat (length l) + i)
       else None.

(** [int(x)] on a float: truncation toward zero. *)
Definition int (x : Q) : Z := Z.quot (Qnum x) (Zpos (Qden x)).

(** [max(0, x)]: the first argument unless the second is strictly
    greater. *)
Definition max0 (x : Q) : Q := if Qlt_le_dec 0 x then x else 0%Q.

Definition Qltb (x y : Q) : bool := negb (Qle_bool y x).

(** [str.lower()] on ASCII text. *)
Definition lower_ascii (c : ascii) : ascii :=
  let n := nat_of_ascii c in
  if (Nat.leb 65 n && Nat.leb n 90)%bool then ascii_of_nat (n + 32) else c.

Fixpoint lower (s : string) : string :=
  match s with
  | EmptyString => EmptyString
  | String c s' => String (lower_ascii c) (lower s')
  end.

(** [needle in hay] on strings. *)
Fixpoint contains (needle hay : string) : bool :=
  if String.prefix needle hay then true
  else match hay with
       | EmptyString => false
       | String _ hay' => contains needle hay'
       end.

(** Truthiness of an optional string and of an optional list:
    [None], [""] and [[]] are false. *)
Definition truthy_str (o : option string) : bool :=
  match o with
  | Some (String _ _) => true
  | _ => false
  end.

Definition truthy_list {A} (o : option (list A)) : bool :=
  match o with
  | Some (_ :: _) => true
  | _ => false
  end.

(** The index at which a slice bound [i] falls in [l]: a negative
    bound counts from the end, and the result is clamped to
    [0 .. len(l)]. *)
Definition slice_index {A} (l : list A) (i : Z) : nat :=
  if decide (0 <= i) then Nat.min (Z.to_nat i) (length l)
  else Z.to_nat (Z.max 0 (Z.of_nat (length l) + i)).

(** [l[i:]] and [l[:i]] *)
Definition slice_from {A} (l : list A) (i : Z) : list A := drop (slice_index l i) l.
Definition slice_to {A} (l : list A) (i : Z) : list A := take (slice_index l i) l.

(** A float that may have left the range of the finite ones: a
    finite float, by its exact value, or an infinity. *)
Inductive float :=
| Fin (x : Q)
| PosInf
| NegInf.

(** The floats are finite below [2 ** 1024] in magnitude. *)
Definition float_bound : Z := 2 ^ 1024.

(** The float of an exact value that is a float unless it leaves
    their range: the product of a float by a power of two. *)
Definition to_float (x : Q) : float :=
  if Qle_bool (inject_Z float_bound) x then PosInf
  else if Qle_bool x (inject_Z (- float_bound)) then NegInf
       else Fin x.

(** [float(n)] on an int raises [OverflowError] when [n], rounded to
    53 bits, reaches [2 ** 1024]. *)
Definition int_overflows (n : Z) : bool := float_bound - 2 ^ 970 <=? Z.abs n.

End Py.

(** ** [python/gemback/types.py] *)

Module Types.

Record GemBackOptions := {
  api_key : option string;
  api_keys : option (list string);
  fallback_order : list string;
  max_retries : Z;
  retry_delay : Q;
  timeout : Q;
  debug : bool;
  log_level : string;
  api_key_rotation_strategy : string;
  enable_monitoring : bool
}.

(** The defaults of the dataclass. *)
Definition default_options : GemBackOptions := {|
  api_key := None;
  api_keys := None;
  fallback_order := ["gemini-2.5-flash"; "gemini-2.5-flash-lite"];
  max_retries := 2;
  retry_delay := 1%Q;
  timeout := 30%Q;
  debug := false;
  log_level := "INFO";
  api_key_rotation_strategy := "round-robin";
  enable_monitoring := false
|}.

(** The response object of the SDK is opaque but for its [text]. *)
Record RawResponse := { text_of : string }.

Record GeminiResponse := {
  text : string;
  model : string;
  raw_response : RawResponse
}.

Record AttemptRecord := {
  ar_model : string;
  ar_error : string;
  ar_timestamp : Q;
  ar_status_code : option Z
}.

(** An exception raised by the SDK call: the attributes [code] and
    [status_code] (absent: [None]) and [str(e)]. *)
Record ApiError := {
  code : option Z;
  status_code : option Z;
  message : string
}.

(** The exceptions the modelled code raises. An exception of the SDK
    is an [ApiError]; the client catches every one of them. *)
Inductive exn :=
| ValueError (msg : string)
| OverflowError (msg : string)
| IndexError
| KeyError
| GeminiBackError (msg code : string) (attempts : list AttemptRecord)
                  (status_code : option Z) (model : option string).

Inductive outcome (A : Type) :=
| Returns (a : A)
| Raises (e : exn).
Arguments Returns {A} a.
Arguments Raises {A} e.

End Types.

(** ** [python/gemback/rotators.py] *)

Module Rotators.
Import Types.

Record KeyStats := {
  key_index : Z;
  total_requests : Z;
  success_count : Z;
  failure_count : Z;
  last_used : Q
}.

(** [KeyStats(key_index=i)] *)
Definition new_stats (i : Z) : KeyStats :=
  {| key_index := i; total_requests := 0; success_count := 0;
     failure_count := 0; last_used := 0%Q |}.

Record ApiKeyRotator := {
  api_keys : list string;
  strategy : string;
  current_index : Z;
  stats : gmap Z KeyStats
}.

(** [ApiKeyRotator.__init__] *)
Definition __init__ (keys : list string) (strat : string) : ApiKeyRotator :=
  {| api_keys := keys;
     strategy := strat;
     current_index := 0;
     stats := list_to_map ((fun i => (i, new_stats i)) <$> Py.range (length keys)) |}.

Definition with_last_used (now : Q) (s : KeyStats) : KeyStats :=
  {| key_index := key_index s; total_requests := total_requests s;
     success_count := success_count s; failure_count := failure_count s;
     last_used := now |}.

(** [min(self.stats.items(), key=lambda x: x[1].total_requests)[0]].
    The table is filled in [__init__] with the keys [0 .. k-1] in this
    order and no key is added or removed later, so the items are
    visited by increasing index; the first minimal one wins. The
    accumulator is the best item so far. *)
Fixpoint min_item (items : list (Z * KeyStats)) (best : Z * KeyStats) : Z * KeyStats :=
  match items with
  | [] => best
  | it :: rest =>
      min_item rest (if total_requests it.2 <? total_requests best.2 then it else best)
  end.

Definition items (r : ApiKeyRotator) : list (Z * KeyStats) :=
  omap (fun i => (fun s => (i, s)) <$> stats r !! i) (Py.range (length (api_keys r))).

Definition least_used (r : ApiKeyRotator) : option Z :=
  match items r with
  | [] => None
  | it :: rest => Some (min_item rest it).1
  end.

Record KeyInfo := { key : option string; index : option Z }.

Definition set_cursor (c : Z) (r : ApiKeyRotator) : ApiKeyRotator :=
  {| api_keys := api_keys r; strategy := strategy r;
     current_index := c; stats := stats r |}.

Definition set_stats (st : gmap Z KeyStats) (r : ApiKeyRotator) : ApiKeyRotator :=
  {| api_keys := api_keys r; strategy := strategy r;
     current_index := current_index r; stats := st |}.

(** The branch on [self.strategy]: the chosen index and the rotator
    with its cursor moved. [min] of no item raises [ValueError]. *)
Definition choose (r : ApiKeyRotator) : outcome Z * ApiKeyRotator :=
  if decide (strategy r = "round-robin") then
    (Returns (current_index r),
     set_cursor ((current_index r + 1) `mod` Z.of_nat (length (api_keys r))) r)
  else if decide (strategy r = "least-used") then
    match least_used r with
    | Some i => (Returns i, r)
    | None => (Raises (ValueError "min() arg is an empty sequence"), r)
    end
  else (Returns 0, r).

(** [ApiKeyRotator.get_next_key]; [now] is the value of [time.time()]. *)
Definition get_next_key (now : Q) (r : ApiKeyRotator) : outcome KeyInfo * ApiKeyRotator :=
  match api_keys r with
  | [] => (Raises (ValueError "No API keys provided"), r)
  | _ :: _ =>
      match choose r with
      | (Raises e, r1) => (Raises e, r1)
      | (Returns i, r1) =>
          match stats r1 !! i with
          | None => (Raises KeyError, r1)
          | Some s =>
              let r2 := set_stats (<[i := with_last_used now s]> (stats r1)) r1 in
              match Py.getitem (api_keys r2) i with
              | None => (Raises IndexError, r2)
              | Some k => (Returns {| key := Some k; index := Some i |}, r2)
              end
          end
      end
  end.

Definition count_success (s : KeyStats) : KeyStats :=
  {| key_index := key_index s; total_requests := total_requests s + 1;
     success_count := success_count s + 1; failure_count := failure_count s;
     last_used := last_used s |}.

Definition count_failure (s : KeyStats) : KeyStats :=
  {| key_index := key_index s; total_requests := total_requests s + 1;
     success_count := success_count s; failure_count := failure_count s + 1;
     last_used := last_used s |}.

(** [ApiKeyRotator.record_success] *)
Definition record_success (i : Z) (r : ApiKeyRotator) : ApiKeyRotator :=
  match stats r !! i with
  | Some s => set_stats (<[i := count_success s]> (stats r)) r
  | None => r
  end.

(** [ApiKeyRotator.record_failure] *)
Definition record_failure (i : Z) (r : ApiKeyRotator) : ApiKeyRotator :=
  match stats r !! i with
  | Some s => set_stats (<[i := count_failure s]> (stats r)) r
  | None => r
  end.

(** [ApiKeyRotator.get_stats]: the rows of the table, in its order. *)
Definition get_stats (r : ApiKeyRotator) : list KeyStats := snd <$> items r.

(** The rotator after a run of selections, one clock reading each. *)
Definition after_selections (nows : list Q) (r : ApiKeyRotator) : ApiKeyRotator :=
  foldl (fun r now => (get_next_key now r).2) r nows.

End Rotators.

(** ** [python/gemback/monitoring/rate_limit.py] *)

Module RateLimit.
Import Types.

Record WindowStats := {
  requests_in_last_minute : Z;
  requests_in_last_5_minutes : Z;
  average_rpm : Q
}.

Record RateLimitStatus := {
  model : string;
  current_rpm : Z;
  max_rpm : Z;
  utilization_percent : Q;
  is_near_limit : bool;
  will_exceed_soon : bool;
  window_stats : WindowStats
}.

(** [self.limits]: assigned once in [__init__] and never written
    again, hence a constant of the model. *)
Definition limits : gmap string Z :=
  <["gemini-2.5-flash" := 15]>
    (<["gemini-2.5-flash-lite" := 15]>
       (<["gemini-1.5-flash" := 15]>
          (<["gemini-1.5-pro" := 2]> ∅))).

(** The mutable part of the tracker. *)
Record RateLimitTracker := {
  request_timestamps : gmap string (list Q)
}.

(** [RateLimitTracker.__init__] *)
Definition __init__ : RateLimitTracker := {| request_timestamps := ∅ |}.

(** [[t for t in l if t > cutoff]] *)
Definition newer_than (cutoff : Q) (l : list Q) : list Q :=
  List.filter (fun t => Py.Qltb cutoff t) l.

(** [RateLimitTracker._cleanup]. Both callers run it on a model that
    is a key of the table (on another one Python raises [KeyError]). *)
Definition _cleanup (model : string) (now : Q) (tr : RateLimitTracker) : RateLimitTracker :=
  let cutoff := (now - 300)%Q in
  {| request_timestamps := alter (newer_than cutoff) model (request_timestamps tr) |}.

(** [RateLimitTracker.record_request]; [now] is [time.time()]. *)
Definition record_request (model : string) (now : Q) (tr : RateLimitTracker) : RateLimitTracker :=
  let tr1 :=
    match request_timestamps tr !! model with
    | None => {| request_timestamps := <[model := []]> (request_timestamps tr) |}
    | Some _ => tr
    end in
  let tr2 :=
    {| request_timestamps := alter (fun l => l ++ [now]) model (request_timestamps tr1) |} in
  _cleanup model now tr2.

(** [RateLimitTracker.get_status]; [now] is [time.time()]. *)
Definition get_status (model : string) (now : Q) (tr : RateLimitTracker)
  : RateLimitStatus * RateLimitTracker :=
  let tr1 :=
    match request_timestamps tr !! model with
    | Some _ => _cleanup model now tr
    | None => tr
    end in
  let timestamps := default [] (request_timestamps tr1 !! model) in
  let one_min_ago := (now - 60)%Q in
  let req_last_min := Z.of_nat (length (newer_than one_min_ago timestamps)) in
  let max_rpm := default 15 (limits !! model) in
  let utilization :=
    if 0 <? max_rpm
    then ((inject_Z req_last_min / inject_Z max_rpm) * 100)%Q
    else 0%Q in
  ({| model := model;
      current_rpm := req_last_min;
      max_rpm := max_rpm;
      utilization_percent := utilization;
      is_near_limit := Qle_bool 80 utilization;
      will_exceed_soon := Qle_bool 90 utilization;
      window_stats :=
        {| requests_in_last_minute := req_last_min;
           requests_in_last_5_minutes := Z.of_nat (length timestamps);
           average_rpm := (inject_Z (Z.of_nat (length timestamps)) / 5)%Q |} |},
   tr1).

(** [RateLimitTracker.would_exceed_limit] *)
Definition would_exceed_limit (model : string) (now : Q) (tr : RateLimitTracker)
  : bool * RateLimitTracker :=
  let '(status, tr1) := get_status model now tr in
  (max_rpm status <=? current_rpm status, tr1).

(** [sorted(l)] on floats: a stable insertion sort. *)
Fixpoint insert_sorted (x : Q) (l : list Q) : list Q :=
  match l with
  | [] => [x]
  | y :: l' => if Qle_bool x y then x :: y :: l' else y :: insert_sorted x l'
  end.

Definition sorted (l : list Q) : list Q := foldr insert_sorted [] l.

(** [RateLimitTracker.get_recommended_wait_time]. The function reads
    the clock twice: [now1] inside [would_exceed_limit], [now2] for the
    window it then looks at. [valid_timestamps[0]] on an empty list
    raises [IndexError]. *)
Definition get_recommended_wait_time (model : string) (now1 now2 : Q) (tr : RateLimitTracker)
  : outcome Z * RateLimitTracker :=
  let '(exceed, tr1) := would_exceed_limit model now1 tr in
  if negb exceed then (Returns 0, tr1)
  else
    let timestamps := default [] (request_timestamps tr1 !! model) in
    match timestamps with
    | [] => (Returns 0, tr1)
    | _ :: _ =>
        let one_min_ago := (now2 - 60)%Q in
        let valid_timestamps := sorted (newer_than one_min_ago timestamps) in
        match valid_timestamps with
        | [] => (Raises IndexError, tr1)
        | oldest_in_window :: _ =>
            let expiry := (oldest_in_window + 60)%Q in
            let wait_seconds := Py.max0 (expiry - now2) in
            (Returns (Py.int (wait_seconds * 1000)), tr1)
        end
    end.

(** The tracker after a log of [record_request] calls, oldest first,
    each given as (model, value of [time.time()]). *)
Definition replay (log : list (string * Q)) : RateLimitTracker :=
  foldl (fun tr r => record_request r.1 r.2 tr) __init__ log.

End RateLimit.

(** ** [python/gemback/monitoring/health.py] *)

Module Health.

Record ModelMetrics := {
  total_requests : Z;
  successful_requests : Z;
  failed_requests : Z;
  p50_response_time : Q;
  p95_response_time : Q;
  p99_response_time : Q
}.

Record ModelHealth := {
  model : string;
  status : string;
  success_rate : Q;
  average_response_time : Q;
  availability : Q;
  consecutive_failures : Z;
  metrics : ModelMetrics
}.

(** The per-model dictionary kept in [health_data]. *)
Module Data.
Record t := {
  response_times : list Q;
  successes : Z;
  failures : Z;
  consecutive_failures : Z
}.
Definition empty : t :=
  {| response_times := []; successes := 0; failures := 0; consecutive_failures := 0 |}.
End Data.

Record HealthMonitor := { health_data : gmap string Data.t }.

(** [HealthMonitor.__init__] *)
Definition __init__ : HealthMonitor := {| health_data := ∅ |}.

(** [l.append(x)] and, past 100 entries, [l.pop(0)]. *)
Definition push_capped (x : Q) (l : list Q) : list Q :=
  let l' := l ++ [x] in
  if (100 <? length l')%nat then tail l' else l'.

(** [HealthMonitor.record_request]; the [error] argument is unused. *)
Definition record_request (model : string) (response_time_ms : Q) (success : bool)
           (hm : HealthMonitor) : HealthMonitor :=
  let data := default Data.empty (health_data hm !! model) in
  let times := push_capped response_time_ms (Data.response_times data) in
  let data' :=
    if success
    then {| Data.response_times := times;
            Data.successes := Data.successes data + 1;
            Data.failures := Data.failures data;
            Data.consecutive_failures := 0 |}
    else {| Data.response_times := times;
            Data.successes := Data.successes data;
            Data.failures := Data.failures data + 1;
            Data.consecutive_failures := Data.consecutive_failures data + 1 |} in
  {| health_data := <[model := data']> (health_data hm) |}.

(** [sum(times)] *)
Definition sum (l : list Q) : Q := foldr Qplus 0%Q l.

(** The local [get_percentile] of [get_health], on the sorted times. *)
Definition get_percentile (times : list Q) (p : Q) : Q :=
  match times with
  | [] => 0%Q
  | _ :: _ =>
      let idx := Py.int (inject_Z (Z.of_nat (length times)) * p) in
      nth (Z.to_nat (Z.min idx (Z.of_nat (length times) - 1))) times 0%Q
  end.

(** [HealthMonitor.get_health] *)
Definition get_health (model : string) (hm : HealthMonitor) : ModelHealth :=
  let data := default Data.empty (health_data hm !! model) in
  let total := Data.successes data + Data.failures data in
  let success_rate :=
    if 0 <? total then (inject_Z (Data.successes data) / inject_Z total)%Q else 1%Q in
  let times := RateLimit.sorted (Data.response_times data) in
  let avg_time :=
    match times with
    | [] => 0%Q
    | _ :: _ => (sum times / inject_Z (Z.of_nat (length times)))%Q
    end in
  let status :=
    if (3 <=? Data.consecutive_failures data) || Py.Qltb success_rate (8 # 10) then "unhealthy"
    else if Py.Qltb success_rate (95 # 100)
            || (match times with [] => false | _ :: _ => true end
                && Py.Qltb 5000 (get_percentile times (95 # 100)))
         then "degraded"
         else "healthy" in
  {| model := model;
     status := status;
     success_rate := success_rate;
     average_response_time := avg_time;
     availability := success_rate;
     consecutive_failures := Data.consecutive_failures data;
     metrics :=
       {| total_requests := total;
          successful_requests := Data.successes data;
          failed_requests := Data.failures data;
          p50_response_time := get_percentile times (1 # 2);
          p95_response_time := get_percentile times (95 # 100);
          p99_response_time := get_percentile times (99 # 100) |} |}.

(** The monitor after a log of [record_request] calls, oldest first,
    each given as (model, response time, success). *)
Definition replay (log : list (string * Q * bool)) : HealthMonitor :=
  foldl (fun hm r => record_request r.1.1 r.1.2 r.2 hm) __init__ log.

End Health.

(** ** [python/gemback/client.py] *)

Module Client.
Import Types.

Record GemBack := {
  options : GemBackOptions;
  rotator : option Rotators.ApiKeyRotator;
  _single_key : option string;
  rate_limit_tracker : option RateLimit.RateLimitTracker;
  health_monitor : option Health.HealthMonitor
}.

(** [api_keys = self.options.api_keys or ([self.options.api_key] if
    self.options.api_key else [])] *)
Definition resolved_keys (o : GemBackOptions) : list string :=
  match api_keys o with
  | Some (k :: ks) => k :: ks
  | _ => match api_key o with
         | Some (String c s) => [String c s]
         | _ => []
         end
  end.

(** [GemBack.__init__], from the options the keyword arguments were
    copied into. The logger is not modelled. *)
Definition __init__ (o : GemBackOptions) : outcome GemBack :=
  if negb (Py.truthy_str (api_key o)) && negb (Py.truthy_list (api_keys o))
  then Raises (ValueError "Either api_key or api_keys must be provided")
  else
    let keys := resolved_keys o in
    Returns
      {| options := o;
         rotator :=
           if (1 <? length keys)%nat
           then Some (Rotators.__init__ keys (api_key_rotation_strategy o))
           else None;
         _single_key := head keys;
         rate_limit_tracker :=
           if enable_monitoring o then Some RateLimit.__init__ else None;
         health_monitor :=
           if enable_monitoring o then Some Health.__init__ else None |}.

(** *** The world outside the client

    What the client awaits: a call of the SDK, a streaming call of the
    SDK, a sleep. The history of a run is the list of the events
    awaited so far, oldest first. Everything awaited is taken to end:
    the SDK answers and a sleep is over after its delay. A sleep of
    the delay [inf] never ends, so that no run of the program goes
    past the event [Sleep PosInf]; what is said of a run that follows
    a sleep is said for finite delays. *)
Inductive Event :=
| Invoke (key : option string) (model prompt : string)
| InvokeStream (key : option string) (model prompt : string)
| Sleep (delay : Py.float).

(** A streaming call: the fragments it yields and, when it ends by
    raising, the exception (an exception of the call itself is a
    failure after no fragment). *)
Record Stream := { chunks : list string; failure : option ApiError }.

Record State := { self : GemBack; history : list Event }.

Definition set_history (h : list Event) (st : State) : State :=
  {| self := self st; history := h |}.

Definition set_rotator (r : option Rotators.ApiKeyRotator) (st : State) : State :=
  {| self := {| options := options (self st); rotator := r;
                _single_key := _single_key (self st);
                rate_limit_tracker := rate_limit_tracker (self st);
                health_monitor := health_monitor (self st) |};
     history := history st |}.

Definition set_tracker (t : option RateLimit.RateLimitTracker) (st : State) : State :=
  {| self := {| options := options (self st); rotator := rotator (self st);
                _single_key := _single_key (self st);
                rate_limit_tracker := t;
                health_monitor := health_monitor (self st) |};
     history := history st |}.

Definition set_monitor (m : option Health.HealthMonitor) (st : State) : State :=
  {| self := {| options := options (self st); rotator := rotator (self st);
                _single_key := _single_key (self st);
                rate_limit_tracker := rate_limit_tracker (self st);
                health_monitor := m |};
     history := history st |}.

(** [getattr(e, "code", None) or getattr(e, "status_code", None)] *)
Definition status_of (e : ApiError) : option Z :=
  match code e with
  | Some c => if decide (c = 0) then status_code e else Some c
  | None => status_code e
  end.

(** The two tests of [_generate_with_retry] that set [is_retryable]. *)
Definition is_retryable (e : ApiError) : bool :=
  match status_of e with
  | Some c => negb (c =? 0) && (500 <=? c)
  | None => false
  end
  || Py.contains "timeout" (Py.lower (message e))
  || Py.contains "connection" (Py.lower (message e)).

(** [status_code in [401, 403]] *)
Definition is_auth (s : option Z) : bool :=
  match s with
  | Some c => (c =? 401) || (c =? 403)
  | None => false
  end.

(** The [OverflowError] of [float(n)], as the client reads an
    exception: no [code], no [status_code], and its [str(e)]. *)
Definition overflow_error : ApiError :=
  {| code := None; status_code := None;
     message := "int too large to convert to float" |}.

(** The float [self.options.retry_delay * (2 ** (retries - 1))] when
    the int converts: the product of a float by a power of two is
    exact, or an infinity. The counter is at least 1 here. *)
Definition delay (o : GemBackOptions) (retries : Z) : Py.float :=
  Py.to_float (retry_delay o * inject_Z (2 ^ (retries - 1)))%Q.

(** [self.options.retry_delay * (2 ** (retries - 1))]: [retry_delay]
    is a float, so that the int [2 ** (retries - 1)] is converted to a
    float first, which raises [OverflowError] from [2 ** 1024] on. *)
Definition backoff (o : GemBackOptions) (retries : Z) : ApiError + Py.float :=
  if Py.int_overflows (2 ^ (retries - 1)) then inl overflow_error
  else inr (delay o retries).

(** The dictionaries that [get_fallback_stats] returns. *)
Record Monitoring := {
  rateLimitStatus : list RateLimit.RateLimitStatus;
  modelHealth : list Health.ModelHealth
}.

Record FallbackStats := {
  apiKeyStats : option (list Rotators.KeyStats);
  monitoring : option Monitoring
}.

Section Run.

(** The environment is a function of the history: the value of
    [time.time()] and the answers of the SDK. Between two awaited
    events the client runs without suspension and the model lets no
    time pass there, so every [time.time()] between the same two
    events reads the same value. *)
Variable clock : list Event -> Q.
Variable generate_content :
  list Event -> option string -> string -> string -> ApiError + RawResponse.
Variable generate_content_stream :
  list Event -> option string -> string -> string -> Stream.

Definition now (st : State) : Q := clock (history st).

(** [GemBack._get_api_key] *)
Definition _get_api_key (st : State) : outcome Rotators.KeyInfo * State :=
  match rotator (self st) with
  | Some r =>
      let '(res, r') := Rotators.get_next_key (now st) r in
      (res, set_rotator (Some r') st)
  | None =>
      (Returns {| Rotators.key := _single_key (self st); Rotators.index := None |}, st)
  end.

(** The [while True] loop of [GemBack._generate_with_retry], entered
    with the counter [retries] and the history [h]; it ends because
    every turn that goes on has [retries < max_retries] and adds 1 to
    [retries]. The result is the response, or the exception that
    leaves the function: the one of the SDK, raised again, or the
    [OverflowError] raised in the handler when the delay is computed. *)
Equations? retry_loop (o : GemBackOptions) (key : option string) (model prompt : string)
           (retries : Z) (h : list Event)
  : (ApiError + RawResponse) * list Event
  by wf (Z.to_nat (max_retries o - retries)) lt :=
  retry_loop o key model prompt retries h
    with generate_content h key model prompt := {
    | inr response := (inr response, h ++ [Invoke key model prompt]);
    | inl e with decide (status_of e = Some 429) := {
      | left _ := (inl e, h ++ [Invoke key model prompt]);
      | right _ with decide (is_retryable e = true /\ retries < max_retries o) := {
        | left _ with backoff o (retries + 1) := {
          | inr seconds :=
              retry_loop o key model prompt (retries + 1)
                         (h ++ [Invoke key model prompt] ++ [Sleep seconds]);
          | inl overflow := (inl overflow, h ++ [Invoke key model prompt]) };
        | right _ := (inl e, h ++ [Invoke key model prompt]) } } }.
Proof. lia. Qed.

(** [GemBack._generate_with_retry] *)
Definition _generate_with_retry (o : GemBackOptions) (key : option string)
           (model prompt : string) (h : list Event)
  : (ApiError + RawResponse) * list Event :=
  retry_loop o key model prompt 0 h.

(** The rate limit prediction at the head of the loop body of
    [generate]: it only logs, but [get_recommended_wait_time] is run
    and an exception of it leaves [generate]. *)
Definition predict (model : string) (st : State) : outcome unit * State :=
  match rate_limit_tracker (self st) with
  | None => (Returns tt, st)
  | Some tr =>
      let '(exceed, tr1) := RateLimit.would_exceed_limit model (now st) tr in
      if exceed then
        let '(wait, tr2) :=
          RateLimit.get_recommended_wait_time model (now st) (now st) tr1 in
        match wait with
        | Returns _ => (Returns tt, set_tracker (Some tr2) st)
        | Raises ex => (Raises ex, set_tracker (Some tr2) st)
        end
      else (Returns tt, set_tracker (Some tr1) st)
  end.

(** [if self.rate_limit_tracker: self.rate_limit_tracker.record_request(m)] *)
Definition track (model : string) (st : State) : State :=
  match rate_limit_tracker (self st) with
  | Some tr => set_tracker (Some (RateLimit.record_request model (now st) tr)) st
  | None => st
  end.

(** [if self.health_monitor: self.health_monitor.record_request(...)] *)
Definition monitor (model : string) (duration : Q) (success : bool) (st : State) : State :=
  match health_monitor (self st) with
  | Some hm => set_monitor (Some (Health.record_request model duration success hm)) st
  | None => st
  end.

(** [if self.rotator and key_index is not None: self.rotator.record_...(key_index)] *)
Definition rotator_record (f : Z -> Rotators.ApiKeyRotator -> Rotators.ApiKeyRotator)
           (key_index : option Z) (st : State) : State :=
  match rotator (self st), key_index with
  | Some r, Some i => set_rotator (Some (f i r)) st
  | _, _ => st
  end.

(** The [for current_model in models_to_try] loop of
    [GemBack.generate] and what follows it. *)
Fixpoint generate_loop (key : option string) (key_index : option Z) (prompt : string)
         (models_to_try : list string) (attempts : list AttemptRecord) (st : State)
  : outcome GeminiResponse * State :=
  match models_to_try with
  | [] =>
      (Raises (GeminiBackError "All models failed" "ALL_MODELS_FAILED" attempts None None),
       rotator_record Rotators.record_failure key_index st)
  | current_model :: rest =>
      match predict current_model st with
      | (Raises ex, st1) => (Raises ex, st1)
      | (Returns _, st1) =>
          let start_time := now st1 in
          let st2 := track current_model st1 in
          match _generate_with_retry (options (self st2)) key current_model prompt
                                     (history st2) with
          | (inr response, h) =>
              let st3 := set_history h st2 in
              let duration := ((now st3 - start_time) * 1000)%Q in
              let st4 := monitor current_model duration true st3 in
              let st5 := rotator_record Rotators.record_success key_index st4 in
              (Returns {| text := text_of response;
                          model := current_model;
                          raw_response := response |}, st5)
          | (inl e, h) =>
              let st3 := set_history h st2 in
              let duration := ((now st3 - start_time) * 1000)%Q in
              let st4 := monitor current_model duration false st3 in
              let status_code := status_of e in
              let attempts' :=
                attempts ++ [{| ar_model := current_model;
                                ar_error := message e;
                                ar_timestamp := now st4;
                                ar_status_code := status_code |}] in
              if is_auth status_code then
                (Raises (GeminiBackError "Authentication failed" "AUTH_ERROR" attempts'
                                         status_code (Some current_model)),
                 rotator_record Rotators.record_failure key_index st4)
              else generate_loop key key_index prompt rest attempts' st4
          end
      end
  end.

(** [models_to_try = [model] if model else self.options.fallback_order] *)
Definition models_to_try (model : option string) (st : State) : list string :=
  match model with
  | Some (String c s) => [String c s]
  | _ => fallback_order (options (self st))
  end.

(** [GemBack.generate] *)
Definition generate (prompt : string) (model : option string) (st : State)
  : outcome GeminiResponse * State :=
  match _get_api_key st with
  | (Raises ex, st1) => (Raises ex, st1)
  | (Returns key_info, st1) =>
      generate_loop (Rotators.key key_info) (Rotators.index key_info) prompt
                    (models_to_try model st) [] st1
  end.

(** The loop of [GemBack.generate_stream], the generator run to its
    end: the outcome ([Returns tt] for a normal end), the fragments
    yielded so far and the state. *)
Fixpoint stream_loop (key : option string) (prompt : string)
         (models_to_try : list string) (attempts : list AttemptRecord)
         (yielded : list string) (st : State)
  : outcome unit * list string * State :=
  match models_to_try with
  | [] =>
      (Raises (GeminiBackError "All models failed for stream" "ALL_MODELS_FAILED"
                               attempts None None), yielded, st)
  | current_model :: rest =>
      let st1 := track current_model st in
      let start_time := now st1 in
      let stream := generate_content_stream (history st1) key current_model prompt in
      let st2 := set_history (history st1 ++ [InvokeStream key current_model prompt]) st1 in
      let yielded' := yielded ++ chunks stream in
      let duration := ((now st2 - start_time) * 1000)%Q in
      match failure stream with
      | None =>
          match chunks stream with
          | _ :: _ => (Returns tt, yielded', monitor current_model duration true st2)
          | [] => stream_loop key prompt rest attempts yielded' st2
          end
      | Some e =>
          let st3 := monitor current_model duration false st2 in
          stream_loop key prompt rest
                      (attempts ++ [{| ar_model := current_model;
                                       ar_error := message e;
                                       ar_timestamp := now st3;
                                       ar_status_code := None |}])
                      yielded' st3
      end
  end.

(** [GemBack.generate_stream] *)
Definition generate_stream (prompt : string) (model : option string) (st : State)
  : outcome unit * list string * State :=
  match _get_api_key st with
  | (Raises ex, st1) => (Raises ex, [], st1)
  | (Returns key_info, st1) =>
      stream_loop (Rotators.key key_info) prompt (models_to_try model st) [] [] st1
  end.

(** [[self.rate_limit_tracker.get_status(m) for m in models]]: each
    call prunes the tracker it is given. *)
Fixpoint status_list (t : Q) (models : list string) (tr : RateLimit.RateLimitTracker)
  : list RateLimit.RateLimitStatus * RateLimit.RateLimitTracker :=
  match models with
  | [] => ([], tr)
  | m :: rest =>
      let '(s, tr1) := RateLimit.get_status m t tr in
      let '(ss, tr2) := status_list t rest tr1 in
      (s :: ss, tr2)
  end.

(** [GemBack.get_fallback_stats] *)
Definition get_fallback_stats (st : State) : FallbackStats * State :=
  let apiKeyStats := Rotators.get_stats <$> rotator (self st) in
  if enable_monitoring (options (self st))
     && (bool_decide (is_Some (rate_limit_tracker (self st)))
         || bool_decide (is_Some (health_monitor (self st))))
  then
    let models := fallback_order (options (self st)) in
    let '(rate_limit_status, st1) :=
      match rate_limit_tracker (self st) with
      | Some tr =>
          let '(ss, tr') := status_list (now st) models tr in
          (ss, set_tracker (Some tr') st)
      | None => ([], st)
      end in
    let model_health :=
      match health_monitor (self st1) with
      | Some hm => (fun m => Health.get_health m hm) <$> models
      | None => []
      end in
    ({| apiKeyStats := apiKeyStats;
        monitoring := Some {| rateLimitStatus := rate_limit_status;
                              modelHealth := model_health |} |}, st1)
  else ({| apiKeyStats := apiKeyStats; monitoring := None |}, st).

End Run.

End Client.

(** ** [client.py] *)

Module SimpleClient.
Import Types.

Record GemBackConfig := {
  api_keys : list string;
  fallback_order : list string;
  max_retries : Z;
  timeout : Z;
  retry_delay : Z
}.

(** [GemBackConfig.__init__]; an absent or empty [fallback_order] is
    replaced by the default one. *)
Definition config (keys : list string) (order : option (list string))
           (retries timeout delay : Z) : GemBackConfig :=
  {| api_keys := keys;
     fallback_order := if Py.truthy_list order then default [] order
                       else ["gemini-pro"; "gemini-flash"];
     max_retries := retries;
     timeout := timeout;
     retry_delay := delay |}.

Record GemBackClient := {
  cfg : GemBackConfig;
  _current_key_index : Z
}.

(** [GemBackClient.__init__] *)
Definition __init__ (c : GemBackConfig) : outcome GemBackClient :=
  match api_keys c with
  | [] => Raises (ValueError "At least one API key is required")
  | _ :: _ => Returns {| cfg := c; _current_key_index := 0 |}
  end.

(** [GemBackClient._get_next_key] *)
Definition _get_next_key (c : GemBackClient) : outcome string * GemBackClient :=
  match Py.getitem (api_keys (cfg c)) (_current_key_index c) with
  | None => (Raises IndexError, c)
  | Some key =>
      (Returns key,
       {| cfg := cfg c;
          _current_key_index :=
            (_current_key_index c + 1) `mod` Z.of_nat (length (api_keys (cfg c))) |})
  end.

(** [GemBackClient._get_all_keys_rotated] *)
Definition _get_all_keys_rotated (c : GemBackClient) : list string :=
  Py.slice_from (api_keys (cfg c)) (_current_key_index c)
  ++ Py.slice_to (api_keys (cfg c)) (_current_key_index c).

Record Usage := {
  prompt_tokens : Z;
  completion_tokens : Z;
  total_tokens : Z
}.

Record GenerateContentOutput := {
  text : string;
  model_used : string;
  finish_reason : option string;
  usage : option Usage
}.

(** An exception that a call of the SDK raises: the two classes that
    [generate_content] tells apart, or any other one, with its
    [str(e)]. The exceptions that [generate_content] builds itself are
    of the same shape. *)
Inductive SdkError :=
| ResourceExhausted (msg : string)
| ServiceUnavailable (msg : string)
| OtherError (msg : string).

(** What [generate_content] reads of a response of the SDK:
    [prompt_feedback] is [None] when it is absent or empty, and
    [candidates] holds the names of the finish reasons. *)
Record Response := {
  parts : list string;
  prompt_feedback : option string;
  response_text : string;
  usage_metadata : option Usage;
  candidates : list string
}.

(** A value of the [generation_config] dictionary. *)
Inductive value := Float (x : Q) | Int (n : Z).

(** The dictionary of the four parameters, without those that are
    [None]. *)
Definition generation_config (temperature : option Q) (max_tokens : option Z)
           (top_p : option Q) (top_k : option Z) : list (string * value) :=
  omap id [ (fun v => ("temperature", Float v)) <$> temperature;
            (fun v => ("max_output_tokens", Int v)) <$> max_tokens;
            (fun v => ("top_p", Float v)) <$> top_p;
            (fun v => ("top_k", Int v)) <$> top_k ].

(** What [generate_content] awaits: a call of the SDK with a key and a
    model, or a sleep. *)
Inductive Event :=
| Call (api_key model_name : string)
| Nap (seconds : Q).

(** The [GenerateContentOutput] built from a response. *)
Definition output_of (model_name : string) (response : Response) : GenerateContentOutput :=
  {| text := response_text response;
     model_used := model_name;
     finish_reason := Some (default "UNKNOWN" (head (candidates response)));
     usage := usage_metadata response |}.

(** [not response.parts and response.prompt_feedback] *)
Definition blocked (response : Response) : option string :=
  match parts response with
  | [] => prompt_feedback response
  | _ :: _ => None
  end.

(** [time.sleep(retry_delay / 1000.0)] for the int [retry_delay]:
    the seconds slept, or the exception raised. The division raises
    [OverflowError] for an int that has no float; [time.sleep] raises
    [OverflowError] for a length that does not fit the signed 64-bit
    count of nanoseconds of the clock, and [ValueError] for a
    negative one (the messages are those of CPython 3.11). *)
Definition nap (retry_delay : Z) : exn + Q :=
  if Py.int_overflows retry_delay
  then inl (OverflowError "int too large to convert to float")
  else if 2 ^ 63 <=? Z.abs retry_delay * 10 ^ 6
  then inl (OverflowError "timestamp too large to convert to C _PyTime_t")
  else if retry_delay <? 0
  then inl (ValueError "sleep length must be non-negative")
  else inr (inject_Z retry_delay / 1000)%Q.

(** How the loop over the keys of one model ends: with the output
    that [generate_content] returns; with the value of [last_error]
    with which the next model is tried; or with an exception raised
    inside a handler, which leaves [generate_content]. *)
Inductive KeysResult :=
| Output (output : GenerateContentOutput)
| NextModel (last_error : option SdkError)
| Leaves (ex : exn).

(** What [generate_content] raises: its [last_error] (or the
    exception of the run that made no call) at the [raise] of its
    last line, or the exception of [time.sleep], which no handler
    catches. *)
Inductive Raised :=
| LastError (e : SdkError)
| SleepError (ex : exn).

Section Run.

(** The SDK, a function of the events awaited so far. *)
Variable sdk :
  list Event -> string -> string -> string -> list (string * value) -> SdkError + Response.

(** The loop [for api_key in keys_to_try] for one model; a safety
    block leaves the loop at once, and so does a [time.sleep] that
    raises. *)
Fixpoint key_loop (c : GemBackClient) (model_name prompt : string)
         (gen : list (string * value)) (keys_to_try : list string)
         (last_error : option SdkError) (h : list Event)
  : KeysResult * list Event :=
  match keys_to_try with
  | [] => (NextModel last_error, h)
  | api_key :: rest =>
      let h1 := h ++ [Call api_key model_name] in
      match sdk h api_key model_name prompt gen with
      | inr response =>
          match blocked response with
          | Some feedback =>
              (NextModel (Some (OtherError ("Safety Block: " +:+ feedback))), h1)
          | None => (Output (output_of model_name response), h1)
          end
      | inl (ResourceExhausted _) =>
          key_loop c model_name prompt gen rest
                   (Some (ResourceExhausted "All keys exhausted")) h1
      | inl (ServiceUnavailable _) =>
          match nap (retry_delay (cfg c)) with
          | inr seconds =>
              key_loop c model_name prompt gen rest
                       (Some (ServiceUnavailable "Service Unavailable"))
                       (h1 ++ [Nap seconds])
          | inl ex => (Leaves ex, h1)
          end
      | inl (OtherError msg) =>
          key_loop c model_name prompt gen rest (Some (OtherError msg)) h1
      end
  end.

(** The loop [for model_name in models_to_try] and the [raise] after
    it. *)
Fixpoint model_loop (c : GemBackClient) (prompt : string) (gen : list (string * value))
         (models_to_try : list string) (last_error : option SdkError) (h : list Event)
  : (Raised + GenerateContentOutput) * list Event :=
  match models_to_try with
  | [] =>
      (inl (LastError
              (default (OtherError "Failed to generate content with all models and keys")
                       last_error)), h)
  | model_name :: rest =>
      match key_loop c model_name prompt gen (_get_all_keys_rotated c) last_error h with
      | (Output output, h1) => (inr output, h1)
      | (NextModel last_error', h1) => model_loop c prompt gen rest last_error' h1
      | (Leaves ex, h1) => (inl (SleepError ex), h1)
      end
  end.

(** [GemBackClient.generate_content]; the client itself is not
    changed. *)
Definition generate_content (c : GemBackClient) (prompt : string) (model : option string)
           (temperature : option Q) (max_tokens : option Z)
           (top_p : option Q) (top_k : option Z) (h : list Event)
  : (Raised + GenerateContentOutput) * list Event :=
  let models_to_try :=
    match model with
    | Some (String a s) => [String a s]
    | _ => fallback_order (cfg c)
    end in
  model_loop c prompt (generation_config temperature max_tokens top_p top_k)
             models_to_try None h.

End Run.

End SimpleClient.

(** ** Vocabulary of the properties *)

Module Spec.
Import Types Client.

(** What holds of a round-robin rotator over [keys] after [n]
    selections. *)
Definition rr_inv (keys : list string) (n : Z) (r : Rotators.ApiKeyRotator) : Prop :=
  Rotators.api_keys r = keys /\
  Rotators.strategy r = "round-robin" /\
  Rotators.current_index r = n `mod` Z.of_nat (length keys) /\
  forall j, 0 <= j < Z.of_nat (length keys) -> is_Some (Rotators.stats r !! j).

(** The number of SDK calls in a run of events. *)
Definition invocations (events : list Event) : nat :=
  length (List.filter (fun ev => match ev with Invoke _ _ _ => true | _ => false end) events).

(** The delays slept in a run of events, in order. *)
Definition delays (events : list Event) : list Py.float :=
  omap (fun ev => match ev with Sleep d => Some d | _ => None end) events.

(** The events of one model invocation that is retried [j] times,
    the retry counter being [retries] at the first call: a call, then
    [j] times a sleep followed by a call. *)
Fixpoint retry_events (o : GemBackOptions) (key : option string) (model prompt : string)
         (retries : Z) (j : nat) : list Event :=
  match j with
  | O => [Invoke key model prompt]
  | S j' =>
      Invoke key model prompt :: Sleep (delay o (retries + 1))
             :: retry_events o key model prompt (retries + 1) j'
  end.

(** An exact value within the range of the finite floats. *)
Definition in_float_range (x : Q) : Prop :=
  (inject_Z (- Py.float_bound) < x < inject_Z Py.float_bound)%Q.

(** A transient error: a status of 500 or more, or a message that
    contains, in any letter case, "timeout" or "connection". *)
Definition transient (e : ApiError) : Prop :=
  (exists c, status_of e = Some c /\ 500 <= c) \/
  Py.contains "timeout" (Py.lower (message e)) = true \/
  Py.contains "connection" (Py.lower (message e)) = true.

(** An authentication error: status 401 or 403. *)
Definition auth_error (e : ApiError) : Prop :=
  status_of e = Some 401 \/ status_of e = Some 403.

(** One failure was recorded to the rotator [r] for some credential,
    giving [r']: one row of the table has its failures and its
    requests increased by 1 and nothing else differs. *)
Definition failure_recorded (r r' : Rotators.ApiKeyRotator) : Prop :=
  exists i s,
    Rotators.stats r !! i = Some s /\
    r' = Rotators.set_stats (<[i := Rotators.count_failure s]> (Rotators.stats r)) r.

(** A stream that ends normally after no fragment. *)
Definition ends_empty (s : Stream) : Prop := chunks s = [] /\ failure s = None.

(** The streaming calls that trying [models] in order awaits. *)
Definition stream_events (key : option string) (prompt : string) (models : list string)
  : list Event :=
  (fun m => InvokeStream key m prompt) <$> models.

(** The times at which a log of requests, oldest first, records the
    model [m]. *)
Definition recorded_times (m : string) (log : list (string * Q)) : list Q :=
  omap (fun r => if decide (r.1 = m) then Some r.2 else None) log.

(** The requests that a log, oldest first, records for the model [m]:
    the response time and the success of each. *)
Definition records_of (m : string) (log : list (string * Q * bool)) : list (Q * bool) :=
  omap (fun r => if decide (r.1.1 = m) then Some (r.1.2, r.2) else None) log.

(** The last 100 entries of a list. *)
Definition last_100 (l : list Q) : list Q := drop (length l - 100) l.

(** The number of failures at the head of a list of outcomes, and at
    its end. *)
Fixpoint leading_failures (l : list bool) : nat :=
  match l with
  | false :: l' => S (leading_failures l')
  | _ => O
  end.

Definition trailing_failures (l : list bool) : nat := leading_failures (rev l).

(** The dictionary that the monitor should hold for a model with the
    records [recs]. *)
Definition data_of (recs : list (Q * bool)) : Health.Data.t :=
  {| Health.Data.response_times := last_100 recs.*1;
     Health.Data.successes := Z.of_nat (length (List.filter id recs.*2));
     Health.Data.failures := Z.of_nat (length (List.filter negb recs.*2));
     Health.Data.consecutive_failures := Z.of_nat (trailing_failures recs.*2) |}.

(** The success rate of the requests recorded for a model, by their
    outcomes: the share of the successes, and 1 when there is none. *)
Definition success_rate_of (outcomes : list bool) : Q :=
  if decide (outcomes = []) then 1%Q
  else (inject_Z (Z.of_nat (length (List.filter id outcomes)))
        / inject_Z (Z.of_nat (length outcomes)))%Q.

(** The rank of the 95th percentile among [n] entries in ascending
    order, counted from 0: the whole part of [n * 0.95], and the last
    rank at most. *)
Definition p95_rank (n : nat) : nat := Nat.min (n * 95 / 100) (n - 1).

(** The 95th percentile of a buffer exceeds a limit: the buffer put
    in ascending order has, at the rank of the percentile, an entry
    above the limit. *)
Definition p95_exceeds (limit : Q) (buffer : list Q) : Prop :=
  exists ascending t,
    ascending ≡ₚ buffer /\ StronglySorted Qle ascending /\
    ascending !! p95_rank (length buffer) = Some t /\ (limit < t)%Q.

(** An operation on a rotator: a selection at a clock reading, or
    the record of a success or of a failure for an index. *)
Inductive rotator_op :=
| Select (now : Q)
| Success (i : Z)
| Failure (i : Z).

Definition apply_op (r : Rotators.ApiKeyRotator) (op : rotator_op) : Rotators.ApiKeyRotator :=
  match op with
  | Select now => (Rotators.get_next_key now r).2
  | Success i => Rotators.record_success i r
  | Failure i => Rotators.record_failure i r
  end.

(** The rotator after a run of operations, oldest first. *)
Definition run_ops (ops : list rotator_op) (r : Rotators.ApiKeyRotator)
  : Rotators.ApiKeyRotator :=
  foldl apply_op r ops.

(** A row of the table of a rotator is sound at index [i]. *)
Definition row_ok (i : Z) (s : Rotators.KeyStats) : Prop :=
  Rotators.key_index s = i /\
  Rotators.total_requests s = Rotators.success_count s + Rotators.failure_count s /\
  0 <= Rotators.success_count s /\ 0 <= Rotators.failure_count s.

(** The table of a rotator over [keys]: the rows [0 .. k-1], each one
    sound, and a cursor within them. *)
Definition table_ok (keys : list string) (strat : string) (r : Rotators.ApiKeyRotator)
  : Prop :=
  Rotators.api_keys r = keys /\
  Rotators.strategy r = strat /\
  (forall i, is_Some (Rotators.stats r !! i) <-> 0 <= i < Z.of_nat (length keys)) /\
  (forall i s, Rotators.stats r !! i = Some s -> row_ok i s) /\
  0 <= Rotators.current_index r /\
  (keys <> [] -> Rotators.current_index r < Z.of_nat (length keys)).

(** The counters of a row, without the time of its last use. *)
Definition counters (s : Rotators.KeyStats) : Z * Z * Z * Z :=
  (Rotators.key_index s, Rotators.total_requests s,
   Rotators.success_count s, Rotators.failure_count s).


(** An event that the loop of [generate] with the credential [key],
    the prompt [prompt] and the models [models] may await: a call of
    the SDK with this credential, this prompt and one of the models,
    or a sleep of a finite delay. *)
Definition uses (key : option string) (prompt : string) (models : list string)
           (ev : Event) : Prop :=
  match ev with
  | Invoke k m q => k = key /\ q = prompt /\ m ∈ models
  | InvokeStream _ _ _ => False
  | Sleep (Py.Fin _) => True
  | Sleep _ => False
  end.

(** Two clients with the same options and single key, and the same
    parts present. *)
Definition same_setup (c c' : GemBack) : Prop :=
  options c' = options c /\
  _single_key c' = _single_key c /\
  (is_Some (rate_limit_tracker c') <-> is_Some (rate_limit_tracker c)) /\
  (is_Some (health_monitor c') <-> is_Some (health_monitor c)).

(** What a run of the loop of [generate] over [models] may end with,
    when it was entered with the history [h] and the attempts
    [attempts0] and awaited [events]: the answer of its last call, for
    one of the models; or [GeminiBackError], either with the code
    [ALL_MODELS_FAILED] and one more attempt for each model, none with
    an authentication status, or with the code [AUTH_ERROR], the
    status and the model of the last attempt, the attempts before it
    without such a status and the models attempted at the head of
    [models]. *)
Definition generate_outcome
           (generate_content :
              list Event -> option string -> string -> string -> ApiError + RawResponse)
           (key : option string) (prompt : string) (models : list string)
           (h events : list Event) (attempts0 : list AttemptRecord)
           (res : outcome GeminiResponse) : Prop :=
  match res with
  | Returns g =>
      model g ∈ models /\
      text g = text_of (raw_response g) /\
      exists before,
        events = before ++ [Invoke key (model g) prompt] /\
        generate_content (h ++ before) key (model g) prompt = inr (raw_response g)
  | Raises (GeminiBackError msg code attempts status mdl) =>
      exists new,
        attempts = attempts0 ++ new /\
        ((msg = "All models failed" /\ code = "ALL_MODELS_FAILED" /\
          ar_model <$> new = models /\ status = None /\ mdl = None /\
          Forall (fun a => is_auth (ar_status_code a) = false) new) \/
         (msg = "Authentication failed" /\ code = "AUTH_ERROR" /\
          is_auth status = true /\
          exists tried a,
            new = tried ++ [a] /\
            ar_status_code a = status /\ mdl = Some (ar_model a) /\
            (ar_model <$> new) `prefix_of` models /\
            Forall (fun a => is_auth (ar_status_code a) = false) tried))
  | Raises _ => False
  end.

(** The streams that the SDK opens when [models] are tried in order
    from the history [h], one streaming call each. *)
Fixpoint streams_of
         (generate_content_stream : list Event -> option string -> string -> string -> Stream)
         (key : option string) (prompt : string) (models : list string) (h : list Event)
  : list Stream :=
  match models with
  | [] => []
  | m :: rest =>
      generate_content_stream h key m prompt
        :: streams_of generate_content_stream key prompt rest
                      (h ++ [InvokeStream key m prompt])
  end.

(** A stream after which [generate_stream] goes on with the next
    model: it raised, or it ended after no fragment. *)
Definition fruitless (s : Stream) : Prop := is_Some (failure s) \/ chunks s = [].

(** The model and the message of the attempts that [generate_stream]
    appends for the streams of the models tried: one for each stream
    that raised. *)
Definition stream_attempts (tried : list (string * Stream)) : list (string * string) :=
  omap (fun ms => (fun e => (ms.1, message e)) <$> failure ms.2) tried.

(** The keys that [n] calls of [_get_next_key] return, and the client
    after them. *)
Fixpoint next_keys (n : nat) (c : SimpleClient.GemBackClient)
  : list (outcome string) * SimpleClient.GemBackClient :=
  match n with
  | O => ([], c)
  | S n' =>
      let '(r, c1) := SimpleClient._get_next_key c in
      let '(rs, c2) := next_keys n' c1 in
      (r :: rs, c2)
  end.

(** The calls of the SDK in a run of events of the simple client, as
    pairs of a key and a model. *)
Definition calls (events : list SimpleClient.Event) : list (string * string) :=
  omap (fun ev => match ev with
                  | SimpleClient.Call k m => Some (k, m)
                  | SimpleClient.Nap _ => None
                  end) events.





End Spec.

(** ** Scenarios

  Concrete environments and clients, used to run the model. *)

Module Scenario.
Import Types Client.

(** A clock that advances by one second at every awaited event. *)
Definition clock (h : list Event) : Q := inject_Z (Z.of_nat (length h)).

(** An exception with the attribute [code]. *)
Definition error (c : Z) (msg : string) : ApiError :=
  {| code := Some c; status_code := None; message := msg |}.

Definition answer (s : string) : ApiError + RawResponse := inr {| text_of := s |}.

(** The SDK fails every call with the same exception. *)
Definition always_fails (e : ApiError)
  : list Event -> option string -> string -> string -> ApiError + RawResponse :=
  fun _ _ _ _ => inl e.

(** The SDK fails the calls of one model and answers the others. *)
Definition one_model_fails (bad : string) (e : ApiError)
  : list Event -> option string -> string -> string -> ApiError + RawResponse :=
  fun _ _ m _ => if decide (m = bad) then inl e else answer "ok".

(** The SDK fails its first call and answers the later ones. *)
Definition first_call_fails (e : ApiError)
  : list Event -> option string -> string -> string -> ApiError + RawResponse :=
  fun h _ _ _ => match h with [] => inl e | _ :: _ => answer "ok" end.

(** The SDK opens streams that end at once, without a fragment. *)
Definition empty_streams
  : list Event -> option string -> string -> string -> Stream :=
  fun _ _ _ _ => {| chunks := []; failure := None |}.

Definition options_with (key : option string) (keys : option (list string))
           (order : list string) (monitoring : bool) : GemBackOptions :=
  {| api_key := key; api_keys := keys; fallback_order := order;
     max_retries := 2; retry_delay := 1%Q; timeout := 30%Q;
     debug := false; log_level := "INFO";
     api_key_rotation_strategy := "round-robin";
     enable_monitoring := monitoring |}.

(** The state in which the client built from [o] starts: no event
    awaited yet. (For options that [__init__] refuses, a client
    with no key and no monitoring stands in.) *)
Definition boot (o : GemBackOptions) : State :=
  {| self := match __init__ o with
             | Returns g => g
             | Raises _ =>
                 {| options := o; rotator := None; _single_key := None;
                    rate_limit_tracker := None; health_monitor := None |}
             end;
     history := [] |}.

(** A client with one key and the fallback order [model-a], [model-b]. *)
Definition single_key : GemBackOptions :=
  options_with (Some "test-key") None ["model-a"; "model-b"] true.

(** A client with two keys and the same fallback order. *)
Definition two_keys : GemBackOptions :=
  options_with None (Some ["key-0"; "key-1"]) ["model-a"; "model-b"] true.


(** A response of the SDK of the simple client, as the test suite
    mocks it: one part, no feedback, the finish reason [STOP]. *)
Definition success (s : string) : SimpleClient.SdkError + SimpleClient.Response :=
  inr {| SimpleClient.parts := [s];
         SimpleClient.prompt_feedback := None;
         SimpleClient.response_text := s;
         SimpleClient.usage_metadata := None;
         SimpleClient.candidates := ["STOP"] |}.

End Scenario.

(** * Properties *)

Section RotatorFacts.
Import Types Rotators.

Lemma range_lookup (n : nat) (i : Z) :
  i ∈ Py.range n <-> 0 <= i < Z.of_nat n.
Proof.
  unfold Py.range. rewrite list_elem_of_fmap. split.
  - intros (j & -> & Hj). apply elem_of_seq in Hj. lia.
  - intros Hi. exists (Z.to_nat i). split; [lia|]. apply elem_of_seq. lia.
Qed.

Lemma init_stats_lookup (keys : list string) (strat : string) (i : Z) :
  0 <= i < Z.of_nat (length keys) ->
  stats (Rotators.__init__ keys strat) !! i = Some (new_stats i).
Proof.
  intros Hi. simpl. apply elem_of_list_to_map.
  - rewrite <- list_fmap_compose. simpl.
    unfold Py.range. rewrite list_fmap_id.
    apply NoDup_fmap; [intros ? ?; lia | apply NoDup_seq].
  - apply list_elem_of_fmap. exists i. split; [done|]. by apply range_lookup.
Qed.

End RotatorFacts.

Section RoundRobin.
Import Types Rotators Spec.

Lemma rr_inv_init (keys : list string) :
  keys <> [] -> rr_inv keys 0 (Rotators.__init__ keys "round-robin").
Proof.
  intros Hk. repeat split; try reflexivity.
  intros j Hj. rewrite init_stats_lookup by done. eauto.
Qed.

Lemma rr_step (keys : list string) (n : Z) (now : Q) (r : ApiKeyRotator) :
  keys <> [] -> 0 <= n -> rr_inv keys n r ->
  exists cred r',
    keys !! Z.to_nat (n `mod` Z.of_nat (length keys)) = Some cred /\
    get_next_key now r
    = (Returns {| key := Some cred; index := Some (n `mod` Z.of_nat (length keys)) |}, r') /\
    rr_inv keys (n + 1) r'.
Proof.
  intros Hk Hn (Hkeys & Hstrat & Hcur & Hdom).
  set (k := Z.of_nat (length keys)) in *.
  assert (Hkpos : 0 < k) by (destruct keys; [done | unfold k; simpl; lia]).
  assert (Hi : 0 <= n `mod` k < k) by (apply Z.mod_pos_bound; lia).
  destruct (Hdom _ Hi) as [s Hs].
  destruct (lookup_lt_is_Some_2 keys (Z.to_nat (n `mod` k))) as [cred Hcred]; [lia|].
  exists cred. eexists. split; [exact Hcred|].
  unfold get_next_key, choose. rewrite Hkeys.
  destruct keys as [|k0 keys']; [done|].
  rewrite decide_True by done.
  cbn [stats set_cursor]. rewrite Hcur. fold k. rewrite Hs.
  cbn [api_keys set_stats set_cursor]. rewrite Hkeys.
  unfold Py.getitem. rewrite decide_True by lia. rewrite Hcred.
  split; [reflexivity|].
  repeat split; cbn [api_keys strategy current_index stats set_stats set_cursor]; try done.
  - fold k. rewrite Zplus_mod_idemp_l. reflexivity.
  - intros j Hj. destruct (decide (n `mod` k = j)) as [->|Hne].
    + rewrite lookup_insert_eq. eauto.
    + rewrite lookup_insert_ne by done. by apply Hdom.
Qed.

Lemma rr_inv_after (keys : list string) (nows : list Q) :
  keys <> [] ->
  rr_inv keys (Z.of_nat (length nows))
         (after_selections nows (Rotators.__init__ keys "round-robin")).
Proof.
  intros Hk. induction nows as [|now nows IH] using rev_ind.
  - by apply rr_inv_init.
  - unfold after_selections in *. rewrite foldl_app. simpl.
    destruct (rr_step keys (Z.of_nat (length nows)) now _ Hk ltac:(lia) IH)
      as (cred & r' & _ & Heq & Hinv).
    rewrite Heq. simpl. rewrite length_app. simpl.
    replace (Z.of_nat (length nows + 1)) with (Z.of_nat (length nows) + 1) by lia.
    exact Hinv.
Qed.

(** C5. A rotator built over [k >= 1] credentials with the
    round-robin strategy answers its [i]-th selection (counting from
    0, the selections made one after the other) with the credential at
    index [i mod k], and leaves the cursor at [(i + 1) mod k]. *)
Theorem round_robin_ith_selection (keys : list string) (nows : list Q) (now : Q) :
  keys <> [] ->
  let k := Z.of_nat (length keys) in
  let i := Z.of_nat (length nows) in
  let r := after_selections nows (Rotators.__init__ keys "round-robin") in
  exists cred,
    keys !! Z.to_nat (i `mod` k) = Some cred /\
    (get_next_key now r).1
    = Returns {| key := Some cred; index := Some (i `mod` k) |} /\
    current_index (get_next_key now r).2 = (i + 1) `mod` k.
Proof.
  intros Hk k i r.
  destruct (rr_step keys i now r Hk ltac:(lia) (rr_inv_after keys nows Hk))
    as (cred & r' & Hcred & Heq & Hinv).
  exists cred. rewrite Heq. simpl. repeat split; try done.
  apply Hinv.
Qed.

Lemma round_robin_ith_selection_witness :
  exists cred,
    ["k0"; "k1"; "k2"] !! Z.to_nat (4 `mod` 3) = Some cred /\
    (get_next_key 9%Q
       (after_selections [1%Q; 2%Q; 3%Q; 4%Q] (Rotators.__init__ ["k0"; "k1"; "k2"] "round-robin"))).1
    = Returns {| key := Some cred; index := Some (4 `mod` 3) |} /\
    current_index
      (get_next_key 9%Q
         (after_selections [1%Q; 2%Q; 3%Q; 4%Q] (Rotators.__init__ ["k0"; "k1"; "k2"] "round-robin"))).2
    = (4 + 1) `mod` 3.
Proof.
  apply (round_robin_ith_selection ["k0"; "k1"; "k2"] [1%Q; 2%Q; 3%Q; 4%Q] 9%Q).
  discriminate.
Defined.

(** C9. Recording a success or a failure for an index that is not a
    key of the rotator's table raises nothing and returns the rotator
    as it was: every counter of every credential and the cursor are
    unchanged. *)
Theorem record_absent_index_is_noop (r : ApiKeyRotator) (i : Z) :
  stats r !! i = None ->
  record_success i r = r /\ record_failure i r = r.
Proof.
  intros Hnone. unfold record_success, record_failure. by rewrite Hnone.
Qed.

Lemma init_stats_out_of_range (keys : list string) (strat : string) (i : Z) :
  ~ (0 <= i < Z.of_nat (length keys)) ->
  stats (Rotators.__init__ keys strat) !! i = None.
Proof.
  intros Hi. simpl. apply not_elem_of_list_to_map_1.
  rewrite <- list_fmap_compose. simpl. unfold Py.range at 1.
  rewrite list_fmap_id. fold (Py.range (length keys)).
  by rewrite range_lookup.
Qed.

Lemma record_absent_index_is_noop_witness :
  stats (Rotators.__init__ ["k0"; "k1"] "round-robin") !! 7 = None /\
  record_success 7 (Rotators.__init__ ["k0"; "k1"] "round-robin") = Rotators.__init__ ["k0"; "k1"] "round-robin" /\
  record_failure 7 (Rotators.__init__ ["k0"; "k1"] "round-robin") = Rotators.__init__ ["k0"; "k1"] "round-robin".
Proof.
  assert (H : stats (Rotators.__init__ ["k0"; "k1"] "round-robin") !! 7 = None)
    by (apply init_stats_out_of_range; simpl; lia).
  split; [exact H|].
  exact (record_absent_index_is_noop (Rotators.__init__ ["k0"; "k1"] "round-robin") 7 H).
Defined.

End RoundRobin.

Section Construction.
Import Types.

Lemma resolved_keys_empty (o : GemBackOptions) :
  Client.resolved_keys o = []
  <-> (api_key o = None \/ api_key o = Some "") /\
      (api_keys o = None \/ api_keys o = Some []).
Proof.
  unfold Client.resolved_keys.
  destruct (api_keys o) as [[|k ks]|], (api_key o) as [[|c s]|];
    split; intros H; try done; try (split; auto; fail);
    destruct H as [[H1|H1] [H2|H2]]; done.
Qed.


End Construction.

Section HealthFacts.
Import Health.

Lemma Qltb_lt (x y : Q) : Py.Qltb x y = true <-> (x < y)%Q.
Proof.
  unfold Py.Qltb. rewrite negb_true_iff.
  destruct (Qle_bool y x) eqn:E.
  - apply Qle_bool_iff in E. split; [done | intros H; exfalso; lra].
  - split; [intros _ | done].
    apply Qnot_le_lt. intros H. apply Qle_bool_iff in H. congruence.
Qed.

Lemma Qltb_ge (x y : Q) : Py.Qltb x y = false <-> (y <= x)%Q.
Proof.
  split.
  - intros H. apply Qnot_lt_le. intros Hlt. apply Qltb_lt in Hlt. congruence.
  - intros H. destruct (Py.Qltb x y) eqn:E; [|done].
    apply Qltb_lt in E. exfalso; lra.
Qed.

Lemma get_percentile_nil (p : Q) : get_percentile [] p = 0%Q.
Proof. reflexivity. Qed.

(** The consecutive failures counted after one more failure. *)
Lemma record_failure_consecutive (m : string) (t : Q) (hm : HealthMonitor) :
  Data.consecutive_failures
    (default Data.empty (health_data (record_request m t false hm) !! m))
  = Data.consecutive_failures (default Data.empty (health_data hm !! m)) + 1.
Proof. unfold record_request. simpl. by rewrite lookup_insert_eq. Qed.

Lemma replay_snoc (log : list (string * Q * bool)) (m : string) (t : Q) (ok : bool) :
  replay (log ++ [(m, t, ok)]) = record_request m t ok (replay log).
Proof. unfold replay. by rewrite foldl_app. Qed.

Lemma replay_consecutive_nonneg (log : list (string * Q * bool)) (m : string) :
  0 <= Data.consecutive_failures (default Data.empty (health_data (replay log) !! m)).
Proof.
  induction log as [|[[m' t] ok] log IH] using rev_ind; [done|].
  rewrite replay_snoc. unfold record_request. cbn [health_data].
  destruct (decide (m' = m)) as [->|Hne].
  - rewrite lookup_insert_eq. destruct ok; simpl; lia.
  - by rewrite lookup_insert_ne.
Qed.

(** The rule that [get_health] applies, on any monitor. *)
Lemma status_cases (m : string) (hm : HealthMonitor) :
  let h := get_health m hm in
  status h
  = if (3 <=? consecutive_failures h) || Py.Qltb (success_rate h) (8 # 10)
    then "unhealthy"
    else if Py.Qltb (success_rate h) (95 # 100)
            || Py.Qltb 5000 (p95_response_time (metrics h))
         then "degraded" else "healthy".
Proof.
  unfold get_health.
  cbn [status consecutive_failures success_rate metrics p95_response_time].
  destruct (RateLimit.sorted _) as [|x xs]; [|reflexivity].
  rewrite get_percentile_nil. simpl (Py.Qltb 5000 0).
  by rewrite andb_false_l, !orb_false_r.
Qed.

(** The status that [get_health] reports, by the other fields of
    the same report: ["unhealthy"] exactly when the reported
    consecutive failures are at least 3 or the reported success rate
    is below 0.8; otherwise ["degraded"] exactly when the success rate
    is below 0.95 or the reported 95th percentile is above 5000 ms;
    otherwise ["healthy"]. Three failures recorded in a row for the
    model make its status ["unhealthy"] whatever was recorded before. *)
Lemma status_rule_of_the_report (m : string) (log : list (string * Q * bool)) :
  let h := get_health m (replay log) in
  let bad := 3 <= consecutive_failures h \/ (success_rate h < 8 # 10)%Q in
  let poor := (success_rate h < 95 # 100)%Q
              \/ (5000 < p95_response_time (metrics h))%Q in
  (status h = "unhealthy" <-> bad) /\
  (status h = "degraded" <-> ~ bad /\ poor) /\
  (status h = "healthy" <-> ~ bad /\ ~ poor) /\
  (forall t1 t2 t3 : Q,
      status (get_health m (replay (log ++ [(m, t1, false); (m, t2, false);
                                            (m, t3, false)])))
      = "unhealthy").
Proof.
  intros h bad poor.
  assert (Hbad : (3 <=? consecutive_failures h) || Py.Qltb (success_rate h) (8 # 10) = true
                 <-> bad).
  { unfold bad. rewrite orb_true_iff, Z.leb_le, Qltb_lt. tauto. }
  assert (Hpoor : Py.Qltb (success_rate h) (95 # 100)
                  || Py.Qltb 5000 (p95_response_time (metrics h)) = true <-> poor).
  { unfold poor. rewrite orb_true_iff, !Qltb_lt. tauto. }
  assert (Hthree : forall t1 t2 t3 : Q,
             status (get_health m (replay (log ++ [(m, t1, false); (m, t2, false);
                                                   (m, t3, false)])))
             = "unhealthy").
  { intros t1 t2 t3.
    replace (log ++ [(m, t1, false); (m, t2, false); (m, t3, false)])
      with (((log ++ [(m, t1, false)]) ++ [(m, t2, false)]) ++ [(m, t3, false)])
      by (by rewrite <- !app_assoc).
    rewrite !replay_snoc. unfold get_health at 1. cbn [status].
    rewrite !record_failure_consecutive.
    pose proof (replay_consecutive_nonneg log m) as Hcf.
    replace (3 <=? _) with true by (symmetry; apply Z.leb_le; lia).
    reflexivity. }
  pose proof (status_cases m (replay log)) as Hstatus. cbv zeta in Hstatus.
  fold h in Hstatus. rewrite Hstatus.
  destruct ((3 <=? consecutive_failures h) || Py.Qltb (success_rate h) (8 # 10)) eqn:E1;
    [|destruct (Py.Qltb (success_rate h) (95 # 100)
                || Py.Qltb 5000 (p95_response_time (metrics h))) eqn:E2].
  - assert bad by (by apply Hbad).
    repeat split; try done; tauto.
  - assert (~ bad) by (rewrite <- Hbad; congruence).
    assert poor by (by apply Hpoor).
    repeat split; try done; tauto.
  - assert (~ bad) by (rewrite <- Hbad; congruence).
    assert (~ poor) by (rewrite <- Hpoor; congruence).
    repeat split; try done; tauto.
Qed.

End HealthFacts.

Section RateLimitFacts.
Import Types RateLimit.

Lemma limits_positive (m : string) (v : Z) : limits !! m = Some v -> 2 <= v.
Proof.
  unfold limits. intros H.
  repeat (rewrite lookup_insert in H; case_decide; [injection H as <-; lia|]).
  by rewrite lookup_empty in H.
Qed.

Lemma elem_of_newer_than (c t : Q) (l : list Q) :
  In t (newer_than c l) <-> In t l /\ (c < t)%Q.
Proof. unfold newer_than. rewrite filter_In, Qltb_lt. tauto. Qed.

(** Entries of the last minute survive the pruning to five minutes. *)
Lemma newer_than_prune (now : Q) (l : list Q) :
  newer_than (now - 60) (newer_than (now - 300) l) = newer_than (now - 60) l.
Proof.
  induction l as [|t l IH]; [done|]. simpl.
  destruct (Py.Qltb (now - 300) t) eqn:E300; simpl; rewrite IH; [done|].
  destruct (Py.Qltb (now - 60) t) eqn:E60; [|done].
  apply Qltb_lt in E60. apply Qltb_ge in E300. exfalso; lra.
Qed.

Lemma insert_sorted_head (x : Q) (l : list Q) :
  exists y rest, insert_sorted x l = y :: rest /\
                 (y = x \/ In y l) /\ (y <= x)%Q /\
                 (forall z, head l = Some z -> (y <= z)%Q).
Proof.
  destruct l as [|z l]; simpl.
  - exists x, []. repeat split; auto; [lra | done].
  - destruct (Qle_bool x z) eqn:E.
    + apply Qle_bool_iff in E. exists x, (z :: l).
      repeat split; auto; [lra|]. intros ? [= <-]. done.
    + assert (z < x)%Q.
      { apply Qnot_le_lt. intros H. apply Qle_bool_iff in H. congruence. }
      exists z, (insert_sorted x l). repeat split; auto; [lra|].
      intros ? [= <-]. lra.
Qed.

(** The head of [sorted l] is a least element of [l]. *)
Lemma sorted_head (l : list Q) (y : Q) (rest : list Q) :
  sorted l = y :: rest -> In y l /\ forall t, In t l -> (y <= t)%Q.
Proof.
  revert y rest. induction l as [|x l IH]; intros y rest; [done|].
  unfold sorted. simpl. fold (sorted l).
  destruct (insert_sorted_head x (sorted l)) as (y' & rest' & Heq & Hin & Hle & Hhd).
  rewrite Heq. intros [= <- <-].
  destruct (sorted l) as [|z zs] eqn:Es.
  - assert (l = []) as ->.
    { destruct l as [|a l']; [done|]. unfold sorted in Es. simpl in Es.
      destruct (insert_sorted_head a (foldr insert_sorted [] l')) as (? & ? & E & _).
      congruence. }
    destruct Hin as [->|[]]. split; [by left|]. intros t [<-|[]]. lra.
  - destruct (IH z zs eq_refl) as [Hz Hmin].
    pose proof (Hhd z eq_refl) as Hyz.
    split.
    + simpl in Heq. destruct (Qle_bool x z); injection Heq as <- _.
      * by left.
      * by right.
    + intros t [<-|Ht]; [done|]. specialize (Hmin t Ht). lra.
Qed.

Lemma sorted_nil (l : list Q) : sorted l = [] -> l = [].
Proof.
  destruct l as [|a l]; [done|]. unfold sorted. simpl.
  destruct (insert_sorted_head a (foldr insert_sorted [] l)) as (? & ? & E & _).
  congruence.
Qed.

Lemma int_nonneg (x : Q) : (0 <= x)%Q -> 0 <= Py.int x.
Proof.
  intros H. unfold Py.int. apply Z.quot_pos; [|lia].
  unfold Qle in H. simpl in H. lia.
Qed.

Lemma max0_nonneg (x : Q) : (0 <= Py.max0 x)%Q.
Proof. unfold Py.max0. destruct (Qlt_le_dec 0 x); lra. Qed.

(** The timestamps [get_status] leaves for the model, and its count of
    the last minute. *)
Lemma get_status_after (m : string) (now : Q) (tr : RateLimitTracker) :
  let ts := default [] (request_timestamps tr !! m) in
  default [] (request_timestamps (get_status m now tr).2 !! m)
  = newer_than (now - 300) ts /\
  current_rpm (get_status m now tr).1
  = Z.of_nat (length (newer_than (now - 60) ts)) /\
  max_rpm (get_status m now tr).1 = default 15 (limits !! m).
Proof.
  unfold get_status. cbn [fst snd current_rpm max_rpm].
  destruct (request_timestamps tr !! m) as [l|] eqn:E.
  - unfold _cleanup. cbn [request_timestamps].
    rewrite lookup_alter_eq, E.
    cbn [fmap option_fmap option_map from_option id].
    by rewrite newer_than_prune.
  - rewrite E. done.
Qed.

(** [get_recommended_wait_time] with its two readings of the clock:
    below the limit at the first reading it returns 0; at or over the
    limit it looks at the entries of the minute before the second
    reading, raises when there is none and else returns the time, in
    whole milliseconds, until the oldest of them leaves that minute. *)
Lemma wait_time_two_readings (m : string) (now1 now2 : Q) (tr : RateLimitTracker) :
  let recorded := default [] (request_timestamps tr !! m) in
  let limit := default 15 (limits !! m) in
  let window := newer_than (now2 - 60) (newer_than (now1 - 300) recorded) in
  let r := (get_recommended_wait_time m now1 now2 tr).1 in
  (Z.of_nat (length (newer_than (now1 - 60) recorded)) < limit -> r = Returns 0) /\
  (limit <= Z.of_nat (length (newer_than (now1 - 60) recorded)) ->
   (window = [] -> r = Raises IndexError) /\
   (window <> [] ->
    exists oldest,
      In oldest window /\ (forall t, In t window -> (oldest <= t)%Q) /\
      r = Returns (Py.int (Py.max0 (oldest + 60 - now2) * 1000)))).
Proof.
  intros recorded limit window r.
  destruct (get_status_after m now1 tr) as (Hts & Hcur & Hmax). cbv zeta in *.
  unfold r, get_recommended_wait_time, would_exceed_limit.
  destruct (get_status m now1 tr) as [status tr1] eqn:Hst. cbn [fst snd] in *.
  rewrite Hcur, Hmax. fold recorded limit.
  split.
  - intros Hlt. replace (limit <=? _) with false by (symmetry; apply Z.leb_gt; lia).
    reflexivity.
  - intros Hge. replace (limit <=? _) with true by (symmetry; apply Z.leb_le; lia).
    cbn [negb]. rewrite Hts. fold recorded.
    assert (Hlimit : 2 <= limit).
    { unfold limit. destruct (limits !! m) as [v|] eqn:E; cbn; [|lia].
      by apply limits_positive in E. }
    destruct (newer_than (now1 - 300) recorded) as [|t0 ts0] eqn:E300.
    { exfalso. rewrite <- newer_than_prune, E300 in Hge. simpl in Hge. lia. }
    fold window. split.
    + intros ->. reflexivity.
    + intros Hwin. destruct (sorted window) as [|oldest rest] eqn:Es.
      { by apply sorted_nil in Es. }
      destruct (sorted_head _ _ _ Es) as [Hin Hmin].
      exists oldest. cbn [fst]. repeat split; done.
Qed.

(** Read at one instant, [get_recommended_wait_time] returns: 0 below
    the limit, and else the time, in whole milliseconds, until the
    oldest entry of the last minute leaves it. *)
Lemma wait_time_at_an_instant (m : string) (now : Q) (tr : RateLimitTracker) :
  let window := newer_than (now - 60) (default [] (request_timestamps tr !! m)) in
  let limit := default 15 (limits !! m) in
  let r := (get_recommended_wait_time m now now tr).1 in
  (Z.of_nat (length window) < limit -> r = Returns 0) /\
  (limit <= Z.of_nat (length window) ->
   exists oldest,
     In oldest window /\ (forall t, In t window -> (oldest <= t)%Q) /\
     r = Returns (Py.int (Py.max0 (oldest + 60 - now) * 1000))).
Proof.
  intros window limit r.
  destruct (wait_time_two_readings m now now tr) as [Hunder Hover]. cbv zeta in *.
  rewrite newer_than_prune in Hover. fold window limit r in Hunder, Hover.
  split; [exact Hunder|].
  intros Hge. destruct (Hover Hge) as [_ Hsome]. apply Hsome.
  assert (Hlimit : 2 <= limit).
  { unfold limit. destruct (limits !! m) as [v|] eqn:E; cbn; [|lia].
    by apply limits_positive in E. }
  intros E. rewrite E in Hge. simpl in Hge. lia.
Qed.

(** When both readings of the clock give the same instant [now],
    [get_recommended_wait_time] returns 0 when the requests of the
    trailing 60 seconds are fewer than the model's limit per minute;
    otherwise it returns [int(max(0, oldest + 60 - now) * 1000)],
    where [oldest] is the earliest recorded timestamp [t] with
    [now - 60 < t]; in both cases it returns an integer that is not
    negative. *)
Lemma wait_time_of_one_reading (m : string) (now : Q) (tr : RateLimitTracker) :
  let recorded := default [] (request_timestamps tr !! m) in
  let limit := default 15 (limits !! m) in
  let in_window t := In t recorded /\ (now - 60 < t)%Q in
  let over := limit <= Z.of_nat (length (newer_than (now - 60) recorded)) in
  let r := (get_recommended_wait_time m now now tr).1 in
  (~ over -> r = Returns 0) /\
  (over ->
   exists oldest,
     in_window oldest /\ (forall t, in_window t -> (oldest <= t)%Q) /\
     r = Returns (Py.int (Py.max0 (oldest + 60 - now) * 1000))) /\
  (exists w, r = Returns w /\ 0 <= w).
Proof.
  intros recorded limit in_window over r.
  destruct (wait_time_at_an_instant m now tr) as [Hunder Hover]. cbv zeta in *.
  fold recorded limit r in Hunder, Hover.
  assert (Hover' : over ->
     exists oldest,
       in_window oldest /\ (forall t, in_window t -> (oldest <= t)%Q) /\
       r = Returns (Py.int (Py.max0 (oldest + 60 - now) * 1000))).
  { intros Ho. destruct (Hover Ho) as (oldest & Hin & Hmin & Hr).
    exists oldest. unfold in_window. rewrite <- elem_of_newer_than.
    repeat split; [done| |done].
    intros t Ht. apply Hmin. by apply elem_of_newer_than. }
  repeat split.
  - intros Hno. apply Hunder. unfold over in Hno. lia.
  - exact Hover'.
  - destruct (Z_le_gt_dec limit (Z.of_nat (length (newer_than (now - 60) recorded))))
      as [Ho|Hu].
    + destruct (Hover' Ho) as (oldest & _ & _ & ->). eexists. split; [reflexivity|].
      apply int_nonneg. pose proof (max0_nonneg (oldest + 60 - now)). nra.
    + exists 0. split; [apply Hunder; lia | lia].
Qed.

End RateLimitFacts.

Section RetryFacts.
Import Types Client Spec.

Variable generate_content :
  list Event -> option string -> string -> string -> ApiError + RawResponse.

(** One turn of the loop of [_generate_with_retry]. *)
Lemma retry_loop_turn (o : GemBackOptions) (key : option string) (m p : string)
      (retries : Z) (h : list Event) :
  retry_loop generate_content o key m p retries h
  = match generate_content h key m p with
    | inr response => (inr response, h ++ [Invoke key m p])
    | inl e =>
        if decide (status_of e = Some 429) then (inl e, h ++ [Invoke key m p])
        else if decide (is_retryable e = true /\ retries < max_retries o)
             then match backoff o (retries + 1) with
                  | inr seconds =>
                      retry_loop generate_content o key m p (retries + 1)
                                 (h ++ [Invoke key m p] ++ [Sleep seconds])
                  | inl overflow => (inl overflow, h ++ [Invoke key m p])
                  end
             else (inl e, h ++ [Invoke key m p])
    end.
Proof.
  rewrite retry_loop_unfold_eq. unfold retry_loop_unfold.
  destruct (generate_content h key m p) as [e|response]; [|reflexivity]. simpl.
  destruct (decide (status_of e = Some 429)); [reflexivity|]. simpl.
  destruct (decide (is_retryable e = true /\ retries < max_retries o)); [|reflexivity].
  simpl. destruct (backoff o (retries + 1)); reflexivity.
Qed.

(** The int [2 ** (retries - 1)] converts to a float up to the
    counter 1024, and no further. *)
Lemma backoff_converts (o : GemBackOptions) (retries : Z) :
  retries <= 1024 -> backoff o retries = inr (delay o retries).
Proof.
  intros Hr. unfold backoff, Py.int_overflows, Py.float_bound.
  replace (_ <=? _) with false; [done|]. symmetry. apply Z.leb_gt.
  destruct (decide (0 <= retries - 1)) as [Hpos|Hneg].
  - rewrite Z.abs_eq by (apply Z.pow_nonneg; lia).
    assert (2 ^ (retries - 1) <= 2 ^ 1023) by (apply Z.pow_le_mono_r; lia).
    assert (2 ^ 1023 < 2 ^ 1024 - 2 ^ 970) by (vm_compute; reflexivity).
    lia.
  - rewrite Z.pow_neg_r by lia. vm_compute. reflexivity.
Qed.

Lemma backoff_overflows (o : GemBackOptions) (retries : Z) :
  1024 < retries -> backoff o retries = inl overflow_error.
Proof.
  intros Hr. unfold backoff, Py.int_overflows, Py.float_bound.
  replace (_ <=? _) with true; [done|]. symmetry. apply Z.leb_le.
  rewrite Z.abs_eq by (apply Z.pow_nonneg; lia).
  assert (2 ^ 1024 <= 2 ^ (retries - 1)) by (apply Z.pow_le_mono_r; lia).
  assert (0 < 2 ^ 970) by (apply Z.pow_pos_nonneg; lia).
  lia.
Qed.

Lemma transient_is_retryable (e : ApiError) : transient e <-> is_retryable e = true.
Proof.
  unfold transient, is_retryable. rewrite !orb_true_iff. split.
  - intros [(c & -> & Hc)|[H|H]]; auto.
    left. left. apply andb_true_iff. split; [|by apply Z.leb_le].
    apply negb_true_iff, Z.eqb_neq. lia.
  - intros [[H|H]|H]; auto.
    left. destruct (status_of e) as [c|]; [|done].
    apply andb_true_iff in H as [_ H]. apply Z.leb_le in H. eauto.
Qed.

Lemma retry_events_not_nil o key m p r j : retry_events o key m p r j <> [].
Proof. by destruct j. Qed.

Lemma invocations_retry_events o key m p r j :
  invocations (retry_events o key m p r j) = S j.
Proof.
  revert r. induction j as [|j IH]; intros r; [done|].
  unfold invocations in *. simpl. by rewrite IH.
Qed.

Lemma delays_retry_events o key m p r j (k : nat) :
  (k < j)%nat ->
  delays (retry_events o key m p r j) !! k = Some (delay o (r + 1 + Z.of_nat k)).
Proof.
  revert r k. induction j as [|j IH]; intros r k Hk; [lia|].
  unfold delays in *. simpl. destruct k as [|k]; simpl.
  - by rewrite Z.add_0_r.
  - rewrite IH by lia. do 2 f_equal. lia.
Qed.

Lemma length_delays_retry_events o key m p r j :
  length (delays (retry_events o key m p r j)) = j.
Proof.
  revert r. induction j as [|j IH]; intros r; [done|].
  unfold delays in *. simpl. by rewrite IH.
Qed.

Lemma to_float_in_range (x : Q) : in_float_range x -> Py.to_float x = Py.Fin x.
Proof.
  intros [Hlo Hhi]. unfold Py.to_float.
  destruct (Qle_bool (inject_Z Py.float_bound) x) eqn:E1.
  { apply Qle_bool_iff in E1. lra. }
  destruct (Qle_bool x (inject_Z (- Py.float_bound))) eqn:E2; [|done].
  apply Qle_bool_iff in E2. lra.
Qed.

(** A delay of the schedule is finite when a later one is. *)
Lemma delay_in_range (o : GemBackOptions) (r n : Z) :
  1 <= r <= n ->
  in_float_range (retry_delay o * inject_Z (2 ^ (n - 1))) ->
  delay o r = Py.Fin (retry_delay o * inject_Z (2 ^ (r - 1))).
Proof.
  intros Hr [Hlo Hhi]. apply to_float_in_range.
  assert (Hle : 2 ^ (r - 1) <= 2 ^ (n - 1)) by (apply Z.pow_le_mono_r; lia).
  assert (Hpos : 0 < 2 ^ (r - 1)) by (apply Z.pow_pos_nonneg; lia).
  assert (Hb : (0 < inject_Z Py.float_bound)%Q).
  { rewrite <- (Zlt_Qlt 0). unfold Py.float_bound. apply Z.pow_pos_nonneg; lia. }
  rewrite inject_Z_opp in Hlo. unfold in_float_range. rewrite inject_Z_opp.
  rewrite Zle_Qle in Hle. rewrite (Zlt_Qlt 0) in Hpos.
  change (inject_Z 0) with 0%Q in Hpos.
  set (a := inject_Z (2 ^ (r - 1))) in *. set (b := inject_Z (2 ^ (n - 1))) in *.
  set (d := retry_delay o) in *. set (B := inject_Z Py.float_bound) in *.
  destruct (Qlt_le_dec d 0) as [Hd|Hd].
  - assert (d * a <= 0)%Q by nra. assert (d * b <= d * a)%Q by nra. split; lra.
  - assert (0 <= d * a)%Q by nra. assert (d * a <= d * b)%Q by nra. split; lra.
Qed.

(** A model that answers every call with a transient error: the loop
    entered at [retries] gives up after some [j] retries, within the
    budget, and raises the error of its last call. *)
Lemma retry_loop_transient (o : GemBackOptions) (key : option string) (m p : string) :
  max_retries o <= 1024 ->
  (forall h, exists e, generate_content h key m p = inl e /\ transient e) ->
  forall (fuel : nat) (retries : Z) (h : list Event),
    Z.to_nat (max_retries o - retries) = fuel ->
    retries <= max_retries o ->
    exists (j : nat) (e : ApiError),
      retries + Z.of_nat j <= max_retries o /\
      retry_loop generate_content o key m p retries h
      = (inl e, h ++ retry_events o key m p retries j) /\
      generate_content (h ++ removelast (retry_events o key m p retries j)) key m p
      = inl e /\
      ((forall h' e', generate_content h' key m p = inl e' -> status_of e' <> Some 429) ->
       retries + Z.of_nat j = max_retries o).
Proof.
  intros Hmax Hfail fuel. induction fuel as [|fuel IH]; intros retries h Hfuel Hle.
  - destruct (Hfail h) as (e & He & Htr).
    exists O, e. rewrite retry_loop_turn, He. simpl. rewrite app_nil_r.
    repeat split; try done; try lia.
    repeat case_decide; try done. lia.
  - destruct (Hfail h) as (e & He & Htr).
    rewrite retry_loop_turn, He.
    destruct (decide (status_of e = Some 429)) as [H429|H429].
    { exists O, e. simpl. rewrite app_nil_r. repeat split; try done; try lia.
      intros Hno. by apply Hno in He. }
    rewrite decide_True by (split; [by apply transient_is_retryable | lia]).
    rewrite backoff_converts by lia.
    destruct (IH (retries + 1)
                 (h ++ [Invoke key m p] ++ [Sleep (delay o (retries + 1))])
                 ltac:(lia) ltac:(lia)) as (j & e' & Hj & Heq & Hlast & Hexact).
    exists (S j), e'. rewrite Heq. simpl.
    repeat split.
    + lia.
    + by rewrite <- !app_assoc.
    + destruct (retry_events o key m p (retries + 1) j) eqn:Ev.
      { by apply retry_events_not_nil in Ev. }
      rewrite <- Hlast. by rewrite <- !app_assoc.
    + intros Hno. specialize (Hexact Hno). lia.
Qed.

Lemma prefix_lower (n h : string) :
  String.prefix n h = true -> String.prefix (Py.lower n) (Py.lower h) = true.
Proof.
  revert n. induction h as [|b h IH]; intros [|a n]; simpl; try done.
  destruct (ascii_dec a b) as [->|]; [|done]. intros H.
  destruct (ascii_dec (Py.lower_ascii b) (Py.lower_ascii b)); [by apply IH | done].
Qed.

Lemma contains_lower (n h : string) :
  Py.contains n h = true -> Py.contains (Py.lower n) (Py.lower h) = true.
Proof.
  induction h as [|b h IH]; cbn [Py.contains Py.lower].
  - destruct (String.prefix n "") eqn:E; [|done]. intros _.
    apply prefix_lower in E. cbn [Py.lower] in E. by rewrite E.
  - destruct (String.prefix n (String b h)) eqn:E.
    + intros _. apply prefix_lower in E. cbn [Py.lower] in E. by rewrite E.
    + intros H. apply IH in H. rewrite H.
      by destruct (String.prefix (Py.lower n) (String (Py.lower_ascii b) (Py.lower h))).
Qed.

(** A message that contains "timeout" or "connection" as written is
    a transient error. *)
Lemma mention_is_transient (e : ApiError) :
  Py.contains "timeout" (message e) = true \/ Py.contains "connection" (message e) = true ->
  transient e.
Proof.
  intros [H|H]; apply contains_lower in H; unfold transient; auto.
Qed.

End RetryFacts.

Section GenerateFacts.
Import Types Client Spec.

Variable clock : list Event -> Q.
Variable generate_content :
  list Event -> option string -> string -> string -> ApiError + RawResponse.

Lemma is_auth_iff (e : ApiError) : is_auth (status_of e) = true <-> auth_error e.
Proof.
  unfold is_auth, auth_error. destruct (status_of e) as [c|].
  - rewrite orb_true_iff, !Z.eqb_eq.
    split; [intros [->| ->]; auto | intros [[= ->]|[= ->]]; auto].
  - split; [done | intros [H|H]; done].
Qed.

(** The prediction step only replaces the tracker: at one instant
    [get_recommended_wait_time] does not raise. *)
Lemma predict_returns (m : string) (st : State) :
  exists t, predict clock m st = (Returns tt, set_tracker t st).
Proof.
  unfold predict. destruct (rate_limit_tracker (self st)) as [tr|] eqn:Etr.
  - destruct (RateLimit.would_exceed_limit m (now clock st) tr) as [exceed tr1].
    destruct exceed; [|eauto].
    destruct (wait_time_at_an_instant m (now clock st) tr1) as [Hunder Hover].
    cbv zeta in *.
    destruct (RateLimit.get_recommended_wait_time m (now clock st) (now clock st) tr1)
      as [wait tr2].
    cbn [fst] in *.
    destruct (Z_le_gt_dec
                (default 15 (RateLimit.limits !! m))
                (Z.of_nat (length (RateLimit.newer_than
                                     (now clock st - 60)
                                     (default [] (RateLimit.request_timestamps tr1 !! m))))))
      as [Ho|Hu].
    + destruct (Hover Ho) as (oldest & _ & _ & ->). eauto.
    + rewrite Hunder by lia. eauto.
  - exists None. destruct st as [[o r k t hm] h]. simpl in *. by subst.
Qed.

Lemma track_is_set_tracker (m : string) (st : State) :
  exists t, track clock m st = set_tracker t st.
Proof.
  unfold track. destruct (rate_limit_tracker (self st)) as [tr|] eqn:Etr; [eauto|].
  exists None. destruct st as [[o r k t hm] h]. simpl in *. by subst.
Qed.

Lemma monitor_is_set_monitor (m : string) (d : Q) (ok : bool) (st : State) :
  exists hm, monitor m d ok st = set_monitor hm st.
Proof.
  unfold monitor. destruct (health_monitor (self st)) as [hm|] eqn:Ehm; [eauto|].
  exists None. destruct st as [[o r k t hm] h]. simpl in *. by subst.
Qed.

(** The body of the loop of [generate] for a model whose retry loop
    raises [e]: the attempt is appended, and the call either aborts
    on an authentication status or goes on with the other models. In
    both cases nothing more is awaited for this model and the rotator
    is not touched before the abort. *)
Lemma generate_loop_failure (key : option string) (key_index : option Z) (p m : string)
      (rest : list string) (attempts : list AttemptRecord) (st : State)
      (e : ApiError) (h' : list Event) :
  _generate_with_retry generate_content (options (self st)) key m p (history st)
  = (inl e, h') ->
  exists st',
    history st' = h' /\
    options (self st') = options (self st) /\
    rotator (self st') = rotator (self st) /\
    generate_loop clock generate_content key key_index p (m :: rest) attempts st
    = let attempts' :=
        attempts ++ [{| ar_model := m; ar_error := message e;
                        ar_timestamp := clock h'; ar_status_code := status_of e |}] in
      if is_auth (status_of e)
      then (Raises (GeminiBackError "Authentication failed" "AUTH_ERROR" attempts'
                                    (status_of e) (Some m)),
            rotator_record Rotators.record_failure key_index st')
      else generate_loop clock generate_content key key_index p rest attempts' st'.
Proof.
  intros Hretry. cbn [generate_loop].
  destruct (predict_returns m st) as [t ->].
  destruct (track_is_set_tracker m (set_tracker t st)) as [t' ->].
  cbn [set_tracker self options history]. rewrite Hretry.
  match goal with
  | |- context [monitor m ?d false ?s] =>
      destruct (monitor_is_set_monitor m d false s) as [hm ->]
  end.
  eexists. split; [|split; [|split; [|reflexivity]]]; reflexivity.
Qed.

(** C3. With a retry budget [0 <= n <= 1024] and a base delay [d]
    for which [d * 2 ^ (n - 1)] is within the range of the finite
    floats, a model whose every call fails with a transient error is
    called [j + 1] times for some [j <= n], a sleep between two calls,
    and then the error of the last call is raised again; the [k]-th
    sleep, counted from 1, lasts [d * 2 ^ (k - 1)]. When no call fails
    with status 429 the budget is used up: [j = n]. The error raised
    makes the loop of [generate] go on with the next model, unless its
    status is 401 or 403: then the call aborts with [AUTH_ERROR]. *)
Theorem transient_errors_respect_the_retry_budget
        (o : GemBackOptions) (key : option string) (m p : string) (h : list Event) :
  0 <= max_retries o <= 1024 ->
  in_float_range (retry_delay o * inject_Z (2 ^ (max_retries o - 1))) ->
  (forall h', exists e, generate_content h' key m p = inl e /\ transient e) ->
  exists (events : list Event) (e : ApiError),
    _generate_with_retry generate_content o key m p h = (inl e, h ++ events) /\
    generate_content (h ++ removelast events) key m p = inl e /\
    Z.of_nat (invocations events) <= max_retries o + 1 /\
    invocations events = S (length (delays events)) /\
    (forall k : nat,
        (1 <= k <= length (delays events))%nat ->
        delays events !! (k - 1)%nat
        = Some (Py.Fin (retry_delay o * inject_Z (2 ^ (Z.of_nat k - 1))))) /\
    ((forall h' e', generate_content h' key m p = inl e' -> status_of e' <> Some 429) ->
     Z.of_nat (invocations events) = max_retries o + 1) /\
    (forall (key_index : option Z) (rest : list string) (attempts : list AttemptRecord)
            (st : State),
        options (self st) = o -> history st = h ->
        exists st',
          history st' = h ++ events /\
          generate_loop clock generate_content key key_index p (m :: rest) attempts st
          = let attempts' :=
              attempts ++ [{| ar_model := m; ar_error := message e;
                              ar_timestamp := clock (h ++ events);
                              ar_status_code := status_of e |}] in
            if is_auth (status_of e)
            then (Raises (GeminiBackError "Authentication failed" "AUTH_ERROR" attempts'
                                          (status_of e) (Some m)),
                  rotator_record Rotators.record_failure key_index st')
            else generate_loop clock generate_content key key_index p rest attempts' st').
Proof.
  intros Hn Hrange Hfail.
  destruct (retry_loop_transient generate_content o key m p ltac:(lia) Hfail _ 0 h
                                 eq_refl ltac:(lia))
    as (j & e & Hj & Heq & Hlast & Hexact).
  exists (retry_events o key m p 0 j), e.
  rewrite invocations_retry_events, length_delays_retry_events.
  split; [exact Heq|]. split; [exact Hlast|]. split; [lia|]. split; [done|].
  split; [|split].
  - intros k Hk. rewrite delays_retry_events by lia.
    rewrite (delay_in_range o _ (max_retries o)) by (done || lia).
    do 5 f_equal. lia.
  - intros Hno. specialize (Hexact Hno). lia.
  - intros key_index rest attempts st Ho Hh.
    assert (Hretry : _generate_with_retry generate_content (options (self st)) key m p
                                          (history st)
                     = (inl e, h ++ retry_events o key m p 0 j))
      by (rewrite Ho, Hh; exact Heq).
    destruct (generate_loop_failure key key_index p m rest attempts st e _ Hretry)
      as (st' & Hh' & _ & _ & Hloop).
    exists st'. split; [done|]. exact Hloop.
Qed.

(** C2. In the retry loop a call that fails with status 429 is not
    retried, whatever the retry counter and the budget: the error is
    raised again after this one call and no sleep. When the retry loop
    of a model raises such an error, the loop of [generate] appends
    the attempt, awaits nothing more for the model and goes on with the
    next models. *)
Theorem quota_error_is_not_retried_and_falls_back :
  (forall (o : GemBackOptions) (key : option string) (m p : string)
          (retries : Z) (h : list Event) (e : ApiError),
      generate_content h key m p = inl e ->
      status_of e = Some 429 ->
      retry_loop generate_content o key m p retries h = (inl e, h ++ [Invoke key m p])) /\
  (forall (key : option string) (key_index : option Z) (p m : string)
          (rest : list string) (attempts : list AttemptRecord) (st : State)
          (e : ApiError) (h' : list Event),
      _generate_with_retry generate_content (options (self st)) key m p (history st)
      = (inl e, h') ->
      status_of e = Some 429 ->
      exists st',
        history st' = h' /\
        rotator (self st') = rotator (self st) /\
        generate_loop clock generate_content key key_index p (m :: rest) attempts st
        = generate_loop clock generate_content key key_index p rest
            (attempts ++ [{| ar_model := m; ar_error := message e;
                             ar_timestamp := clock h'; ar_status_code := Some 429 |}])
            st').
Proof.
  split.
  - intros o key m p retries h e He H429.
    rewrite retry_loop_turn, He. by rewrite decide_True.
  - intros key key_index p m rest attempts st e h' Hretry H429.
    destruct (generate_loop_failure key key_index p m rest attempts st e h' Hretry)
      as (st' & Hh & _ & Hr & Heq).
    exists st'. rewrite Heq, H429. simpl. done.
Qed.

Lemma record_failure_recorded (r : Rotators.ApiKeyRotator) (i : Z) :
  is_Some (Rotators.stats r !! i) ->
  failure_recorded r (Rotators.record_failure i r).
Proof.
  intros [s Hs]. exists i, s. split; [done|].
  unfold Rotators.record_failure. by rewrite Hs.
Qed.

(** The credential that [get_next_key] returns is a row of the table. *)
Lemma get_next_key_index (t : Q) (r r' : Rotators.ApiKeyRotator)
      (key_info : Rotators.KeyInfo) :
  Rotators.get_next_key t r = (Returns key_info, r') ->
  exists i, Rotators.index key_info = Some i /\ is_Some (Rotators.stats r' !! i).
Proof.
  unfold Rotators.get_next_key. intros H.
  destruct (Rotators.api_keys r) as [|k0 ks]; [done|].
  destruct (Rotators.choose r) as [[i|ex] r1]; [|done].
  destruct (Rotators.stats r1 !! i) as [row|]; [|done].
  destruct (Py.getitem _ i) as [k|]; [|done].
  injection H as <- <-. exists i. split; [done|].
  simpl. rewrite lookup_insert_eq. eauto.
Qed.

(** C1. An authentication error (status 401 or 403) whose message
    mentions neither a timeout nor a connection is not retried: the
    retry loop raises it again after this one call. When the retry
    loop of a model raises an authentication error, [generate] raises
    [GeminiBackError] with the code [AUTH_ERROR], the attempts made so
    far followed by this one, the status and the model; nothing is
    awaited afterwards, so no other model is tried; and a client that
    holds a rotator records one failure to it for the credential of
    the call, while a client without a rotator records nothing. *)
Theorem auth_error_aborts_the_call :
  (forall (o : GemBackOptions) (key : option string) (m p : string)
          (retries : Z) (h : list Event) (e : ApiError),
      generate_content h key m p = inl e ->
      auth_error e ->
      Py.contains "timeout" (Py.lower (message e)) = false ->
      Py.contains "connection" (Py.lower (message e)) = false ->
      retry_loop generate_content o key m p retries h = (inl e, h ++ [Invoke key m p])) /\
  (forall (key : option string) (key_index : option Z) (p m : string)
          (rest : list string) (attempts : list AttemptRecord) (st : State)
          (e : ApiError) (h' : list Event),
      _generate_with_retry generate_content (options (self st)) key m p (history st)
      = (inl e, h') ->
      auth_error e ->
      exists st',
        generate_loop clock generate_content key key_index p (m :: rest) attempts st
        = (Raises (GeminiBackError "Authentication failed" "AUTH_ERROR"
                     (attempts ++ [{| ar_model := m; ar_error := message e;
                                      ar_timestamp := clock h';
                                      ar_status_code := status_of e |}])
                     (status_of e) (Some m)),
           st') /\
        history st' = h' /\
        (forall r i,
            rotator (self st) = Some r -> key_index = Some i ->
            rotator (self st') = Some (Rotators.record_failure i r) /\
            (is_Some (Rotators.stats r !! i) ->
             failure_recorded r (Rotators.record_failure i r))) /\
        (rotator (self st) = None -> rotator (self st') = None)).
Proof.
  split.
  - intros o key m p retries h e He Hauth Htimeout Hconn.
    rewrite retry_loop_turn, He.
    assert (Hnot : is_retryable e = false).
    { unfold is_retryable. rewrite Htimeout, Hconn, !orb_false_r.
      destruct Hauth as [-> | ->]; reflexivity. }
    repeat case_decide; try done.
    destruct H0 as [H0 _]. congruence.
  - intros key key_index p m rest attempts st e h' Hretry Hauth.
    destruct (generate_loop_failure key key_index p m rest attempts st e h' Hretry)
      as (st' & Hh & _ & Hr & Heq).
    rewrite Heq. cbv zeta. apply is_auth_iff in Hauth. rewrite Hauth.
    eexists. split; [reflexivity|]. split.
    { unfold rotator_record. by destruct (rotator (self st')), key_index. }
    split.
    + intros r i Er ->. unfold rotator_record. rewrite Hr, Er. simpl.
      split; [done | apply record_failure_recorded].
    + intros Er. unfold rotator_record. rewrite Hr, Er. congruence.
Qed.

(** A list of models that all fail without an authentication error:
    one attempt each, in order, and the exit after the loop. *)
Lemma generate_loop_all_fail (key : option string) (key_index : option Z) (p : string)
      (o : GemBackOptions) (models : list string) :
  (forall h m, m ∈ models ->
               exists e h', _generate_with_retry generate_content o key m p h = (inl e, h')
                            /\ ~ auth_error e) ->
  forall (attempts : list AttemptRecord) (st : State),
    options (self st) = o ->
    exists (new : list AttemptRecord) (st' : State),
      generate_loop clock generate_content key key_index p models attempts st
      = (Raises (GeminiBackError "All models failed" "ALL_MODELS_FAILED"
                                 (attempts ++ new) None None),
         rotator_record Rotators.record_failure key_index st') /\
      ar_model <$> new = models /\
      rotator (self st') = rotator (self st).
Proof.
  induction models as [|m rest IH]; intros Hfail attempts st Ho.
  - exists [], st. rewrite app_nil_r. done.
  - destruct (Hfail (history st) m ltac:(left)) as (e & h' & Hretry & Hnauth).
    rewrite <- Ho in Hretry.
    destruct (generate_loop_failure key key_index p m rest attempts st e h' Hretry)
      as (st1 & Hh & Ho1 & Hr & Heq).
    rewrite Heq. cbv zeta.
    destruct (is_auth (status_of e)) eqn:Eauth.
    { by apply is_auth_iff in Eauth. }
    destruct (IH ltac:(intros h0 m0 Hm0; apply Hfail; by right)
                 (attempts ++ [{| ar_model := m; ar_error := message e;
                                  ar_timestamp := clock h';
                                  ar_status_code := status_of e |}])
                 st1 ltac:(congruence)) as (new & st' & Hloop & Hnew & Hr').
    rewrite Hloop. eexists (_ :: new), st'. rewrite <- app_assoc.
    split; [reflexivity|]. split; [|congruence].
    rewrite fmap_cons. cbn [ar_model]. by rewrite Hnew.
Qed.

(** C4. When every model of the list to try fails, each time its
    retry loop is run, with an error that is not an authentication
    error, [generate] raises [GeminiBackError] with the code
    [ALL_MODELS_FAILED] and one attempt for each model, in the order of
    the list. A client that holds a rotator records one failure to it,
    once, for the credential selected for the call; a client without a
    rotator records nothing. *)
Theorem all_models_failing_raises_all_models_failed
        (p : string) (model : option string) (st st1 : State)
        (key_info : Rotators.KeyInfo) :
  _get_api_key clock st = (Returns key_info, st1) ->
  (forall h m,
      m ∈ models_to_try model st ->
      exists e h',
        _generate_with_retry generate_content (options (self st))
                             (Rotators.key key_info) m p h = (inl e, h')
        /\ ~ auth_error e) ->
  exists (attempts : list AttemptRecord) (st' : State),
    generate clock generate_content p model st
    = (Raises (GeminiBackError "All models failed" "ALL_MODELS_FAILED" attempts None None),
       st') /\
    ar_model <$> attempts = models_to_try model st /\
    (forall r, rotator (self st1) = Some r ->
               exists i, Rotators.index key_info = Some i /\
                         rotator (self st') = Some (Rotators.record_failure i r) /\
                         failure_recorded r (Rotators.record_failure i r)) /\
    (rotator (self st) = None -> rotator (self st') = None).
Proof.
  intros Hkey Hfail. unfold generate. rewrite Hkey.
  assert (Hopt : options (self st1) = options (self st)).
  { unfold _get_api_key in Hkey. destruct (rotator (self st)).
    - destruct (Rotators.get_next_key _ _). by injection Hkey as _ <-.
    - by injection Hkey as _ <-. }
  destruct (generate_loop_all_fail (Rotators.key key_info) (Rotators.index key_info) p
              (options (self st)) (models_to_try model st) Hfail [] st1 Hopt)
    as (new & st' & Hloop & Hnew & Hr).
  rewrite Hloop. simpl. eexists new, _. split; [reflexivity|]. split; [done|].
  unfold rotator_record. rewrite Hr. split.
  - intros r Er. rewrite Er.
    unfold _get_api_key in Hkey. destruct (rotator (self st)) as [r0|] eqn:Er0.
    + destruct (Rotators.get_next_key (now clock st) r0) as [res r1] eqn:Enext.
      injection Hkey as -> <-. simpl in Er. injection Er as <-.
      destruct (get_next_key_index _ _ _ _ Enext) as (i & Hi & Hs).
      exists i. rewrite Hi. simpl. repeat split; try done.
      by apply record_failure_recorded.
    + injection Hkey as _ <-. congruence.
  - intros Er0. unfold _get_api_key in Hkey. rewrite Er0 in Hkey.
    injection Hkey as _ <-. rewrite Er0. congruence.
Qed.

End GenerateFacts.

Section StreamFacts.
Import Types Client Spec.

Variable clock : list Event -> Q.
Variable generate_content_stream :
  list Event -> option string -> string -> string -> Stream.

(** One turn of the loop of [generate_stream] on a stream that ends
    empty: only the rate limit tracker and the history change. *)
Lemma stream_loop_empty_turn (key : option string) (p m : string) (rest : list string)
      (attempts : list AttemptRecord) (yielded : list string) (st : State) :
  ends_empty (generate_content_stream (history st) key m p) ->
  exists st',
    stream_loop clock generate_content_stream key p (m :: rest) attempts yielded st
    = stream_loop clock generate_content_stream key p rest attempts yielded st' /\
    health_monitor (self st') = health_monitor (self st) /\
    rotator (self st') = rotator (self st) /\
    history st' = history st ++ [InvokeStream key m p].
Proof.
  intros [Hchunks Hfailure]. cbn [stream_loop].
  destruct (track_is_set_tracker clock m st) as [t ->].
  cbn [set_tracker history]. rewrite Hchunks, Hfailure, app_nil_r.
  eexists. split; [reflexivity|]. done.
Qed.

Lemma stream_loop_all_empty (key : option string) (p : string) (models : list string) :
  (forall h m, m ∈ models -> ends_empty (generate_content_stream h key m p)) ->
  forall (attempts : list AttemptRecord) (yielded : list string) (st : State),
  exists st',
    stream_loop clock generate_content_stream key p models attempts yielded st
    = (Raises (GeminiBackError "All models failed for stream" "ALL_MODELS_FAILED"
                               attempts None None), yielded, st') /\
    health_monitor (self st') = health_monitor (self st) /\
    history st' = history st ++ stream_events key p models.
Proof.
  induction models as [|m rest IH]; intros Hempty attempts yielded st.
  - exists st. simpl. by rewrite app_nil_r.
  - destruct (stream_loop_empty_turn key p m rest attempts yielded st
                (Hempty _ m ltac:(left))) as (st1 & Heq & Hhm & _ & Hh).
    destruct (IH ltac:(intros h0 m0 Hm0; apply Hempty; by right) attempts yielded st1)
      as (st' & Hloop & Hhm' & Hh').
    exists st'. rewrite Heq, Hloop. repeat split; [congruence|].
    rewrite Hh', Hh. unfold stream_events. rewrite fmap_cons.
    by rewrite <- app_assoc.
Qed.

(** C10. In [generate_stream] a model whose stream ends normally
    after no fragment makes the loop go on with the next model, with
    no attempt appended and the health monitor as it was. When every
    model of the list to try does so, every model is tried, in order,
    nothing is yielded, and the call raises [GeminiBackError] with the
    code [ALL_MODELS_FAILED] and an empty list of attempts, which is
    shorter than the list of the models tried as soon as this one is
    not empty; the health monitor is as it was. *)
Theorem empty_stream_is_a_silent_failure :
  (forall (key : option string) (p m : string) (rest : list string)
          (attempts : list AttemptRecord) (yielded : list string) (st : State),
      ends_empty (generate_content_stream (history st) key m p) ->
      exists st',
        stream_loop clock generate_content_stream key p (m :: rest) attempts yielded st
        = stream_loop clock generate_content_stream key p rest attempts yielded st' /\
        health_monitor (self st') = health_monitor (self st) /\
        history st' = history st ++ [InvokeStream key m p]) /\
  (forall (p : string) (model : option string) (st st1 : State)
          (key_info : Rotators.KeyInfo),
      _get_api_key clock st = (Returns key_info, st1) ->
      (forall h m, m ∈ models_to_try model st ->
                   ends_empty (generate_content_stream h (Rotators.key key_info) m p)) ->
      exists (attempts : list AttemptRecord) (st' : State),
        generate_stream clock generate_content_stream p model st
        = (Raises (GeminiBackError "All models failed for stream" "ALL_MODELS_FAILED"
                                   attempts None None), [], st') /\
        attempts = [] /\
        health_monitor (self st') = health_monitor (self st) /\
        history st'
        = history st ++ stream_events (Rotators.key key_info) p (models_to_try model st) /\
        (models_to_try model st <> [] ->
         (length attempts < length (models_to_try model st))%nat)).
Proof.
  split.
  - intros key p m rest attempts yielded st Hempty.
    destruct (stream_loop_empty_turn key p m rest attempts yielded st Hempty)
      as (st' & Heq & Hhm & _ & Hh).
    eauto.
  - intros p model st st1 key_info Hkey Hempty. unfold generate_stream. rewrite Hkey.
    destruct (stream_loop_all_empty (Rotators.key key_info) p (models_to_try model st)
                Hempty [] [] st1) as (st' & Hloop & Hhm & Hh).
    assert (Hst1 : health_monitor (self st1) = health_monitor (self st)
                   /\ history st1 = history st).
    { unfold _get_api_key in Hkey. destruct (rotator (self st)).
      - destruct (Rotators.get_next_key _ _). by injection Hkey as _ <-.
      - by injection Hkey as _ <-. }
    destruct Hst1 as [Hhm1 Hh1].
    exists [], st'. rewrite Hloop. repeat split; try congruence.
    intros Hne. destruct (models_to_try model st); [done | simpl; lia].
Qed.

End StreamFacts.

(** * Runs of the model

  The scenarios of the test suite and of the specification, and the
  instances of the theorems above. *)

Section Runs.
Import Types Client Spec Scenario.

(** [test_basic_generation] *)
Example basic_generation :
  (generate clock (fun _ _ _ _ => answer "Mocked response") "Hello" None
            (boot (options_with (Some "test-key") None
                                (fallback_order default_options) false))).1
  = Returns {| text := "Mocked response"; model := "gemini-2.5-flash";
               raw_response := {| text_of := "Mocked response" |} |}.
Proof. reflexivity. Qed.

(** [test_fallback_logic]: the first model answers 429, the second
    one answers; two calls are made. *)
Example fallback_logic :
  let run := generate clock (one_model_fails "model-a" (error 429 "Rate limit"))
                      "Hello" None (boot single_key) in
  run.1 = Returns {| text := "ok"; model := "model-b";
                     raw_response := {| text_of := "ok" |} |} /\
  history run.2 = [Invoke (Some "test-key") "model-a" "Hello";
                   Invoke (Some "test-key") "model-b" "Hello"].
Proof. vm_compute. done. Qed.

(** [test_retry_logic]: a 500 on the first call, then an answer. *)
Example retry_logic :
  let run := generate clock (first_call_fails (error 500 "Server error"))
                      "Hello" None (boot single_key) in
  run.1 = Returns {| text := "ok"; model := "model-a";
                     raw_response := {| text_of := "ok" |} |} /\
  invocations (history run.2) = 2%nat /\
  delays (history run.2) = [Py.Fin 1].
Proof. vm_compute. done. Qed.

(** A model that always answers 500, with the budget 2 and the base
    delay 1: three calls, and the sleeps 1 and 2 between them. *)
Example retry_budget_used_up :
  _generate_with_retry (always_fails (error 500 "Server error")) single_key
                       (Some "test-key") "model-a" "Hello" []
  = (inl (error 500 "Server error"),
     [Invoke (Some "test-key") "model-a" "Hello"; Sleep (Py.Fin 1);
      Invoke (Some "test-key") "model-a" "Hello"; Sleep (Py.Fin 2);
      Invoke (Some "test-key") "model-a" "Hello"]).
Proof. vm_compute. done. Qed.

(** The rate limit of [gemini-1.5-pro] is 2 per minute: with the
    requests at 0.5 s, 10 s and 59 s and the clock at 60 s, the wait is
    the 500 ms after which the first one leaves the window. *)
Example wait_time_over_limit :
  (RateLimit.get_recommended_wait_time
     "gemini-1.5-pro" 60 60
     {| RateLimit.request_timestamps := {[ "gemini-1.5-pro" := [1 # 2; 10; 59]%Q ]} |}).1
  = Returns 500.
Proof. vm_compute. done. Qed.

(** The function reads the clock twice. When the second reading is
    late enough for the window to be empty, [valid_timestamps[0]]
    raises. *)
Example wait_time_clock_moves :
  (RateLimit.get_recommended_wait_time
     "gemini-1.5-pro" 60 62
     {| RateLimit.request_timestamps := {[ "gemini-1.5-pro" := [1; 1]%Q ]} |}).1
  = Raises IndexError.
Proof. vm_compute. done. Qed.

(** 97 successes and then 3 failures: the success rate is 0.97 and
    the status is ["unhealthy"]. *)
Example three_failures_after_many_successes :
  let log := replicate 97 ("m", 100%Q, true) ++ replicate 3 ("m", 100%Q, false) in
  Health.status (Health.get_health "m" (Health.replay log)) = "unhealthy" /\
  (Health.success_rate (Health.get_health "m" (Health.replay log)) == 97 # 100)%Q.
Proof. vm_compute. done. Qed.

Lemma transient_errors_respect_the_retry_budget_witness :
  let gc := always_fails (error 500 "Server error") in
  exists events e,
    _generate_with_retry gc single_key (Some "test-key") "model-a" "Hello" []
    = (inl e, [] ++ events) /\
    Z.of_nat (invocations events) = max_retries single_key + 1 /\
    delays events !! 1%nat
    = Some (Py.Fin (retry_delay single_key * inject_Z (2 ^ (2 - 1)))) /\
    exists st',
      history st' = [] ++ events /\
      generate_loop clock gc (Some "test-key") None "Hello" ("model-a" :: ["model-b"]) []
                    (boot single_key)
      = generate_loop clock gc (Some "test-key") None "Hello" ["model-b"]
          ([] ++ [{| ar_model := "model-a"; ar_error := message e;
                     ar_timestamp := clock ([] ++ events);
                     ar_status_code := status_of e |}])
          st'.
Proof.
  intros gc.
  destruct (transient_errors_respect_the_retry_budget
              clock gc single_key (Some "test-key") "model-a" "Hello" [])
    as (events & e & Heq & Hlast & _ & Hlen & Hdelay & Hexact & Hnext).
  - simpl. lia.
  - split; reflexivity.
  - intros h'. exists (error 500 "Server error"). split; [reflexivity|].
    left. exists 500. split; [reflexivity | lia].
  - assert (Hn : Z.of_nat (invocations events) = max_retries single_key + 1).
    { apply Hexact. intros h' e' [= <-]. discriminate. }
    exists events, e. split; [exact Heq|]. split; [exact Hn|].
    split; [apply (Hdelay 2%nat); simpl in Hn; lia|].
    destruct (Hnext None ["model-b"] [] (boot single_key) eq_refl eq_refl)
      as (st' & Hh & Hloop).
    exists st'. split; [exact Hh|]. rewrite Hloop.
    injection Hlast as <-. reflexivity.
Defined.

(** C3, as stated, fails twice. An error that is transient by its
    message and carries the status 401 is retried through the budget,
    and then the error raised again does not trigger the fallback:
    [generate] aborts with [AUTH_ERROR] and the second model is never
    called. And with the budget 1025 a model that keeps answering 500
    is called 1025 times, not 1026, and what leaves the retry loop is
    not the last error but the [OverflowError] of the delay
    [retry_delay * 2 ** 1024]. *)
Lemma transient_errors_counterexample :
  (let e := error 401 "Connection refused" in
   let run := generate clock (always_fails e) "Hello" None (boot single_key) in
   transient e /\
   history run.2
   = [Invoke (Some "test-key") "model-a" "Hello"; Sleep (Py.Fin 1);
      Invoke (Some "test-key") "model-a" "Hello"; Sleep (Py.Fin 2);
      Invoke (Some "test-key") "model-a" "Hello"] /\
   run.1 = Raises (GeminiBackError "Authentication failed" "AUTH_ERROR"
                     [{| ar_model := "model-a"; ar_error := "Connection refused";
                         ar_timestamp := 5; ar_status_code := Some 401 |}]
                     (Some 401) (Some "model-a"))) /\
  (let e := error 500 "Server error" in
   let o := {| api_key := Some "test-key"; api_keys := None;
               fallback_order := ["model-a"; "model-b"];
               max_retries := 1025; retry_delay := 0%Q; timeout := 30%Q;
               debug := false; log_level := "INFO";
               api_key_rotation_strategy := "round-robin";
               enable_monitoring := false |} in
   let run := _generate_with_retry (always_fails e) o (Some "test-key") "model-a" "Hello" [] in
   transient e /\
   (forall k : Z, 1 <= k <= 1025 -> in_float_range (retry_delay o * inject_Z (2 ^ (k - 1)))) /\
   run.1 = inl overflow_error /\
   overflow_error <> e /\
   invocations run.2 = 1025%nat).
Proof.
  split.
  - split; [right; right; reflexivity|]. vm_compute. done.
  - split; [left; exists 500; split; [reflexivity | lia]|].
    split.
    { intros k Hk. cbn [retry_delay]. unfold in_float_range.
      rewrite Qmult_0_l. split; reflexivity. }
    split; [vm_compute; reflexivity|]. split; [discriminate|].
    vm_compute. reflexivity.
Qed.

Lemma quota_error_is_not_retried_and_falls_back_witness :
  let gc := one_model_fails "model-a" (error 429 "Rate limit") in
  retry_loop gc single_key (Some "test-key") "model-a" "Hello" 1 []
  = (inl (error 429 "Rate limit"), [] ++ [Invoke (Some "test-key") "model-a" "Hello"]) /\
  exists st',
    history st' = [Invoke (Some "test-key") "model-a" "Hello"] /\
    rotator (self st') = rotator (self (boot single_key)) /\
    generate_loop clock gc (Some "test-key") None "Hello" ("model-a" :: ["model-b"]) []
                  (boot single_key)
    = generate_loop clock gc (Some "test-key") None "Hello" ["model-b"]
        ([] ++ [{| ar_model := "model-a"; ar_error := "Rate limit";
                   ar_timestamp := clock [Invoke (Some "test-key") "model-a" "Hello"];
                   ar_status_code := Some 429 |}])
        st'.
Proof.
  intros gc.
  destruct (quota_error_is_not_retried_and_falls_back clock gc) as [Hretry Hloop].
  split.
  - apply Hretry; reflexivity.
  - apply (Hloop (Some "test-key") None "Hello" "model-a" ["model-b"] []
                 (boot single_key) (error 429 "Rate limit")
                 [Invoke (Some "test-key") "model-a" "Hello"]); reflexivity.
Defined.

(** C1, as stated, fails twice. A client built with one key holds no
    rotator: the call aborts with [AUTH_ERROR], and no rotator exists
    before or after it that a failure could be recorded to. And a 401
    whose message is "Connection refused" is retried: the second call
    answers and [generate] returns instead of aborting. *)
Lemma auth_error_counterexample :
  (let run := generate clock (always_fails (error 401 "Unauthorized")) "Hello" None
                       (boot single_key) in
   run.1 = Raises (GeminiBackError "Authentication failed" "AUTH_ERROR"
                     [{| ar_model := "model-a"; ar_error := "Unauthorized";
                         ar_timestamp := 1; ar_status_code := Some 401 |}]
                     (Some 401) (Some "model-a")) /\
   ~ (exists r r', rotator (self (boot single_key)) = Some r /\
                   rotator (self run.2) = Some r' /\ failure_recorded r r')) /\
  (let run := generate clock (first_call_fails (error 401 "Connection refused")) "Hello"
                       None (boot single_key) in
   first_call_fails (error 401 "Connection refused") [] (Some "test-key") "model-a" "Hello"
   = inl (error 401 "Connection refused") /\
   run.1 = Returns {| text := "ok"; model := "model-a";
                      raw_response := {| text_of := "ok" |} |} /\
   history run.2 = [Invoke (Some "test-key") "model-a" "Hello"; Sleep (Py.Fin 1);
                    Invoke (Some "test-key") "model-a" "Hello"]).
Proof.
  split.
  - split; [vm_compute; reflexivity|].
    intros (r & r' & Hr & _). vm_compute in Hr. discriminate.
  - vm_compute. done.
Qed.

Lemma auth_error_aborts_the_call_witness :
  let gc := always_fails (error 401 "Unauthorized") in
  let st := (_get_api_key clock (boot two_keys)).2 in
  retry_loop gc two_keys (Some "key-0") "model-a" "Hello" 0 []
  = (inl (error 401 "Unauthorized"), [] ++ [Invoke (Some "key-0") "model-a" "Hello"]) /\
  exists st',
    generate_loop clock gc (Some "key-0") (Some 0) "Hello" ("model-a" :: ["model-b"]) [] st
    = (Raises (GeminiBackError "Authentication failed" "AUTH_ERROR"
                 ([] ++ [{| ar_model := "model-a"; ar_error := "Unauthorized";
                            ar_timestamp := clock [Invoke (Some "key-0") "model-a" "Hello"];
                            ar_status_code := Some 401 |}])
                 (Some 401) (Some "model-a")), st') /\
    history st' = [Invoke (Some "key-0") "model-a" "Hello"] /\
    exists r, rotator (self st) = Some r /\
              rotator (self st') = Some (Rotators.record_failure 0 r) /\
              failure_recorded r (Rotators.record_failure 0 r).
Proof.
  intros gc st.
  destruct (auth_error_aborts_the_call clock gc) as [Hretry Hloop].
  split.
  - apply Hretry; try reflexivity. by left.
  - destruct (Hloop (Some "key-0") (Some 0) "Hello" "model-a" ["model-b"] [] st
                    (error 401 "Unauthorized")
                    [Invoke (Some "key-0") "model-a" "Hello"])
      as (st' & Heq & Hh & Hrot & _); [reflexivity | by left |].
    exists st'. split; [exact Heq|]. split; [exact Hh|].
    eexists. split; [reflexivity|].
    edestruct Hrot as [Hr Hrec]; [reflexivity | reflexivity |].
    split; [exact Hr|]. apply Hrec. eexists. reflexivity.
Defined.

(** C4, as stated, fails for a client built with one key: both
    models fail with 429, the call raises [ALL_MODELS_FAILED] with the
    two attempts, and no rotator exists before or after the call that
    a failure could be recorded to. *)
Lemma all_models_failed_counterexample :
  let run := generate clock (always_fails (error 429 "Fail")) "Hello" None
                      (boot single_key) in
  run.1 = Raises (GeminiBackError "All models failed" "ALL_MODELS_FAILED"
                    [{| ar_model := "model-a"; ar_error := "Fail";
                        ar_timestamp := 1; ar_status_code := Some 429 |};
                     {| ar_model := "model-b"; ar_error := "Fail";
                        ar_timestamp := 2; ar_status_code := Some 429 |}]
                    None None) /\
  ~ (exists r r', rotator (self (boot single_key)) = Some r /\
                  rotator (self run.2) = Some r' /\ failure_recorded r r').
Proof.
  split; [vm_compute; reflexivity|].
  intros (r & r' & Hr & _). vm_compute in Hr. discriminate.
Qed.

Lemma all_models_failing_raises_all_models_failed_witness :
  let gc := always_fails (error 429 "Fail") in
  let st := boot two_keys in
  exists attempts st',
    generate clock gc "Hello" None st
    = (Raises (GeminiBackError "All models failed" "ALL_MODELS_FAILED" attempts None None),
       st') /\
    ar_model <$> attempts = ["model-a"; "model-b"] /\
    exists r i,
      rotator (self (_get_api_key clock st).2) = Some r /\
      rotator (self st') = Some (Rotators.record_failure i r) /\
      failure_recorded r (Rotators.record_failure i r).
Proof.
  intros gc st.
  destruct (all_models_failing_raises_all_models_failed
              clock gc "Hello" None st (_get_api_key clock st).2
              {| Rotators.key := Some "key-0"; Rotators.index := Some 0 |})
    as (attempts & st' & Heq & Hmodels & Hrot & _).
  - reflexivity.
  - intros h m _. exists (error 429 "Fail"), (h ++ [Invoke (Some "key-0") m "Hello"]).
    split.
    + unfold _generate_with_retry. rewrite retry_loop_turn. reflexivity.
    + intros [H|H]; discriminate.
  - exists attempts, st'. split; [exact Heq|]. split; [exact Hmodels|].
    edestruct Hrot as (i & _ & Hr & Hrec); [reflexivity|].
    eexists _, i. split; [reflexivity|]. split; [exact Hr | exact Hrec].
Defined.

Lemma empty_stream_is_a_silent_failure_witness :
  let st := boot single_key in
  exists attempts st',
    generate_stream clock empty_streams "Hello" None st
    = (Raises (GeminiBackError "All models failed for stream" "ALL_MODELS_FAILED"
                               attempts None None), [], st') /\
    attempts = [] /\
    health_monitor (self st') = health_monitor (self st) /\
    history st' = [InvokeStream (Some "test-key") "model-a" "Hello";
                   InvokeStream (Some "test-key") "model-b" "Hello"] /\
    (length attempts < 2)%nat.
Proof.
  intros st.
  destruct (empty_stream_is_a_silent_failure clock empty_streams) as [_ Hall].
  destruct (Hall "Hello" None st st
                 {| Rotators.key := Some "test-key"; Rotators.index := None |})
    as (attempts & st' & Heq & Hnil & Hhm & Hh & Hlen).
  - reflexivity.
  - intros h m _. split; reflexivity.
  - exists attempts, st'. repeat split; try done.
    apply Hlen. discriminate.
Defined.

(** C6. A tracker that holds two requests of "gemini-1.5-pro"
    (limit 2 per minute), recorded at 0.96875 s and 1.0 s, and a clock
    that reads 60.9375 s inside [would_exceed_limit] and 61.0 s at
    the second reading of [get_recommended_wait_time]: the model is
    at its limit at the first reading, the window of the second
    reading is empty, and [valid_timestamps[0]] raises [IndexError];
    no integer is returned. *)
Theorem recommended_wait_time_index_error :
  let tr := {| RateLimit.request_timestamps :=
                {[ "gemini-1.5-pro" := [31 # 32; 1]%Q ]} |} in
  let r := (RateLimit.get_recommended_wait_time
              "gemini-1.5-pro" (975 # 16) 61 tr).1 in
  (RateLimit.would_exceed_limit "gemini-1.5-pro" (975 # 16) tr).1 = true /\
  RateLimit.newer_than (61 - 60) [31 # 32; 1]%Q = [] /\
  r = Raises IndexError /\
  ~ (exists w : Z, r = Returns w /\ 0 <= w).
Proof.
  intros tr r.
  assert (Hr : r = Raises IndexError) by (vm_compute; reflexivity).
  split; [vm_compute; reflexivity|]. split; [vm_compute; reflexivity|].
  split; [exact Hr|]. intros (w & Hw & _). rewrite Hr in Hw. discriminate.
Qed.

Lemma wait_time_of_one_reading_witness :
  let tr := {| RateLimit.request_timestamps :=
                {[ "gemini-1.5-pro" := [1 # 2; 10; 59]%Q ]} |} in
  exists oldest,
    (In oldest [1 # 2; 10; 59]%Q /\ (60 - 60 < oldest)%Q) /\
    (RateLimit.get_recommended_wait_time "gemini-1.5-pro" 60 60 tr).1
    = Returns (Py.int (Py.max0 (oldest + 60 - 60) * 1000)).
Proof.
  intros tr.
  destruct (wait_time_of_one_reading "gemini-1.5-pro" 60 tr) as (_ & Hover & _).
  destruct Hover as (oldest & Hin & _ & Hr); [vm_compute; discriminate|].
  exists oldest. split; [exact Hin | exact Hr].
Defined.

End Runs.


(** * More of the rotator *)

Section RotatorTable.
Import Types Rotators Spec.

Lemma range_lookup_nat (n j : nat) :
  (j < n)%nat -> Py.range n !! j = Some (Z.of_nat j).
Proof.
  intros Hj. unfold Py.range. rewrite list_lookup_fmap, lookup_seq_lt by done. done.
Qed.

Lemma length_range (n : nat) : length (Py.range n) = n.
Proof. unfold Py.range. by rewrite length_fmap, length_seq. Qed.

(** An index that splits [range n] is the number of the indices before
    it; those are smaller and the ones after it are greater. *)
Lemma range_split (n : nat) (a b : list Z) (i : Z) :
  Py.range n = a ++ i :: b ->
  (forall x, x ∈ a -> x < i) /\ (forall x, x ∈ b -> i < x).
Proof.
  intros Heq.
  assert (Hlen : (length a < n)%nat).
  { pose proof (f_equal length Heq) as H. rewrite length_range, length_app in H.
    simpl in H. lia. }
  assert (Hi : i = Z.of_nat (length a)).
  { pose proof (range_lookup_nat n (length a) Hlen) as H.
    rewrite Heq, list_lookup_middle in H by done. congruence. }
  split; intros x Hx; apply list_elem_of_lookup in Hx as [q Hq].
  - assert (Hqa : (q < length a)%nat) by (by apply lookup_lt_Some in Hq).
    pose proof (range_lookup_nat n q ltac:(lia)) as H.
    rewrite Heq, lookup_app_l, Hq in H by done. injection H as ->. lia.
  - assert (Hqb : (q < length b)%nat) by (by apply lookup_lt_Some in Hq).
    assert (Hn : (length a + S q < n)%nat).
    { pose proof (f_equal length Heq) as H. rewrite length_range, length_app in H.
      simpl in H. lia. }
    pose proof (range_lookup_nat n (length a + S q) Hn) as H.
    rewrite Heq, lookup_app_r in H by lia.
    replace (length a + S q - length a)%nat with (S q) in H by lia.
    simpl in H. rewrite Hq in H. injection H as ->. lia.
Qed.

(** The items of a sound table: one for each index, in order. *)
Lemma items_ok (keys : list string) (strat : string) (r : ApiKeyRotator) :
  table_ok keys strat r ->
  (items r).*1 = Py.range (length keys) /\
  forall i s, (i, s) ∈ items r <-> stats r !! i = Some s.
Proof.
  intros (Hkeys & _ & Hdom & _). unfold items. rewrite Hkeys. split.
  - assert (Hall : forall i, i ∈ Py.range (length keys) -> is_Some (stats r !! i)).
    { intros i Hi. apply Hdom. by apply range_lookup. }
    induction (Py.range (length keys)) as [|i l IH]; [done|]. simpl.
    destruct (Hall i ltac:(left)) as [s Hs]. rewrite Hs. simpl.
    f_equal. apply IH. intros j Hj. apply Hall. by right.
  - intros i s. rewrite list_elem_of_omap. split.
    + intros (j & _ & Hj). destruct (stats r !! j) as [s'|] eqn:E; simpl in Hj; [|done].
      by injection Hj as -> ->.
    + intros Hs. exists i. rewrite Hs. split; [|done].
      apply range_lookup, Hdom. eauto.
Qed.

(** [min_item] returns the first of the items with the fewest
    requests. *)
Lemma min_item_first (rest : list (Z * KeyStats)) :
  forall (best : Z * KeyStats) (l1 l2 : list (Z * KeyStats)),
    (forall x, x ∈ l1 -> total_requests best.2 < total_requests x.2) ->
    (forall x, x ∈ l2 -> total_requests best.2 <= total_requests x.2) ->
    exists l1' l2',
      l1 ++ best :: l2 ++ rest = l1' ++ min_item rest best :: l2' /\
      (forall x, x ∈ l1' -> total_requests (min_item rest best).2 < total_requests x.2) /\
      (forall x, x ∈ l2' -> total_requests (min_item rest best).2 <= total_requests x.2).
Proof.
  induction rest as [|it rest IH]; intros best l1 l2 H1 H2.
  - exists l1, l2. by rewrite app_nil_r.
  - simpl. destruct (total_requests it.2 <? total_requests best.2) eqn:E.
    + apply Z.ltb_lt in E.
      destruct (IH it (l1 ++ best :: l2) []) as (l1' & l2' & Heq & Hlt & Hle).
      * intros x Hx. apply elem_of_app in Hx as [Hx|Hx]; [specialize (H1 x Hx); lia|].
        apply elem_of_cons in Hx as [->|Hx]; [lia | specialize (H2 x Hx); lia].
      * intros x Hx. by apply elem_of_nil in Hx.
      * exists l1', l2'. split; [|done]. rewrite <- Heq. by rewrite <- !app_assoc.
    + apply Z.ltb_ge in E.
      destruct (IH best l1 (l2 ++ [it])) as (l1' & l2' & Heq & Hlt & Hle); [done| |].
      * intros x Hx. apply elem_of_app in Hx as [Hx|Hx]; [by apply H2|].
        apply list_elem_of_singleton in Hx as ->. done.
      * exists l1', l2'. split; [|done]. rewrite <- Heq. by rewrite <- !app_assoc.
Qed.

Lemma table_ok_init (keys : list string) (strat : string) :
  table_ok keys strat (__init__ keys strat).
Proof.
  unfold table_ok. split; [done|]. split; [done|]. split; [|split; [|split]].
  - intros i. split.
    + intros [s Hs].
      destruct (decide (0 <= i < Z.of_nat (length keys))) as [|Hout]; [done|].
      rewrite (init_stats_out_of_range keys strat i Hout) in Hs. done.
    + intros Hi. rewrite init_stats_lookup by done. eauto.
  - intros i s Hs.
    destruct (decide (0 <= i < Z.of_nat (length keys))) as [Hin|Hout].
    + rewrite init_stats_lookup in Hs by done. injection Hs as <-.
      unfold row_ok. simpl. lia.
    + rewrite (init_stats_out_of_range keys strat i Hout) in Hs. done.
  - simpl. lia.
  - intros Hne. simpl. destruct keys; [done | simpl; lia].
Qed.

Lemma row_ok_last_used (i : Z) (now : Q) (s : KeyStats) :
  row_ok i s -> row_ok i (with_last_used now s).
Proof. done. Qed.

(** Replacing a row of a sound table by a sound row. *)
Lemma table_ok_update (keys : list string) (strat : string) (r : ApiKeyRotator)
      (i : Z) (s s' : KeyStats) :
  table_ok keys strat r -> stats r !! i = Some s -> row_ok i s' ->
  table_ok keys strat (set_stats (<[i := s']> (stats r)) r).
Proof.
  intros (Hkeys & Hstrat & Hdom & Hrows & Hc0 & Hc1) Hs Hrow.
  unfold table_ok. cbn [api_keys strategy stats current_index set_stats].
  split; [done|]. split; [done|]. split; [|split; [|done]].
  - intros j. rewrite <- Hdom. destruct (decide (i = j)) as [<-|Hne].
    + rewrite lookup_insert_eq, Hs. split; eauto.
    + by rewrite lookup_insert_ne.
  - intros j t. destruct (decide (i = j)) as [<-|Hne].
    + rewrite lookup_insert_eq. by intros [= <-].
    + rewrite lookup_insert_ne by done. apply Hrows.
Qed.

Lemma table_ok_record_success (keys : list string) (strat : string) (r : ApiKeyRotator)
      (i : Z) :
  table_ok keys strat r -> table_ok keys strat (record_success i r).
Proof.
  intros Hok. unfold record_success. destruct (stats r !! i) as [s|] eqn:Hs; [|done].
  apply (table_ok_update keys strat r i s); [done..|].
  destruct Hok as (_ & _ & _ & Hrows & _). destruct (Hrows i s Hs) as (? & ? & ? & ?).
  unfold row_ok. simpl. lia.
Qed.

Lemma table_ok_record_failure (keys : list string) (strat : string) (r : ApiKeyRotator)
      (i : Z) :
  table_ok keys strat r -> table_ok keys strat (record_failure i r).
Proof.
  intros Hok. unfold record_failure. destruct (stats r !! i) as [s|] eqn:Hs; [|done].
  apply (table_ok_update keys strat r i s); [done..|].
  destruct Hok as (_ & _ & _ & Hrows & _). destruct (Hrows i s Hs) as (? & ? & ? & ?).
  unfold row_ok. simpl. lia.
Qed.

(** On a sound table over at least one key the strategy chooses an
    index of the table and keeps the table sound. *)
Lemma choose_ok (keys : list string) (strat : string) (r : ApiKeyRotator) :
  table_ok keys strat r -> keys <> [] ->
  exists i r1,
    choose r = (Returns i, r1) /\ 0 <= i < Z.of_nat (length keys) /\
    stats r1 = stats r /\ table_ok keys strat r1.
Proof.
  intros Hok Hne. pose proof Hok as (Hkeys & Hstrat & Hdom & Hrows & Hc0 & Hc1).
  assert (Hk : 0 < Z.of_nat (length keys)) by (destruct keys; [done | simpl; lia]).
  unfold choose. case_decide as Hrr; [|case_decide as Hlu].
  - eexists _, _. split; [reflexivity|]. split; [by auto|]. split; [done|].
    unfold table_ok. cbn [api_keys strategy stats current_index set_cursor].
    rewrite Hkeys. pose proof (Z.mod_pos_bound (current_index r + 1) _ Hk).
    do 4 (split; [done|]). split; [lia|]. intros _. lia.
  - destruct (items_ok keys strat r Hok) as [Hfst Hin].
    unfold least_used. destruct (items r) as [|it rest] eqn:Eit.
    { exfalso. destruct keys; [done|]. simpl in Hfst. done. }
    destruct (min_item_first rest it [] []) as (l1 & l2 & Heq & _);
      [intros x Hx; by apply elem_of_nil in Hx..|].
    simpl in Heq.
    assert (Hmem : min_item rest it ∈ it :: rest).
    { rewrite Heq. apply elem_of_app. right. left. }
    destruct (min_item rest it) as [i s] eqn:Emin.
    apply Hin in Hmem. eexists _, _. split; [reflexivity|].
    split; [apply Hdom; eauto|]. done.
  - eexists _, _. split; [reflexivity|]. split; [lia|]. done.
Qed.

(** A selection on a sound table over at least one key returns: the
    credential at the chosen index, whose row alone changes, in the
    time of its last use. *)
Lemma get_next_key_ok (keys : list string) (strat : string) (now : Q) (r : ApiKeyRotator) :
  table_ok keys strat r -> keys <> [] ->
  exists i cred s r1,
    choose r = (Returns i, r1) /\
    get_next_key now r
    = (Returns {| key := Some cred; index := Some i |},
       set_stats (<[i := with_last_used now s]> (stats r)) r1) /\
    keys !! Z.to_nat i = Some cred /\ 0 <= i < Z.of_nat (length keys) /\
    stats r !! i = Some s /\
    table_ok keys strat (set_stats (<[i := with_last_used now s]> (stats r)) r1).
Proof.
  intros Hok Hne.
  destruct (choose_ok keys strat r Hok Hne) as (i & r1 & Hch & Hi & Hst & Hok1).
  pose proof Hok1 as (Hkeys & _ & Hdom & Hrows & _).
  destruct (proj2 (Hdom i) Hi) as [s Hs].
  destruct (lookup_lt_is_Some_2 keys (Z.to_nat i)) as [cred Hcred]; [lia|].
  exists i, cred, s, r1. unfold get_next_key.
  destruct Hok as (Hkeys0 & _). rewrite Hkeys0.
  destruct keys as [|k0 ks] eqn:Ek; [done|]. rewrite <- Ek in *.
  rewrite Hch, Hs. cbn [api_keys set_stats]. rewrite Hkeys.
  unfold Py.getitem. rewrite decide_True by lia. rewrite Hcred.
  rewrite <- Hst. split; [done|]. split; [done|]. split; [done|].
  split; [lia|]. split; [done|].
  apply (table_ok_update keys strat r1 i s); [done..|].
  apply row_ok_last_used. by apply Hrows.
Qed.

Lemma table_ok_select (keys : list string) (strat : string) (now : Q) (r : ApiKeyRotator) :
  table_ok keys strat r -> table_ok keys strat (get_next_key now r).2.
Proof.
  intros Hok. destruct (decide (keys = [])) as [->|Hne].
  - unfold get_next_key. destruct Hok as (Hkeys & ?). rewrite Hkeys. simpl.
    by split.
  - destruct (get_next_key_ok keys strat now r Hok Hne)
      as (i & cred & s & r1 & _ & -> & _ & _ & _ & Hok'). done.
Qed.

Lemma table_ok_run (keys : list string) (strat : string) (ops : list rotator_op) :
  table_ok keys strat (run_ops ops (__init__ keys strat)).
Proof.
  induction ops as [|op ops IH] using rev_ind; [apply table_ok_init|].
  unfold run_ops in *. rewrite foldl_app. simpl.
  destruct op; simpl;
    [by apply table_ok_select | by apply table_ok_record_success
     | by apply table_ok_record_failure].
Qed.

(** X1. Whatever selections and records were made on a rotator since its
    construction, its table has one row for each index of the key list
    and no other, the row of index [i] carries [key_index = i], its
    requests are its successes plus its failures, no counter is
    negative, the cursor is an index of the key list, and [get_stats]
    lists the rows by increasing index. *)
Theorem rotator_table_stays_sound
        (keys : list string) (strat : string) (ops : list rotator_op) :
  let r := run_ops ops (__init__ keys strat) in
  table_ok keys strat r /\
  key_index <$> get_stats r = Py.range (length keys).
Proof.
  intros r. pose proof (table_ok_run keys strat ops) as Hok. fold r in Hok.
  split; [done|].
  destruct (items_ok keys strat r Hok) as [Hfst Hin].
  rewrite <- Hfst. unfold get_stats. rewrite <- list_fmap_compose.
  apply list_fmap_ext. intros q [i s] Hq. simpl.
  assert (Hmem : (i, s) ∈ items r) by (apply list_elem_of_lookup; eauto).
  apply Hin in Hmem. destruct Hok as (_ & _ & _ & Hrows & _).
  by destruct (Hrows i s Hmem).
Qed.

(** X2. A selection on a rotator with no key raises [ValueError] and
    changes nothing. On a rotator with keys it returns, whatever the
    name of the strategy and whatever was done before, a credential of
    the key list with its index; it stamps the row of that index with
    the time of the selection and changes no counter of any row. *)
Theorem selection_returns_a_key_and_counts_nothing
        (keys : list string) (strat : string) (ops : list rotator_op) (now : Q) :
  let r := run_ops ops (__init__ keys strat) in
  let r' := (get_next_key now r).2 in
  (keys = [] ->
   get_next_key now r = (Raises (ValueError "No API keys provided"), r)) /\
  (keys <> [] ->
   exists i cred,
     (get_next_key now r).1 = Returns {| key := Some cred; index := Some i |} /\
     keys !! Z.to_nat i = Some cred /\
     last_used <$> stats r' !! i = Some now /\
     (forall j, j <> i -> stats r' !! j = stats r !! j) /\
     (forall j, counters <$> stats r' !! j = counters <$> stats r !! j)).
Proof.
  intros r r'. pose proof (table_ok_run keys strat ops) as Hok. fold r in Hok. split.
  - intros ->. unfold get_next_key. destruct Hok as (-> & _). done.
  - intros Hne.
    destruct (get_next_key_ok keys strat now r Hok Hne)
      as (i & cred & s & r1 & _ & Heq & Hcred & Hi & Hs & _).
    exists i, cred. unfold r'. rewrite Heq. cbn [fst snd stats set_stats].
    split; [done|]. split; [done|]. split; [by rewrite lookup_insert_eq|]. split.
    + intros j Hj. by rewrite lookup_insert_ne.
    + intros j. destruct (decide (i = j)) as [<-|Hj].
      * by rewrite lookup_insert_eq, Hs.
      * by rewrite lookup_insert_ne.
Qed.

(** X3. With the strategy "least-used", the selection returns the index
    of a row with the fewest requests, and among those the lowest
    index; the cursor does not move. *)
Theorem least_used_selects_the_lowest_least_used_index
        (keys : list string) (ops : list rotator_op) (now : Q) :
  keys <> [] ->
  let r := run_ops ops (__init__ keys "least-used") in
  exists i cred s,
    (get_next_key now r).1 = Returns {| key := Some cred; index := Some i |} /\
    keys !! Z.to_nat i = Some cred /\
    stats r !! i = Some s /\
    (forall j t, stats r !! j = Some t ->
                 total_requests s <= total_requests t /\
                 (j < i -> total_requests s < total_requests t)) /\
    current_index (get_next_key now r).2 = current_index r.
Proof.
  intros Hne r. pose proof (table_ok_run keys "least-used" ops) as Hok. fold r in Hok.
  destruct (get_next_key_ok keys "least-used" now r Hok Hne)
    as (i & cred & s & r1 & Hch & Heq & Hcred & Hi & Hs & _).
  exists i, cred, s. rewrite Heq. cbn [fst snd current_index set_stats].
  split; [done|]. split; [done|]. split; [done|].
  destruct (items_ok keys "least-used" r Hok) as [Hfst Hin].
  pose proof Hok as (_ & Hstrat & _).
  unfold choose in Hch. rewrite Hstrat in Hch.
  rewrite decide_False, decide_True in Hch by done.
  unfold least_used in Hch. destruct (items r) as [|it rest] eqn:Eit; [done|].
  injection Hch as Hmin <-. split; [|done].
  destruct (min_item_first rest it [] []) as (l1 & l2 & Hsplit & Hlt & Hle);
    [intros x Hx; by apply elem_of_nil in Hx..|].
  simpl in Hsplit. destruct (min_item rest it) as [i' s'] eqn:Emin.
  simpl in Hmin. subst i'.
  assert (Hs' : s' = s).
  { assert (Hmem : (i, s') ∈ it :: rest)
      by (rewrite Hsplit; apply elem_of_app; right; left).
    apply Hin in Hmem. congruence. }
  subst s'. simpl in Hlt, Hle.
  assert (Hrange : Py.range (length keys) = l1.*1 ++ i :: l2.*1).
  { rewrite <- Hfst, Hsplit, fmap_app. done. }
  destruct (range_split _ _ _ _ Hrange) as [Hbefore Hafter].
  intros j t Ht. apply Hin in Ht. rewrite Hsplit in Ht.
  apply elem_of_app in Ht as [Ht|Ht]; [|apply elem_of_cons in Ht as [Ht|Ht]].
  - specialize (Hlt _ Ht). simpl in Hlt. split; [lia | intros _; lia].
  - injection Ht as -> ->. split; [lia | intros ?; lia].
  - specialize (Hle _ Ht). simpl in Hle. split; [done|].
    intros Hji. exfalso.
    assert (Hj : j ∈ l2.*1) by (apply list_elem_of_fmap; exists (j, t); done).
    specialize (Hafter j Hj). lia.
Qed.

(** X4. Recording a success and recording a failure commute, for equal
    and for different indices, present or not; neither moves the
    cursor or changes the key list or the strategy. *)
Theorem records_commute (r : ApiKeyRotator) (i j : Z) :
  record_success i (record_failure j r) = record_failure j (record_success i r) /\
  current_index (record_success i r) = current_index r /\
  current_index (record_failure j r) = current_index r /\
  api_keys (record_success i r) = api_keys r /\
  api_keys (record_failure j r) = api_keys r.
Proof.
  split.
  - unfold record_success, record_failure.
    destruct (decide (i = j)) as [<-|Hne].
    + destruct (stats r !! i) as [s|] eqn:Hs; cbn [stats set_stats]; rewrite ?Hs; [|done].
      rewrite !lookup_insert_eq. unfold set_stats. cbn [api_keys strategy current_index stats].
      by rewrite !insert_insert_eq.
    + destruct (stats r !! i) as [s|] eqn:Hs, (stats r !! j) as [t|] eqn:Ht;
        cbn [stats set_stats]; rewrite ?lookup_insert_ne by done; rewrite ?Hs, ?Ht;
        try done.
      unfold set_stats. cbn [api_keys strategy current_index stats].
      f_equal. by apply insert_insert_ne.
  - unfold record_success, record_failure.
    destruct (stats r !! i), (stats r !! j); done.
Qed.

Lemma least_used_selects_the_lowest_least_used_index_witness :
  let r := run_ops [Success 0; Failure 0; Select 1; Success 1]
                   (__init__ ["k0"; "k1"; "k2"] "least-used") in
  exists i cred s,
    (get_next_key 5 r).1 = Returns {| key := Some cred; index := Some i |} /\
    ["k0"; "k1"; "k2"] !! Z.to_nat i = Some cred /\
    stats r !! i = Some s /\
    (forall j t, stats r !! j = Some t ->
                 total_requests s <= total_requests t /\
                 (j < i -> total_requests s < total_requests t)) /\
    current_index (get_next_key 5 r).2 = current_index r.
Proof.
  apply (least_used_selects_the_lowest_least_used_index
           ["k0"; "k1"; "k2"] [Success 0; Failure 0; Select 1; Success 1] 5).
  discriminate.
Defined.

(** The run of the witness above selects the third key, the only one
    without a request. *)
Example least_used_run :
  (get_next_key 5 (run_ops [Success 0; Failure 0; Select 1; Success 1]
                           (__init__ ["k0"; "k1"; "k2"] "least-used"))).1
  = Returns {| key := Some "k2"; index := Some 2 |}.
Proof. vm_compute. done. Qed.

End RotatorTable.

(** * More of the rate limit tracker *)

Section RateLimitWindow.
Import Types RateLimit Spec.

Lemma newer_than_app (c : Q) (l1 l2 : list Q) :
  newer_than c (l1 ++ l2) = newer_than c l1 ++ newer_than c l2.
Proof. unfold newer_than. apply List.filter_app. Qed.

(** Pruning at an older cutoff does not show at a newer one. *)
Lemma newer_than_newer (c1 c2 : Q) (l : list Q) :
  (c2 <= c1)%Q -> newer_than c1 (newer_than c2 l) = newer_than c1 l.
Proof.
  intros Hc. induction l as [|t l IH]; [done|]. simpl.
  destruct (Py.Qltb c2 t) eqn:E2; simpl; rewrite IH; [done|].
  destruct (Py.Qltb c1 t) eqn:E1; [|done].
  apply Qltb_lt in E1. apply Qltb_ge in E2. exfalso; lra.
Qed.

Lemma newer_than_idem (c : Q) (l : list Q) :
  newer_than c (newer_than c l) = newer_than c l.
Proof. apply newer_than_newer. lra. Qed.

Lemma newer_than_none (c : Q) (l : list Q) :
  (forall t, In t l -> (t <= c)%Q) -> newer_than c l = [].
Proof.
  induction l as [|t l IH]; intros Hall; [done|]. simpl.
  replace (Py.Qltb c t) with false.
  - apply IH. intros t' Ht'. apply Hall. by right.
  - symmetry. apply Qltb_ge. apply Hall. by left.
Qed.

Lemma length_newer_than_le (c : Q) (l : list Q) :
  (length (newer_than c l) <= length l)%nat.
Proof. unfold newer_than. apply List.filter_length_le. Qed.

Lemma record_request_lookup (m m' : string) (now : Q) (tr : RateLimitTracker) :
  request_timestamps (record_request m now tr) !! m'
  = if decide (m' = m)
    then Some (newer_than (now - 300) (default [] (request_timestamps tr !! m)) ++ [now])
    else request_timestamps tr !! m'.
Proof.
  assert (Hnow : newer_than (now - 300) [now] = [now]).
  { unfold newer_than. simpl. replace (Py.Qltb (now - 300) now) with true; [done|].
    symmetry. apply Qltb_lt. lra. }
  unfold record_request, _cleanup. cbn [request_timestamps].
  destruct (decide (m' = m)) as [->|Hne].
  - destruct (request_timestamps tr !! m) as [l|] eqn:E; cbn [request_timestamps].
    + rewrite !lookup_alter_eq, E. cbn [fmap option_fmap option_map from_option id].
      by rewrite newer_than_app, Hnow.
    + rewrite !lookup_alter_eq, lookup_insert_eq.
      cbn [fmap option_fmap option_map from_option id]. simpl app.
      by rewrite Hnow.
  - destruct (request_timestamps tr !! m) as [l|] eqn:E; cbn [request_timestamps].
    + by rewrite !lookup_alter_ne.
    + rewrite !lookup_alter_ne by done. by rewrite lookup_insert_ne.
Qed.

(** X5. [record_request] keeps the entries of the model that are newer
    than 300 seconds, appends the reading of the clock, and leaves the
    other models alone. *)
Theorem record_request_prunes_and_appends (m : string) (now : Q) (tr : RateLimitTracker) :
  let old := default [] (request_timestamps tr !! m) in
  let tr' := record_request m now tr in
  request_timestamps tr' !! m = Some (newer_than (now - 300) old ++ [now]) /\
  (forall t, t ∈ default [] (request_timestamps tr' !! m) -> (now - 300 < t)%Q) /\
  (forall m', m' <> m -> request_timestamps tr' !! m' = request_timestamps tr !! m').
Proof.
  intros old tr'. unfold tr', old. split; [|split].
  - rewrite record_request_lookup. by rewrite decide_True.
  - rewrite record_request_lookup, decide_True by done. cbn [from_option id].
    intros t Ht. apply elem_of_app in Ht as [Ht|Ht].
    + apply list_elem_of_In, elem_of_newer_than in Ht. tauto.
    + apply list_elem_of_singleton in Ht as ->. lra.
  - intros m' Hne. rewrite record_request_lookup. by rewrite decide_False.
Qed.

Lemma replay_snoc_rl (log : list (string * Q)) (m : string) (t : Q) :
  replay (log ++ [(m, t)]) = record_request m t (replay log).
Proof. unfold replay. by rewrite foldl_app. Qed.

Lemma recorded_times_snoc (m m' : string) (t : Q) (log : list (string * Q)) :
  recorded_times m (log ++ [(m', t)])
  = recorded_times m log ++ (if decide (m' = m) then [t] else []).
Proof.
  unfold recorded_times. rewrite omap_app. simpl. by destruct (decide (m' = m)).
Qed.

(** What the tracker stores for a model is what the log records for
    it, seen from any cutoff that is not older than a pruning of the
    log. *)
Lemma stored_is_recorded (log : list (string * Q)) (m : string) (c : Q) :
  (forall r, r ∈ log -> (r.2 - 300 <= c)%Q) ->
  newer_than c (default [] (request_timestamps (replay log) !! m))
  = newer_than c (recorded_times m log).
Proof.
  induction log as [|[m' t] log IH] using rev_ind; intros Hc; [done|].
  rewrite replay_snoc_rl, recorded_times_snoc.
  assert (Hc' : forall r, r ∈ log -> (r.2 - 300 <= c)%Q).
  { intros r Hr. apply Hc. apply elem_of_app. by left. }
  assert (Ht : (t - 300 <= c)%Q).
  { apply (Hc (m', t)). apply elem_of_app. right. by left. }
  rewrite (record_request_lookup m' m). destruct (decide (m = m')) as [->|Hne].
  - rewrite decide_True by done. cbn [from_option id].
    rewrite !newer_than_app, newer_than_newer by done. by rewrite IH.
  - rewrite decide_False by done. rewrite app_nil_r. by apply IH.
Qed.

(** X6. Pruning never shows in a later query. When no request of the log
    was recorded after the instant of the query, [get_status] counts,
    for the last minute and for the last five minutes, the requests
    that the whole log records for the model in these windows. *)
Theorem status_counts_the_whole_log (log : list (string * Q)) (m : string) (now : Q) :
  (forall r, r ∈ log -> (r.2 <= now)%Q) ->
  let s := (get_status m now (replay log)).1 in
  current_rpm s = Z.of_nat (length (newer_than (now - 60) (recorded_times m log))) /\
  requests_in_last_minute (window_stats s) = current_rpm s /\
  requests_in_last_5_minutes (window_stats s)
  = Z.of_nat (length (newer_than (now - 300) (recorded_times m log))).
Proof.
  intros Hlog s.
  destruct (get_status_after m now (replay log)) as (Hts & Hcur & _). cbv zeta in *.
  unfold s. rewrite Hcur. split; [|split; [done|]].
  - rewrite stored_is_recorded; [done|]. intros r Hr. specialize (Hlog r Hr). lra.
  - unfold get_status at 1. cbn [fst window_stats requests_in_last_5_minutes].
    fold (get_status m now (replay log)).
    change (request_timestamps
              match request_timestamps (replay log) !! m with
              | Some _ => _cleanup m now (replay log)
              | None => replay log
              end !! m)
      with (request_timestamps (get_status m now (replay log)).2 !! m).
    rewrite Hts, <- newer_than_idem, stored_is_recorded; [by rewrite newer_than_idem|].
    intros r Hr. specialize (Hlog r Hr). lra.
Qed.

Lemma limit_is_15_or_2 (m : string) :
  default 15 (limits !! m) = 15 \/ default 15 (limits !! m) = 2.
Proof.
  unfold limits.
  repeat (rewrite lookup_insert; case_decide; [cbn; auto|]).
  rewrite lookup_empty. cbn. auto.
Qed.

(** X7. The flags of a status, in whole numbers. The limit is 15 or 2;
    the requests of the last minute are among those of the last five;
    a status is near the limit from 80 percent of it and about to
    exceed it from 90 percent; and [would_exceed_limit] holds from 100
    percent, so that it implies the second flag, which implies the
    first. *)
Theorem status_flags (m : string) (now : Q) (tr : RateLimitTracker) :
  let s := (get_status m now tr).1 in
  (max_rpm s = 15 \/ max_rpm s = 2) /\
  0 <= current_rpm s <= requests_in_last_5_minutes (window_stats s) /\
  (is_near_limit s = true <-> 80 * max_rpm s <= 100 * current_rpm s) /\
  (will_exceed_soon s = true <-> 90 * max_rpm s <= 100 * current_rpm s) /\
  ((would_exceed_limit m now tr).1 = true <-> max_rpm s <= current_rpm s) /\
  ((would_exceed_limit m now tr).1 = true -> will_exceed_soon s = true) /\
  (will_exceed_soon s = true -> is_near_limit s = true).
Proof.
  intros s.
  assert (Hflag : forall (p cur lim : Z),
             lim = 15 \/ lim = 2 ->
             Qle_bool (inject_Z p)
                      (if 0 <? lim then inject_Z cur / inject_Z lim * 100 else 0)%Q = true
             <-> p * lim <= 100 * cur).
  { intros p cur lim Hlim. rewrite Qle_bool_iff.
    destruct Hlim as [-> | ->];
      [change (0 <? 15) with true | change (0 <? 2) with true]; cbv iota.
    - rewrite (Zle_Qle (p * 15) (100 * cur)), !inject_Z_mult.
      change (inject_Z 15) with 15%Q. change (inject_Z 100) with 100%Q.
      assert (E : (inject_Z cur / 15 * 100 == inject_Z cur * (20 # 3))%Q) by field.
      rewrite E. split; intros H; lra.
    - rewrite (Zle_Qle (p * 2) (100 * cur)), !inject_Z_mult.
      change (inject_Z 2) with 2%Q. change (inject_Z 100) with 100%Q.
      assert (E : (inject_Z cur / 2 * 100 == inject_Z cur * 50)%Q) by field.
      rewrite E. split; intros H; lra. }
  assert (Hmax : max_rpm s = 15 \/ max_rpm s = 2) by apply limit_is_15_or_2.
  assert (Hcur : 0 <= current_rpm s <= requests_in_last_5_minutes (window_stats s)).
  { unfold s, get_status. cbn [fst current_rpm window_stats requests_in_last_5_minutes].
    split; [lia|]. apply inj_le, length_newer_than_le. }
  assert (Hnear : is_near_limit s = true <-> 80 * max_rpm s <= 100 * current_rpm s)
    by (apply (Hflag 80); exact Hmax).
  assert (Hsoon : will_exceed_soon s = true <-> 90 * max_rpm s <= 100 * current_rpm s)
    by (apply (Hflag 90); exact Hmax).
  assert (Hex : (would_exceed_limit m now tr).1 = true <-> max_rpm s <= current_rpm s).
  { unfold would_exceed_limit, s. destruct (get_status m now tr) as [st tr1]. simpl.
    apply Z.leb_le. }
  repeat (split; [done|]). split.
  - rewrite Hex, Hsoon. lia.
  - rewrite Hsoon, Hnear. lia.
Qed.

(** The status depends on the tracker through the pruned entries of
    the model only. *)
Lemma get_status_fst_ext (m : string) (now : Q) (tr1 tr2 : RateLimitTracker) :
  newer_than (now - 300) (default [] (request_timestamps tr1 !! m))
  = newer_than (now - 300) (default [] (request_timestamps tr2 !! m)) ->
  (get_status m now tr1).1 = (get_status m now tr2).1.
Proof.
  intros H.
  destruct (get_status_after m now tr1) as (Hts1 & _).
  destruct (get_status_after m now tr2) as (Hts2 & _).
  cbv zeta in *. unfold get_status in *. cbn [fst snd] in *.
  by rewrite Hts1, Hts2, H.
Qed.

(** X8. [get_status] writes nothing but the pruning of the model it is
    asked about: a model without an entry gets none, the other models
    keep their entries, and a second query at the same instant finds
    nothing more to prune and reports the same status. *)
Theorem get_status_only_prunes (m : string) (now : Q) (tr : RateLimitTracker) :
  let tr' := (get_status m now tr).2 in
  (request_timestamps tr !! m = None -> tr' = tr) /\
  request_timestamps tr' !! m = newer_than (now - 300) <$> request_timestamps tr !! m /\
  (forall m', m' <> m -> request_timestamps tr' !! m' = request_timestamps tr !! m') /\
  get_status m now tr' = ((get_status m now tr).1, tr').
Proof.
  intros tr'.
  assert (Hm : request_timestamps tr' !! m
               = newer_than (now - 300) <$> request_timestamps tr !! m).
  { unfold tr', get_status. cbn [snd].
    destruct (request_timestamps tr !! m) as [l|] eqn:E.
    - unfold _cleanup. cbn [request_timestamps]. by rewrite lookup_alter_eq, E.
    - by rewrite E. }
  split; [|split; [done|split]].
  - intros E. unfold tr', get_status. cbn [snd]. by rewrite E.
  - intros m' Hne. unfold tr', get_status. cbn [snd].
    destruct (request_timestamps tr !! m) as [l|] eqn:E; [|done].
    unfold _cleanup. cbn [request_timestamps]. by rewrite lookup_alter_ne.
  - assert (Hfix : (get_status m now tr').2 = tr').
    { unfold get_status at 1. cbn [snd]. rewrite Hm.
      destruct (request_timestamps tr !! m) as [l|] eqn:E; [|done].
      cbn [fmap option_fmap option_map]. unfold _cleanup. destruct tr' as [ts] eqn:Etr'.
      cbn [request_timestamps] in *. f_equal. apply map_eq. intros m'.
      destruct (decide (m = m')) as [<-|Hne].
      + rewrite lookup_alter_eq, Hm. cbn. by rewrite newer_than_idem.
      + by rewrite lookup_alter_ne. }
    rewrite (surjective_pairing (get_status m now tr')), Hfix. f_equal.
    apply get_status_fst_ext. rewrite Hm.
    destruct (request_timestamps tr !! m) as [l|]; [|done].
    cbn [fmap option_fmap option_map from_option id]. by rewrite newer_than_idem.
Qed.

Lemma int_upper_bound (x : Q) (n : Z) : (x <= inject_Z n)%Q -> Py.int x <= n.
Proof.
  destruct x as [a b]. unfold Qle, Py.int. simpl. intros H.
  apply Z.quot_le_upper_bound; lia.
Qed.

(** X9. When no recorded request of the model lies after the instant of
    the query, the recommended wait is at most the 60000 milliseconds
    of the window. *)
Theorem recommended_wait_is_at_most_a_minute (m : string) (now : Q) (tr : RateLimitTracker) :
  (forall t, t ∈ default [] (request_timestamps tr !! m) -> (t <= now)%Q) ->
  exists w, (get_recommended_wait_time m now now tr).1 = Returns w /\ 0 <= w <= 60000.
Proof.
  intros Hpast. destruct (wait_time_at_an_instant m now tr) as [Hunder Hover].
  cbv zeta in *.
  destruct (Z_lt_le_dec
              (Z.of_nat (length (newer_than (now - 60)
                                            (default [] (request_timestamps tr !! m)))))
              (default 15 (limits !! m))) as [Hlt|Hge].
  - exists 0. split; [by apply Hunder | lia].
  - destruct (Hover Hge) as (oldest & Hin & _ & Hr). eexists. split; [exact Hr|].
    apply elem_of_newer_than in Hin as [Hin Hnew].
    apply list_elem_of_In in Hin. specialize (Hpast _ Hin).
    pose proof (max0_nonneg (oldest + 60 - now)) as H0.
    assert (Hle : (Py.max0 (oldest + 60 - now) * 1000 <= 60000)%Q).
    { unfold Py.max0. destruct (Qlt_le_dec 0 (oldest + 60 - now)); lra. }
    split; [apply int_nonneg; lra|]. by apply int_upper_bound.
Qed.

(** X10. The clock is read twice. When the model is at or over its limit
    at the first reading and every entry kept for it is at least 60
    seconds old at the second one, [get_recommended_wait_time] raises
    [IndexError]. *)
Theorem recommended_wait_raises_when_the_window_empties
        (m : string) (now1 now2 : Q) (tr : RateLimitTracker) :
  let recorded := default [] (request_timestamps tr !! m) in
  default 15 (limits !! m) <= Z.of_nat (length (newer_than (now1 - 60) recorded)) ->
  (forall t, t ∈ recorded -> (t <= now2 - 60)%Q) ->
  (get_recommended_wait_time m now1 now2 tr).1 = Raises IndexError.
Proof.
  intros recorded Hover Hold.
  destruct (wait_time_two_readings m now1 now2 tr) as [_ Htwo]. cbv zeta in *.
  destruct (Htwo Hover) as [Hempty _]. apply Hempty.
  fold recorded. apply newer_than_none. intros t Ht. apply Hold.
  apply elem_of_newer_than in Ht as [Ht _]. by apply list_elem_of_In.
Qed.

Lemma status_counts_the_whole_log_witness :
  let s := (get_status "model-a" 61 (replay [("model-a", 0%Q); ("model-b", 30%Q)])).1 in
  current_rpm s = 0 /\
  requests_in_last_5_minutes (window_stats s) = 1.
Proof.
  intros s.
  destruct (status_counts_the_whole_log
              [("model-a", 0%Q); ("model-b", 30%Q)] "model-a" 61)
    as (Hcur & _ & Hfive).
  - intros r Hr. apply elem_of_cons in Hr as [->|Hr]; [simpl; lra|].
    apply list_elem_of_singleton in Hr as ->. simpl. lra.
  - fold s in Hcur, Hfive. split; [rewrite Hcur | rewrite Hfive]; reflexivity.
Defined.

Lemma recommended_wait_is_at_most_a_minute_witness :
  exists w,
    (get_recommended_wait_time
       "gemini-1.5-pro" 60 60
       {| request_timestamps := {[ "gemini-1.5-pro" := [1 # 2; 10; 59]%Q ]} |}).1
    = Returns w /\ 0 <= w <= 60000.
Proof.
  apply (recommended_wait_is_at_most_a_minute "gemini-1.5-pro" 60).
  intros t Ht. cbn [request_timestamps] in Ht. rewrite lookup_singleton_eq in Ht.
  cbn [from_option id] in Ht.
  repeat (apply elem_of_cons in Ht as [->|Ht]; [lra|]).
  by apply elem_of_nil in Ht.
Defined.

Lemma recommended_wait_raises_when_the_window_empties_witness :
  (get_recommended_wait_time
     "gemini-1.5-pro" 60 62
     {| request_timestamps := {[ "gemini-1.5-pro" := [1; 1]%Q ]} |}).1
  = Raises IndexError.
Proof.
  apply (recommended_wait_raises_when_the_window_empties "gemini-1.5-pro" 60 62).
  - vm_compute. discriminate.
  - intros t Ht. cbn [request_timestamps] in Ht. rewrite lookup_singleton_eq in Ht.
    cbn [from_option id] in Ht.
    repeat (apply elem_of_cons in Ht as [->|Ht]; [lra|]).
    by apply elem_of_nil in Ht.
Defined.

End RateLimitWindow.

(** * More of the health monitor *)

Section HealthLog.
Import Health Spec.

Lemma records_of_snoc (m m' : string) (t : Q) (ok : bool) (log : list (string * Q * bool)) :
  records_of m (log ++ [(m', t, ok)])
  = records_of m log ++ (if decide (m' = m) then [(t, ok)] else []).
Proof.
  unfold records_of. rewrite omap_app. simpl. by destruct (decide (m' = m)).
Qed.

Lemma last_100_snoc (l : list Q) (x : Q) : last_100 (l ++ [x]) = push_capped x (last_100 l).
Proof.
  unfold last_100, push_capped. rewrite length_app. simpl.
  destruct (decide (length l < 100)%nat) as [Hlt|Hge].
  - replace (length l + 1 - 100)%nat with O by lia.
    replace (length l - 100)%nat with O by lia. rewrite !drop_0.
    replace (100 <? length (l ++ [x]))%nat with false; [done|].
    symmetry. apply Nat.ltb_ge. rewrite length_app. simpl. lia.
  - replace (100 <? length (drop (length l - 100) l ++ [x]))%nat with true.
    + replace (length l + 1 - 100)%nat with (S (length l - 100)) by lia.
      rewrite drop_app_le by lia.
      destruct (drop (length l - 100) l) as [|y l'] eqn:E.
      * apply (f_equal length) in E. rewrite length_drop in E. simpl in E. lia.
      * replace (S (length l - 100)) with (length l - 100 + 1)%nat by lia.
        rewrite <- drop_drop, E. done.
    + symmetry. apply Nat.ltb_lt. rewrite length_app, length_drop. simpl. lia.
Qed.

Lemma trailing_failures_snoc (l : list bool) (ok : bool) :
  trailing_failures (l ++ [ok]) = if ok then O else S (trailing_failures l).
Proof. unfold trailing_failures. rewrite rev_unit. by destruct ok. Qed.

(** The dictionary kept for a model is the one of its records. *)
Lemma replay_data (log : list (string * Q * bool)) (m : string) :
  default Data.empty (health_data (replay log) !! m) = data_of (records_of m log).
Proof.
  induction log as [|[[m' t] ok] log IH] using rev_ind; [done|].
  rewrite replay_snoc, records_of_snoc. unfold record_request. cbn [health_data].
  destruct (decide (m' = m)) as [->|Hne].
  - rewrite lookup_insert_eq. cbn [from_option id]. rewrite IH.
    unfold data_of. rewrite !fmap_app. cbn [fmap list_fmap fst snd].
    cbn [Data.response_times Data.successes Data.failures Data.consecutive_failures].
    rewrite last_100_snoc, trailing_failures_snoc, !List.filter_app, !length_app.
    destruct ok; simpl; f_equal; lia.
  - rewrite lookup_insert_ne by done. by rewrite app_nil_r.
Qed.

Lemma insert_sorted_In (x y : Q) (l : list Q) :
  In y (RateLimit.insert_sorted x l) <-> y = x \/ In y l.
Proof.
  induction l as [|z l IH]; simpl; [intuition congruence|].
  destruct (Qle_bool x z); simpl; [intuition congruence|]. rewrite IH. tauto.
Qed.

Lemma sorted_In (y : Q) (l : list Q) : In y (RateLimit.sorted l) <-> In y l.
Proof.
  induction l as [|x l IH]; [done|]. unfold RateLimit.sorted in *. simpl.
  rewrite insert_sorted_In, IH. intuition congruence.
Qed.

Lemma insert_sorted_length (x : Q) (l : list Q) :
  length (RateLimit.insert_sorted x l) = S (length l).
Proof.
  induction l as [|z l IH]; [done|]. simpl. destruct (Qle_bool x z); simpl; [done|].
  by rewrite IH.
Qed.

Lemma sorted_length (l : list Q) : length (RateLimit.sorted l) = length l.
Proof.
  induction l as [|x l IH]; [done|]. unfold RateLimit.sorted in *. simpl.
  by rewrite insert_sorted_length, IH.
Qed.

(** In the result of an insertion every entry is at most the ones
    after it. *)
Lemma insert_sorted_ordered (x : Q) (l : list Q) :
  StronglySorted Qle l -> StronglySorted Qle (RateLimit.insert_sorted x l).
Proof.
  induction 1 as [|z l Hs IH Hall]; simpl.
  - repeat constructor.
  - destruct (Qle_bool x z) eqn:E.
    + apply Qle_bool_iff in E. constructor; [by constructor|].
      constructor; [done|]. eapply Forall_impl; [exact Hall|].
      intros t Ht. simpl in Ht. lra.
    + assert (Hzx : (z <= x)%Q).
      { apply Qlt_le_weak, Qnot_le_lt. intros H. apply Qle_bool_iff in H. congruence. }
      constructor; [done|]. apply List.Forall_forall. intros t Ht.
      apply insert_sorted_In in Ht as [->|Ht]; [done|].
      rewrite List.Forall_forall in Hall. by apply Hall.
Qed.

Lemma sorted_ordered (l : list Q) : StronglySorted Qle (RateLimit.sorted l).
Proof.
  induction l as [|x l IH]; [constructor|]. unfold RateLimit.sorted in *. simpl.
  by apply insert_sorted_ordered.
Qed.

Lemma nth_ordered (l : list Q) (i j : nat) :
  StronglySorted Qle l -> (i <= j < length l)%nat -> (nth i l 0 <= nth j l 0)%Q.
Proof.
  intros Hs. revert i j. induction Hs as [|z l Hs IH Hall]; intros i j Hij.
  - simpl in Hij. lia.
  - destruct i as [|i], j as [|j]; simpl in *; try lia.
    + lra.
    + rewrite List.Forall_forall in Hall. apply Hall, nth_In. lia.
    + apply IH. lia.
Qed.

(** The index that [get_percentile] reads, for the fraction [a / b]. *)
Lemma get_percentile_index (times : list Q) (a : Z) (b : positive) :
  times <> [] ->
  get_percentile times (a # b)
  = nth (Z.to_nat (Z.min ((Z.of_nat (length times) * a) `quot` Z.pos b)
                         (Z.of_nat (length times) - 1))) times 0%Q.
Proof.
  intros Hne. destruct times as [|t times]; [done|].
  unfold get_percentile, Py.int. cbn [Qnum Qden Qmult inject_Z].
  replace (1 * b)%positive with b by lia. done.
Qed.

(** X11. Whatever was recorded, the buffer of a model holds the response
    times of its last 100 requests, in the order of the requests. *)
Theorem monitor_keeps_the_last_100_response_times
        (log : list (string * Q * bool)) (m : string) :
  let buffer := Data.response_times (default Data.empty (health_data (replay log) !! m)) in
  buffer = last_100 (records_of m log).*1 /\
  (length buffer <= 100)%nat /\
  (forall t, t ∈ buffer -> exists ok, (t, ok) ∈ records_of m log).
Proof.
  intros buffer. unfold buffer. rewrite replay_data. cbn [data_of Data.response_times].
  split; [done|]. split.
  - unfold last_100. rewrite length_drop. lia.
  - intros t Ht. unfold last_100 in Ht.
    assert (Hin : t ∈ (records_of m log).*1).
    { apply list_elem_of_lookup in Ht as [q Hq]. rewrite lookup_drop in Hq.
      apply list_elem_of_lookup. eauto. }
    apply list_elem_of_fmap in Hin as ([t' ok] & -> & Hin). eauto.
Qed.

(** X12. The counters that [get_health] reports for a model count its
    recorded requests: all of them, the successes, the failures, and
    the failures since the last success. *)
Theorem health_counts_the_recorded_requests
        (log : list (string * Q * bool)) (m : string) :
  let h := get_health m (replay log) in
  let outcomes := (records_of m log).*2 in
  total_requests (metrics h) = Z.of_nat (length outcomes) /\
  successful_requests (metrics h) = Z.of_nat (length (List.filter id outcomes)) /\
  failed_requests (metrics h) = Z.of_nat (length (List.filter negb outcomes)) /\
  consecutive_failures h = Z.of_nat (trailing_failures outcomes).
Proof.
  intros h outcomes. unfold h, get_health.
  cbn [metrics total_requests successful_requests failed_requests consecutive_failures].
  rewrite replay_data.
  cbn [data_of Data.successes Data.failures Data.consecutive_failures].
  fold outcomes. split; [|done].
  assert (Hsplit : forall l : list bool,
             (length (List.filter id l) + length (List.filter negb l) = length l)%nat).
  { induction l as [|[] l IH]; simpl; lia. }
  specialize (Hsplit outcomes). lia.
Qed.

(** X13. The health of a model depends on the requests recorded for this
    model only; with none recorded it is healthy, with the success rate
    1 and every count and time 0. *)
Theorem health_depends_on_own_records
        (log log' : list (string * Q * bool)) (m : string) :
  (records_of m log = records_of m log' ->
   get_health m (replay log) = get_health m (replay log')) /\
  (records_of m log = [] ->
   get_health m (replay log)
   = {| model := m; status := "healthy"; success_rate := 1;
        average_response_time := 0; availability := 1; consecutive_failures := 0;
        metrics := {| total_requests := 0; successful_requests := 0;
                      failed_requests := 0; p50_response_time := 0;
                      p95_response_time := 0; p99_response_time := 0 |} |}).
Proof.
  split.
  - intros Heq. unfold get_health. by rewrite !replay_data, Heq.
  - intros Hnone. unfold get_health. rewrite replay_data, Hnone. reflexivity.
Qed.

(** X14. The success rate is the share of the successes in the recorded
    requests: it lies between 0 and 1, it is 1 without a failure, and
    the availability repeats it. *)
Theorem success_rate_is_a_share (log : list (string * Q * bool)) (m : string) :
  let h := get_health m (replay log) in
  (0 <= success_rate h <= 1)%Q /\
  availability h = success_rate h /\
  (0 < total_requests (metrics h) ->
   (success_rate h * inject_Z (total_requests (metrics h))
    == inject_Z (successful_requests (metrics h)))%Q) /\
  (failed_requests (metrics h) = 0 -> (success_rate h == 1)%Q).
Proof.
  intros h. unfold h, get_health.
  cbn [success_rate availability metrics total_requests successful_requests
       failed_requests].
  rewrite replay_data. cbn [data_of Data.successes Data.failures].
  set (a := Z.of_nat (length (List.filter id (records_of m log).*2))).
  set (b := Z.of_nat (length (List.filter negb (records_of m log).*2))).
  assert (Ha : 0 <= a) by (unfold a; lia). assert (Hb : 0 <= b) by (unfold b; lia).
  destruct (0 <? a + b) eqn:E.
  - apply Z.ltb_lt in E.
    assert (Hpos : (0 < inject_Z (a + b))%Q) by (rewrite <- (Zlt_Qlt 0); lia).
    assert (Hqa : (0 <= inject_Z a)%Q) by (rewrite <- (Zle_Qle 0); lia).
    assert (Hqab : (inject_Z a <= inject_Z (a + b))%Q) by (rewrite <- Zle_Qle; lia).
    split; [split|split; [done|split]].
    + apply Qle_shift_div_l; [done | lra].
    + apply Qle_shift_div_r; [done | lra].
    + intros _. field. lra.
    + intros ->. rewrite Z.add_0_r in *. field. lra.
  - split; [lra|]. split; [done|]. split; [|reflexivity].
    apply Z.ltb_ge in E. lia.
Qed.

(** A percentile of a buffer that is not empty is one of its
    entries. *)
Lemma percentile_in_buffer (buffer : list Q) (a : Z) (b : positive) :
  buffer <> [] -> 0 <= a ->
  In (get_percentile (RateLimit.sorted buffer) (a # b)) buffer.
Proof.
  intros Hne Ha.
  assert (Htimes : RateLimit.sorted buffer <> []).
  { intros E. apply Hne. by apply sorted_nil. }
  rewrite get_percentile_index by done.
  apply sorted_In, nth_In.
  assert (Hn : (1 <= length (RateLimit.sorted buffer))%nat).
  { destruct (RateLimit.sorted buffer); [done | simpl; lia]. }
  lia.
Qed.

(** X15. The percentiles that [get_health] reports are ordered, and with a
    buffer that is not empty each of them is a response time of the
    buffer. *)
Theorem percentiles_are_ordered_entries (log : list (string * Q * bool)) (m : string) :
  let h := get_health m (replay log) in
  let buffer := Data.response_times (default Data.empty (health_data (replay log) !! m)) in
  (p50_response_time (metrics h) <= p95_response_time (metrics h))%Q /\
  (p95_response_time (metrics h) <= p99_response_time (metrics h))%Q /\
  (buffer <> [] ->
   In (p50_response_time (metrics h)) buffer /\
   In (p95_response_time (metrics h)) buffer /\
   In (p99_response_time (metrics h)) buffer).
Proof.
  intros h buffer. unfold h, get_health.
  cbn [metrics p50_response_time p95_response_time p99_response_time].
  fold buffer. set (times := RateLimit.sorted buffer).
  destruct (decide (buffer = [])) as [Hnil|Hne].
  { subst times. rewrite Hnil. cbn [RateLimit.sorted foldr get_percentile].
    split; [lra|]. split; [lra|]. done. }
  split; [|split].
  3:{ intros _. unfold times. repeat split; by apply percentile_in_buffer. }
  all: assert (Htimes : times <> []) by (intros E; apply Hne; by apply sorted_nil).
  all: rewrite !get_percentile_index by done.
  all: set (n := Z.of_nat (length times)).
  all: assert (Hn : 1 <= n) by (unfold n; destruct times; [done | simpl; lia]).
  all: rewrite !Z.quot_div_nonneg by lia.
  all: pose proof (Z.mul_div_le (n * 1) 2 ltac:(lia)).
  all: pose proof (Z.mul_succ_div_gt (n * 1) 2 ltac:(lia)).
  all: pose proof (Z.mul_div_le (n * 95) 100 ltac:(lia)).
  all: pose proof (Z.mul_succ_div_gt (n * 95) 100 ltac:(lia)).
  all: pose proof (Z.mul_div_le (n * 99) 100 ltac:(lia)).
  all: pose proof (Z.mul_succ_div_gt (n * 99) 100 ltac:(lia)).
  all: apply nth_ordered; [apply sorted_ordered|]; fold times n; lia.
Qed.

Lemma trailing_failures_all_true (l : list bool) :
  (forall ok, In ok l -> ok = true) -> trailing_failures l = O.
Proof.
  intros Hall. unfold trailing_failures.
  destruct (rev l) as [|ok l'] eqn:E; [done|].
  assert (Hok : In ok l) by (apply in_rev; rewrite E; by left).
  by rewrite (Hall ok Hok).
Qed.

Lemma filter_negb_all_true (l : list bool) :
  (forall ok, In ok l -> ok = true) -> List.filter negb l = [].
Proof.
  induction l as [|ok l IH]; intros Hall; [done|]. simpl.
  rewrite (Hall ok ltac:(by left)). simpl. apply IH. intros ok' H. apply Hall. by right.
Qed.

(** The success rate computed without a failure is 1. *)
Lemma rate_without_failure (a : Z) :
  0 <= a ->
  ((if 0 <? a + 0 then inject_Z a / inject_Z (a + 0) else 1) == 1)%Q.
Proof.
  intros Ha. rewrite Z.add_0_r. destruct (0 <? a) eqn:E; [|reflexivity].
  apply Z.ltb_lt in E.
  assert (0 < inject_Z a)%Q by (rewrite <- (Zlt_Qlt 0); lia).
  field. lra.
Qed.

(** X16. A model for which only successes were recorded, each with a
    response time of at most 5000 ms, is healthy. *)
Theorem fast_successes_make_a_model_healthy (log : list (string * Q * bool)) (m : string) :
  (forall t ok, (t, ok) ∈ records_of m log -> ok = true /\ (t <= 5000)%Q) ->
  status (get_health m (replay log)) = "healthy".
Proof.
  intros Hall.
  assert (Htrue : forall ok, In ok (records_of m log).*2 -> ok = true).
  { intros ok Hok. apply list_elem_of_In, list_elem_of_fmap in Hok as ([t ok'] & -> & Hin).
    by destruct (Hall t ok' Hin). }
  assert (Hfast : forall t, In t (last_100 (records_of m log).*1) -> (t <= 5000)%Q).
  { intros t Ht. apply list_elem_of_In in Ht. unfold last_100 in Ht.
    apply list_elem_of_lookup in Ht as [q Hq]. rewrite lookup_drop in Hq.
    assert (Hin : t ∈ (records_of m log).*1) by (apply list_elem_of_lookup; eauto).
    apply list_elem_of_fmap in Hin as ([t' ok] & -> & Hin). by destruct (Hall _ _ Hin). }
  unfold get_health. cbn [status]. rewrite replay_data.
  cbn [data_of Data.successes Data.failures Data.consecutive_failures Data.response_times].
  rewrite trailing_failures_all_true, filter_negb_all_true by done.
  change (Z.of_nat (length [])) with 0. change (3 <=? Z.of_nat 0) with false.
  set (a := Z.of_nat (length (List.filter id (records_of m log).*2))).
  pose proof (rate_without_failure a ltac:(unfold a; lia)) as Hone.
  set (rate := if 0 <? a + 0 then (inject_Z a / inject_Z (a + 0))%Q else 1%Q) in *.
  replace (Py.Qltb rate (8 # 10)) with false
    by (symmetry; apply Qltb_ge; rewrite Hone; lra).
  replace (Py.Qltb rate (95 # 100)) with false
    by (symmetry; apply Qltb_ge; rewrite Hone; lra).
  cbn [orb]. set (buffer := last_100 (records_of m log).*1) in *.
  destruct (RateLimit.sorted buffer) as [|t0 ts] eqn:Es; [done|].
  rewrite <- Es.
  replace (Py.Qltb 5000 (get_percentile (RateLimit.sorted buffer) (95 # 100))) with false;
    [done|].
  symmetry. apply Qltb_ge, Hfast, percentile_in_buffer; [|lia].
  intros E. by rewrite E in Es.
Qed.

Lemma fast_successes_make_a_model_healthy_witness :
  status (get_health "m" (replay [("m", 100%Q, true); ("n", 9000%Q, false);
                                  ("m", 4000%Q, true)]))
  = "healthy".
Proof.
  apply fast_successes_make_a_model_healthy. intros t ok Hin.
  change (records_of "m" [("m", 100%Q, true); ("n", 9000%Q, false); ("m", 4000%Q, true)])
    with [(100%Q, true); (4000%Q, true)] in Hin.
  repeat (apply elem_of_cons in Hin as [[= -> ->]|Hin]; [split; [done | lra]|]).
  by apply elem_of_nil in Hin.
Defined.

Lemma insert_sorted_Permutation (x : Q) (l : list Q) :
  RateLimit.insert_sorted x l ≡ₚ x :: l.
Proof.
  induction l as [|z l IH]; [done|]. simpl. destruct (Qle_bool x z); [done|].
  rewrite IH. apply Permutation_swap.
Qed.

Lemma sorted_Permutation (l : list Q) : RateLimit.sorted l ≡ₚ l.
Proof.
  induction l as [|x l IH]; [done|]. unfold RateLimit.sorted in *. simpl.
  by rewrite insert_sorted_Permutation, IH.
Qed.

Lemma count_Permutation (f : Q -> bool) (l l' : list Q) :
  l ≡ₚ l' -> length (List.filter f l) = length (List.filter f l').
Proof.
  induction 1 as [|x l l' _ IH|x y l|l l' l'' _ IH1 _ IH2]; simpl.
  - done.
  - destruct (f x); simpl; lia.
  - destruct (f x), (f y); simpl; lia.
  - lia.
Qed.

(** In a list in ascending order the entry of rank [k] is above a
    limit exactly when at most [k] entries are not. *)
Lemma rank_above (limit : Q) (l : list Q) :
  StronglySorted Qle l ->
  forall k : nat,
    (k < length l)%nat ->
    (limit < nth k l 0)%Q
    <-> (length (List.filter (fun t => Qle_bool t limit) l) <= k)%nat.
Proof.
  induction 1 as [|z l Hs IH Hall]; intros k Hk; [simpl in Hk; lia|].
  rewrite List.Forall_forall in Hall. simpl.
  destruct (Qle_bool z limit) eqn:Ez.
  - apply Qle_bool_iff in Ez. destruct k as [|k]; simpl.
    + split; [intros Hlt; lra | lia].
    + simpl in Hk. rewrite (IH k) by lia. lia.
  - assert (Hz : (limit < z)%Q).
    { destruct (Qlt_le_dec limit z) as [|Hle]; [done|].
      apply Qle_bool_iff in Hle. congruence. }
    assert (Hnone : List.filter (fun t => Qle_bool t limit) l = []).
    { clear IH Hk k. induction l as [|t l IHl]; [done|]. simpl.
      assert (Ht : (z <= t)%Q) by (apply Hall; by left).
      destruct (Qle_bool t limit) eqn:Et.
      - apply Qle_bool_iff in Et. lra.
      - apply IHl; [by inversion Hs|]. intros t' Ht'. apply Hall. by right. }
    rewrite Hnone. destruct k as [|k]; simpl.
    + split; [lia | done].
    + split; [lia|]. intros _. simpl in Hk.
      assert (Ht : (z <= nth k l 0)%Q) by (apply Hall, nth_In; lia). lra.
Qed.

Lemma p95_rank_index (n : nat) :
  (1 <= n)%nat ->
  Z.to_nat (Z.min ((Z.of_nat n * 95) `quot` 100) (Z.of_nat n - 1)) = p95_rank n.
Proof.
  intros Hn. unfold p95_rank. rewrite Z.quot_div_nonneg by lia.
  replace (Z.of_nat n * 95) with (Z.of_nat (n * 95)) by lia.
  change 100 with (Z.of_nat 100). rewrite <- Nat2Z.inj_div. lia.
Qed.

(** The 95th percentile that [get_health] compares with the limit
    is above it exactly when the 95th percentile of the buffer is. *)
Lemma reported_p95_exceeds (limit : Q) (buffer : list Q) :
  (0 <= limit)%Q ->
  (limit < get_percentile (RateLimit.sorted buffer) (95 # 100))%Q
  <-> p95_exceeds limit buffer.
Proof.
  intros Hlimit. destruct buffer as [|x buffer'] eqn:Eb.
  { simpl. split; [intros H; lra|].
    intros (asc & t & Hperm & _ & Hlook & _).
    apply Permutation_nil_r in Hperm. by subst asc. }
  rewrite <- Eb. assert (Hne : buffer <> []) by (by rewrite Eb). clear Eb x buffer'.
  assert (Hlen : (1 <= length buffer)%nat) by (destruct buffer; [done | simpl; lia]).
  assert (Htimes : RateLimit.sorted buffer <> []).
  { intros E. apply Hne. by apply sorted_nil. }
  rewrite get_percentile_index by done.
  rewrite sorted_length, p95_rank_index by done.
  assert (Hrank : (p95_rank (length buffer) < length buffer)%nat)
    by (unfold p95_rank; lia).
  split.
  - intros Hgt.
    destruct (lookup_lt_is_Some_2 (RateLimit.sorted buffer) (p95_rank (length buffer)))
      as [t Ht]; [by rewrite sorted_length|].
    rewrite (nth_lookup_Some _ _ 0%Q _ Ht) in Hgt.
    exists (RateLimit.sorted buffer), t.
    split; [apply sorted_Permutation|]. split; [apply sorted_ordered|]. done.
  - intros (asc & t & Hperm & Hasc & Hlook & Hgt).
    apply (rank_above limit _ (sorted_ordered buffer)); [by rewrite sorted_length|].
    rewrite (count_Permutation _ _ buffer) by apply sorted_Permutation.
    rewrite <- (count_Permutation _ asc buffer) by done.
    apply (rank_above limit _ Hasc).
    + by rewrite (Permutation_length Hperm).
    + by rewrite (nth_lookup_Some _ _ _ _ Hlook).
Qed.

(** C7. For every log of recorded requests, the status that
    [get_health] reports for a model is ["unhealthy"] exactly when the
    log ends with at least 3 failures of the model in a row or the
    share of successes among its recorded requests is below 0.8;
    otherwise it is ["degraded"] exactly when that share is below 0.95
    or the 95th percentile of the buffer, the response times of its
    last 100 requests, is above 5000 ms; otherwise it is ["healthy"].
    Three failures recorded in a row for the model make its status
    ["unhealthy"] whatever was recorded before. *)
Theorem health_status_rule (m : string) (log : list (string * Q * bool)) :
  let h := get_health m (replay log) in
  let outcomes := (records_of m log).*2 in
  let buffer := last_100 (records_of m log).*1 in
  let rate := success_rate_of outcomes in
  let bad := (3 <= trailing_failures outcomes)%nat \/ (rate < 8 # 10)%Q in
  let poor := (rate < 95 # 100)%Q \/ p95_exceeds 5000 buffer in
  (status h = "unhealthy" <-> bad) /\
  (status h = "degraded" <-> ~ bad /\ poor) /\
  (status h = "healthy" <-> ~ bad /\ ~ poor) /\
  (forall t1 t2 t3 : Q,
      status (get_health m (replay (log ++ [(m, t1, false); (m, t2, false);
                                            (m, t3, false)])))
      = "unhealthy").
Proof.
  intros h outcomes buffer rate bad poor.
  destruct (status_rule_of_the_report m log) as (Hbad & Hpoor & Hgood & Hthree).
  cbv zeta in Hbad, Hpoor, Hgood. fold h in Hbad, Hpoor, Hgood.
  assert (Hc : consecutive_failures h = Z.of_nat (trailing_failures outcomes)).
  { unfold h, get_health. cbn [consecutive_failures]. by rewrite replay_data. }
  assert (Hrate : success_rate h = rate).
  { unfold h, get_health. cbn [success_rate]. rewrite replay_data.
    cbn [data_of Data.successes Data.failures]. fold outcomes.
    assert (Hsplit : Z.of_nat (length (List.filter id outcomes))
                     + Z.of_nat (length (List.filter negb outcomes))
                     = Z.of_nat (length outcomes)).
    { clear. induction outcomes as [|[] l IH]; simpl; lia. }
    rewrite Hsplit. unfold rate, success_rate_of.
    destruct outcomes as [|ok l]; [done|]. rewrite decide_False by done.
    replace (0 <? Z.of_nat (length (ok :: l))) with true; [done|].
    symmetry. apply Z.ltb_lt. simpl. lia. }
  assert (Hp95 : (5000 < p95_response_time (metrics h))%Q <-> p95_exceeds 5000 buffer).
  { unfold h, get_health. cbn [metrics p95_response_time]. rewrite replay_data.
    cbn [data_of Data.response_times]. fold buffer.
    apply reported_p95_exceeds. lra. }
  rewrite Hc, Hrate in Hbad, Hpoor, Hgood. rewrite Hp95 in Hpoor, Hgood.
  assert (Hnat : 3 <= Z.of_nat (trailing_failures outcomes)
                 <-> (3 <= trailing_failures outcomes)%nat) by lia.
  rewrite Hnat in Hbad, Hpoor, Hgood.
  split; [exact Hbad|]. split; [exact Hpoor|]. split; [exact Hgood | exact Hthree].
Qed.

End HealthLog.

(** * More of the client *)

Section RetryShape.
Import Types Client Spec.

Variable generate_content :
  list Event -> option string -> string -> string -> ApiError + RawResponse.

Lemma removelast_retry_events o key m p r j :
  removelast (retry_events o key m p r (S j))
  = Invoke key m p :: Sleep (delay o (r + 1))
           :: removelast (retry_events o key m p (r + 1) j).
Proof.
  cbn [retry_events].
  destruct (retry_events o key m p (r + 1) j) eqn:E;
    [by apply retry_events_not_nil in E | done].
Qed.

Lemma backoff_cases (o : GemBackOptions) (retries : Z) :
  (retries <= 1024 /\ backoff o retries = inr (delay o retries)) \/
  (1024 < retries /\ backoff o retries = inl overflow_error).
Proof.
  destruct (decide (retries <= 1024)) as [Hle|Hgt].
  - left. split; [done|]. by apply backoff_converts.
  - right. split; [lia|]. apply backoff_overflows. lia.
Qed.

(** The loop of [_generate_with_retry], whatever the SDK answers: it
    is a run of [j + 1] calls with the scheduled sleeps between them,
    every call but the last one failed with a retryable error, and the
    result is the answer of the last call, unless the loop was about
    to retry once more with a counter past 1024: then it is the
    [OverflowError] of the delay. *)
Lemma retry_loop_shape (o : GemBackOptions) (key : option string) (m p : string) :
  forall (fuel : nat) (retries : Z) (h : list Event),
    Z.to_nat (max_retries o - retries) = fuel ->
    exists j : nat,
      (j = O \/ retries + Z.of_nat j <= max_retries o) /\
      (forall k : nat, (k < j)%nat -> retries + Z.of_nat k < 1024) /\
      (retry_loop generate_content o key m p retries h).2
      = h ++ retry_events o key m p retries j /\
      ((retry_loop generate_content o key m p retries h).1
       = generate_content (h ++ removelast (retry_events o key m p retries j)) key m p \/
       (1024 <= retries + Z.of_nat j < max_retries o /\
        (retry_loop generate_content o key m p retries h).1 = inl overflow_error /\
        exists e,
          generate_content (h ++ removelast (retry_events o key m p retries j)) key m p
          = inl e /\
          transient e /\ status_of e <> Some 429)) /\
      (forall k : nat,
          (k < j)%nat ->
          exists e,
            generate_content (h ++ removelast (retry_events o key m p retries k)) key m p
            = inl e /\
            transient e /\ status_of e <> Some 429).
Proof.
  induction fuel as [|fuel IH]; intros retries h Hfuel.
  - exists O. rewrite retry_loop_turn. simpl. rewrite app_nil_r.
    destruct (generate_content h key m p) as [e|response] eqn:He.
    + repeat case_decide; try (destruct H0; lia);
        (split; [by left|]; split; [intros k Hk; lia|]; split; [done|];
         split; [by left|]; intros k Hk; lia).
    + split; [by left|]. split; [intros k Hk; lia|]. split; [done|].
      split; [by left|]. intros k Hk. lia.
  - rewrite retry_loop_turn.
    destruct (generate_content h key m p) as [e|response] eqn:He.
    2:{ exists O. simpl. rewrite app_nil_r, He.
        split; [by left|]. split; [intros k Hk; lia|]. split; [done|].
        split; [by left|]. intros k Hk. lia. }
    destruct (decide (status_of e = Some 429)) as [H429|H429].
    { exists O. simpl. rewrite app_nil_r, He.
      split; [by left|]. split; [intros k Hk; lia|]. split; [done|].
      split; [by left|]. intros k Hk. lia. }
    destruct (decide (is_retryable e = true /\ retries < max_retries o)) as [[Hre Hlt]|Hno].
    2:{ exists O. simpl. rewrite app_nil_r, He.
        split; [by left|]. split; [intros k Hk; lia|]. split; [done|].
        split; [by left|]. intros k Hk. lia. }
    destruct (backoff_cases o (retries + 1)) as [[Hconv ->]|[Hover ->]].
    2:{ exists O. simpl. rewrite app_nil_r, He.
        split; [by left|]. split; [intros k Hk; lia|]. split; [done|].
        split; [|intros k Hk; lia].
        right. split; [lia|]. split; [done|]. exists e. split; [done|].
        split; [by apply transient_is_retryable | done]. }
    destruct (IH (retries + 1)
                 (h ++ [Invoke key m p] ++ [Sleep (delay o (retries + 1))])
                 ltac:(lia)) as (j & Hj & Hcount & Hsnd & Hfst & Hcalls).
    exists (S j). split; [right; lia|]. split; [|split; [|split]].
    + intros [|k] Hk; [lia|]. specialize (Hcount k ltac:(lia)). lia.
    + rewrite Hsnd. cbn [retry_events]. by rewrite <- !app_assoc.
    + rewrite removelast_retry_events.
      destruct Hfst as [Hfst|(Hbound & Hfst & e' & He' & Htr & Hn429)].
      * left. rewrite Hfst. by rewrite <- !app_assoc.
      * right. split; [lia|]. split; [done|]. exists e'. split; [|done].
        rewrite <- He'. by rewrite <- !app_assoc.
    + intros [|k] Hk.
      * exists e. simpl. rewrite app_nil_r. split; [done|]. split; [|done].
        by apply transient_is_retryable.
      * destruct (Hcalls k ltac:(lia)) as (e' & He' & Htr & Hn429).
        exists e'. rewrite removelast_retry_events. split; [|done].
        rewrite <- He'. by rewrite <- !app_assoc.
Qed.

(** X17. Whatever the SDK answers, with delays within the range of
    the finite floats, [_generate_with_retry] awaits a call, then at
    most [max_retries] times, and at most 1024 times, a sleep and a
    call; the [k]-th sleep, counted from 0, lasts
    [retry_delay * 2 ^ k]; a call is repeated only after a retryable
    error that is not a 429. What is returned or raised is the answer
    of the last call, but for a budget above 1024 used to the 1024th
    retry, where a 1025th one is due: there the delay [retry_delay *
    2 ** 1024] raises [OverflowError], which is what leaves the
    function. *)
Theorem retry_loop_is_bounded_and_returns_the_last_answer
        (o : GemBackOptions) (key : option string) (m p : string) (h : list Event) :
  in_float_range (retry_delay o * inject_Z (2 ^ (Z.min (max_retries o) 1024 - 1))) ->
  let run := _generate_with_retry generate_content o key m p h in
  exists j : nat,
    Z.of_nat j <= Z.max 0 (Z.min (max_retries o) 1024) /\
    run.2 = h ++ retry_events o key m p 0 j /\
    invocations (retry_events o key m p 0 j) = S j /\
    (forall k : nat,
        (k < j)%nat ->
        delays (retry_events o key m p 0 j) !! k
        = Some (Py.Fin (retry_delay o * inject_Z (2 ^ Z.of_nat k))) /\
        exists e,
          generate_content (h ++ removelast (retry_events o key m p 0 k)) key m p = inl e /\
          transient e /\ status_of e <> Some 429) /\
    (run.1 = generate_content (h ++ removelast (retry_events o key m p 0 j)) key m p \/
     (j = 1024%nat /\ 1024 < max_retries o /\
      run.1 = inl overflow_error /\
      exists e,
        generate_content (h ++ removelast (retry_events o key m p 0 j)) key m p = inl e /\
        transient e /\ status_of e <> Some 429)).
Proof.
  intros Hrange run.
  destruct (retry_loop_shape o key m p _ 0 h eq_refl)
    as (j & Hj & Hcount & Hsnd & Hfst & Hcalls).
  fold (_generate_with_retry generate_content o key m p h) in Hsnd, Hfst. fold run in Hsnd, Hfst.
  assert (Hj1024 : Z.of_nat j <= 1024).
  { destruct j as [|j]; [lia|]. specialize (Hcount j ltac:(lia)). lia. }
  exists j. split; [lia|]. split; [done|].
  split; [apply invocations_retry_events|]. split.
  - intros k Hk. split; [|by apply Hcalls].
    rewrite delays_retry_events by done.
    rewrite (delay_in_range o _ (Z.min (max_retries o) 1024)) by (done || lia).
    do 5 f_equal. lia.
  - destruct Hfst as [Hfst|(Hbound & Hfst & He)]; [by left|].
    right. split; [lia|]. split; [lia|]. done.
Qed.

End RetryShape.

Section GenerateOutcomes.
Import Types Client Spec.

Variable clock : list Event -> Q.
Variable generate_content :
  list Event -> option string -> string -> string -> ApiError + RawResponse.

Lemma same_setup_refl (c : GemBack) : same_setup c c.
Proof. by unfold same_setup. Qed.

Lemma same_setup_trans (c1 c2 c3 : GemBack) :
  same_setup c1 c2 -> same_setup c2 c3 -> same_setup c1 c3.
Proof.
  intros (Ho & Hk & Ht & Hm) (Ho' & Hk' & Ht' & Hm'). unfold same_setup.
  split; [congruence|]. split; [congruence|]. split; tauto.
Qed.

Lemma predict_keeps (m : string) (st : State) :
  exists st1,
    predict clock m st = (Returns tt, st1) /\
    history st1 = history st /\
    same_setup (self st) (self st1) /\
    rotator (self st1) = rotator (self st) /\
    health_monitor (self st1) = health_monitor (self st).
Proof.
  destruct (predict_returns clock m st) as [t Ht].
  exists (set_tracker t st). split; [done|]. split; [done|]. split; [|done].
  assert (Ht' : rate_limit_tracker (self (predict clock m st).2) = t) by (by rewrite Ht).
  unfold same_setup. cbn [set_tracker self options _single_key rate_limit_tracker
                           health_monitor].
  split; [done|]. split; [done|]. split; [|done].
  rewrite <- Ht'. clear. unfold predict.
  destruct (rate_limit_tracker (self st)) as [tr|] eqn:E; [|simpl; by rewrite E].
  destruct (RateLimit.would_exceed_limit m (now clock st) tr) as [[] tr1].
  - destruct (RateLimit.get_recommended_wait_time _ _ _ _) as [[w|ex] tr2];
      simpl; split; eauto.
  - simpl; split; eauto.
Qed.

Lemma track_keeps (m : string) (st : State) :
  history (track clock m st) = history st /\
  same_setup (self st) (self (track clock m st)) /\
  rotator (self (track clock m st)) = rotator (self st) /\
  health_monitor (self (track clock m st)) = health_monitor (self st).
Proof.
  unfold track, same_setup. destruct (rate_limit_tracker (self st)) as [tr|] eqn:E.
  - simpl. repeat split; eauto.
  - rewrite E. done.
Qed.

Lemma monitor_keeps (m : string) (d : Q) (ok : bool) (st : State) :
  history (monitor m d ok st) = history st /\
  same_setup (self st) (self (monitor m d ok st)) /\
  rotator (self (monitor m d ok st)) = rotator (self st) /\
  health_monitor (self (monitor m d ok st))
  = Health.record_request m d ok <$> health_monitor (self st).
Proof.
  unfold monitor, same_setup. destruct (health_monitor (self st)) as [hm|] eqn:E.
  - simpl. repeat split; eauto.
  - rewrite E. done.
Qed.

(** One turn of the loop of [generate]: the model is predicted,
    tracked and run through the retry loop; its outcome is monitored
    with the time that the run took on the clock; then the loop
    returns the response, aborts on an authentication status or goes
    on with the other models. *)
Lemma generate_loop_turn (key : option string) (key_index : option Z) (p m : string)
      (rest : list string) (attempts : list AttemptRecord) (st : State) :
  let run := _generate_with_retry generate_content (options (self st)) key m p (history st) in
  exists st',
    same_setup (self st) (self st') /\
    rotator (self st') = rotator (self st) /\
    history st' = run.2 /\
    health_monitor (self st')
    = Health.record_request m ((clock run.2 - clock (history st)) * 1000)
                            match run.1 with inl _ => false | inr _ => true end
        <$> health_monitor (self st) /\
    generate_loop clock generate_content key key_index p (m :: rest) attempts st
    = match run.1 with
      | inr response =>
          (Returns {| text := text_of response; model := m; raw_response := response |},
           rotator_record Rotators.record_success key_index st')
      | inl e =>
          let attempts' :=
            attempts ++ [{| ar_model := m; ar_error := message e;
                            ar_timestamp := clock run.2;
                            ar_status_code := status_of e |}] in
          if is_auth (status_of e)
          then (Raises (GeminiBackError "Authentication failed" "AUTH_ERROR" attempts'
                                        (status_of e) (Some m)),
                rotator_record Rotators.record_failure key_index st')
          else generate_loop clock generate_content key key_index p rest attempts' st'
      end.
Proof.
  intros run. cbn [generate_loop].
  destruct (predict_keeps m st) as (st1 & -> & Hh1 & Hs1 & Hr1 & Hm1).
  destruct (track_keeps m st1) as (Hh2 & Hs2 & Hr2 & Hm2).
  pose proof (same_setup_trans _ _ _ Hs1 Hs2) as Hs.
  assert (Ho : options (self (track clock m st1)) = options (self st)) by apply Hs.
  rewrite Ho, Hh2, Hh1. fold run. unfold now. rewrite Hh1.
  destruct run as [[e|response] h'] eqn:Erun; cbn [fst snd set_history history].
  - match goal with
    | |- context [monitor m ?d false ?s] =>
        destruct (monitor_keeps m d false s) as (Hh3 & Hs3 & Hr3 & Hm3);
        exists (monitor m d false s)
    end.
    cbn [set_history self history] in *.
    split; [by eapply same_setup_trans|]. split; [congruence|]. split; [done|].
    split; [by rewrite Hm3, Hm2, Hm1|]. cbv zeta. by rewrite Hh3.
  - match goal with
    | |- context [monitor m ?d true ?s] =>
        destruct (monitor_keeps m d true s) as (Hh3 & Hs3 & Hr3 & Hm3);
        exists (monitor m d true s)
    end.
    cbn [set_history self history] in *.
    split; [by eapply same_setup_trans|]. split; [congruence|]. split; [done|].
    split; [by rewrite Hm3, Hm2, Hm1|]. done.
Qed.

Lemma retry_events_last o key m p r j :
  retry_events o key m p r j
  = removelast (retry_events o key m p r j) ++ [Invoke key m p].
Proof.
  revert r. induction j as [|j IH]; intros r; [done|].
  rewrite removelast_retry_events. cbn [retry_events]. rewrite (IH (r + 1)) at 1. done.
Qed.

Lemma uses_retry_events o key m p r j :
  (forall k : nat, (k < j)%nat -> exists x, delay o (r + 1 + Z.of_nat k) = Py.Fin x) ->
  Forall (uses key p [m]) (retry_events o key m p r j).
Proof.
  revert r. induction j as [|j IH]; intros r Hfin; cbn [retry_events].
  - apply Forall_cons. split; [|done]. simpl. repeat split. by left.
  - apply Forall_cons. split; [simpl; repeat split; by left|].
    apply Forall_cons. split.
    + destruct (Hfin O ltac:(lia)) as [x Hx]. rewrite Z.add_0_r in Hx. by rewrite Hx.
    + apply IH. intros k Hk. destruct (Hfin (S k) ltac:(lia)) as [x Hx].
      exists x. rewrite <- Hx. f_equal. lia.
Qed.

Lemma uses_mono key p (models models' : list string) (ev : Event) :
  models ⊆ models' -> uses key p models ev -> uses key p models' ev.
Proof.
  intros Hsub. destruct ev as [k m q| |d]; simpl; [|done..].
  intros (? & ? & ?). repeat split; [done..|]. by apply Hsub.
Qed.

(** The loop of [generate] over any list of models, whatever the SDK
    answers: the state it ends in is the one reached by the turns of
    the loop, with one record of a success or of a failure for the
    credential; the events awaited are calls with the credential and
    the prompt for models of the list, and sleeps. *)
Lemma generate_loop_outcomes (key : option string) (key_index : option Z) (p : string)
      (models : list string) :
  forall (attempts : list AttemptRecord) (st : State),
  in_float_range (retry_delay (options (self st))
                  * inject_Z (2 ^ (Z.min (max_retries (options (self st))) 1024 - 1))) ->
  exists (st' : State) (events : list Event),
    let out := generate_loop clock generate_content key key_index p models attempts st in
    out.2 = rotator_record
              match out.1 with
              | Returns _ => Rotators.record_success
              | Raises _ => Rotators.record_failure
              end key_index st' /\
    same_setup (self st) (self st') /\
    rotator (self st') = rotator (self st) /\
    history st' = history st ++ events /\
    Forall (uses key p models) events /\
    generate_outcome generate_content key p models (history st) events attempts out.1.
Proof.
  induction models as [|m rest IH]; intros attempts st Hrange.
  - exists st, []. cbn [generate_loop fst snd]. split; [done|].
    split; [apply same_setup_refl|]. split; [done|]. split; [by rewrite app_nil_r|].
    split; [done|]. exists []. rewrite app_nil_r. split; [done|]. left. done.
  - destruct (generate_loop_turn key key_index p m rest attempts st)
      as (st1 & Hs1 & Hr1 & Hh1 & _ & Hloop).
    destruct (retry_loop_shape generate_content (options (self st)) key m p _ 0
                               (history st) eq_refl)
      as (j & Hj & Hcount & Hsnd & Hfst & _).
    fold (_generate_with_retry generate_content (options (self st)) key m p (history st))
      in Hsnd, Hfst.
    cbv zeta in Hloop. rewrite Hsnd in Hh1.
    assert (Huses1 : Forall (uses key p (m :: rest))
                            (retry_events (options (self st)) key m p 0 j)).
    { eapply Forall_impl.
      - apply uses_retry_events. intros k Hk. eexists.
        apply (delay_in_range _ _ (Z.min (max_retries (options (self st))) 1024));
          [|exact Hrange].
        specialize (Hcount k Hk). lia.
      - intros ev. apply uses_mono. intros x Hx.
        apply list_elem_of_singleton in Hx as ->. by left. }
    assert (Hrange1 : in_float_range
                        (retry_delay (options (self st1))
                         * inject_Z (2 ^ (Z.min (max_retries (options (self st1))) 1024 - 1))))
      by (destruct Hs1 as [-> _]; exact Hrange).
    clear Hj Hcount.
    set (events1 := retry_events (options (self st)) key m p 0 j) in *.
    rewrite Hloop. clear Hloop.
    destruct (_generate_with_retry generate_content (options (self st)) key m p
                                   (history st)).1 as [e|response] eqn:Eans.
    + destruct (is_auth (status_of e)) eqn:Eauth.
      * exists st1, events1. cbn [fst snd]. split; [done|]. split; [done|].
        split; [done|]. split; [done|]. split; [done|].
        eexists [_]. split; [done|]. right. split; [done|]. split; [done|].
        split; [done|]. eexists [], _. split; [done|]. split; [done|]. split; [done|].
        split; [|done]. simpl. by exists rest.
      * match goal with
        | |- context [generate_loop _ _ _ _ _ rest ?a st1] =>
            destruct (IH a st1 Hrange1)
              as (st' & events2 & Hout & Hs2 & Hr2 & Hh2 & Huses2 & Hres);
            set (attempts' := a) in *
        end.
        cbv zeta in Hout, Hres.
        exists st', (events1 ++ events2). cbv zeta.
        split; [done|]. split; [by eapply same_setup_trans|]. split; [congruence|].
        split; [by rewrite Hh2, Hh1, <- app_assoc|].
        split.
        { apply Forall_app. split; [done|].
          eapply Forall_impl; [exact Huses2|]. intros ev. apply uses_mono.
          intros x Hx. by right. }
        destruct (generate_loop clock generate_content key key_index p rest attempts' st1).1
          as [g|ex]; cbn [generate_outcome] in *.
        -- destruct Hres as (Hin & Htext & before & Hev & Hans).
           split; [by right|]. split; [done|].
           exists (events1 ++ before). split; [by rewrite Hev, <- app_assoc|].
           by rewrite Hh1, <- app_assoc in Hans.
        -- destruct ex as [| | | |msg code atts status mdl]; try done.
           destruct Hres as (new & Hatts & Hcases).
           eexists (_ :: new). split; [by rewrite Hatts; unfold attempts'; rewrite <- app_assoc|].
           destruct Hcases as [(-> & -> & Hnew & -> & -> & Hall)
                              |(-> & -> & Hst & tried & a & -> & Ha & -> & Hpre & Hall)].
           ++ left. split; [done|]. split; [done|].
              split; [by rewrite fmap_cons, Hnew|]. split; [done|]. split; [done|].
              apply Forall_cons. by split.
           ++ right. split; [done|]. split; [done|]. split; [done|].
              eexists (_ :: tried), a. split; [done|]. split; [done|]. split; [done|].
              split; [|apply Forall_cons; by split].
              rewrite fmap_cons. cbn [ar_model]. by apply prefix_cons.
    + exists st1, events1. cbn [fst snd]. split; [done|]. split; [done|].
      split; [done|]. split; [done|]. split; [done|].
      cbn [generate_outcome model text raw_response].
      split; [by left|]. split; [done|].
      exists (removelast events1). split; [apply retry_events_last|].
      destruct Hfst as [Hfst|(_ & Hfst & _)]; [by rewrite <- Hfst | done].
Qed.

(** X18. A model whose retry loop returns a response ends the call of
    [generate]: the response is returned under the name of the model,
    nothing more is awaited, so the models after it are not tried; the
    health monitor, when there is one, records a success with the time
    that went by on the clock since the turn began, retries and sleeps
    included; and a client that holds a rotator records one success for
    the credential of the call. *)
Theorem a_model_that_answers_ends_the_call
        (key : option string) (key_index : option Z) (p m : string) (rest : list string)
        (attempts : list AttemptRecord) (st : State) (response : RawResponse)
        (h' : list Event) :
  _generate_with_retry generate_content (options (self st)) key m p (history st)
  = (inr response, h') ->
  exists st',
    generate_loop clock generate_content key key_index p (m :: rest) attempts st
    = (Returns {| text := text_of response; model := m; raw_response := response |}, st') /\
    history st' = h' /\
    health_monitor (self st')
    = Health.record_request m ((clock h' - clock (history st)) * 1000) true
        <$> health_monitor (self st) /\
    (forall r i,
        rotator (self st) = Some r -> key_index = Some i ->
        rotator (self st') = Some (Rotators.record_success i r)) /\
    (rotator (self st) = None \/ key_index = None ->
     rotator (self st') = rotator (self st)).
Proof.
  intros Hrun.
  destruct (generate_loop_turn key key_index p m rest attempts st)
    as (st1 & Hs1 & Hr1 & Hh1 & Hm1 & Hloop).
  cbv zeta in *. rewrite Hrun in *. cbn [fst snd] in *.
  eexists. split; [exact Hloop|].
  unfold rotator_record. rewrite Hr1.
  destruct (rotator (self st)) as [r|] eqn:Er, key_index as [i|];
    cbn [set_rotator self history health_monitor rotator];
    (split; [done|]); (split; [done|]); split; try done.
  - by intros r0 i0 [= <-] [= <-].
  - by intros [|].
Qed.

(** X19. The loop of [generate] on a client without a rate limit
    tracker, so that no prediction is run, and with delays within the
    range of the finite floats, whatever the SDK answers. The events
    awaited are SDK calls with the credential and the prompt, for
    models of the list, and sleeps of finite delays. The loop returns
    the answer of its last SDK call, or raises [GeminiBackError] with
    the code [ALL_MODELS_FAILED] (one more attempt for each model, in
    order) or [AUTH_ERROR] (the attempts added are for the models at
    the head of the list, up to the one that was refused); it raises
    nothing else. The rotator, when there is one and the credential
    has an index, has recorded one success after a response and one
    failure after an error, and nothing else of it has changed. *)
Theorem the_loop_of_generate_ends_in_one_of_three_ways
        (key : option string) (key_index : option Z) (p : string) (models : list string)
        (attempts : list AttemptRecord) (st : State) :
  rate_limit_tracker (self st) = None ->
  in_float_range (retry_delay (options (self st))
                  * inject_Z (2 ^ (Z.min (max_retries (options (self st))) 1024 - 1))) ->
  exists events : list Event,
    let out := generate_loop clock generate_content key key_index p models attempts st in
    history out.2 = history st ++ events /\
    Forall (uses key p models) events /\
    generate_outcome generate_content key p models (history st) events attempts out.1 /\
    options (self out.2) = options (self st) /\
    rate_limit_tracker (self out.2) = None /\
    rotator (self out.2)
    = rotator (self (rotator_record
                       match out.1 with
                       | Returns _ => Rotators.record_success
                       | Raises _ => Rotators.record_failure
                       end key_index st)).
Proof.
  intros Htr Hrange.
  destruct (generate_loop_outcomes key key_index p models attempts st Hrange)
    as (st' & events & Hout & Hs & Hr & Hh & Huses & Hres).
  cbv zeta in *. exists events. rewrite Hout.
  set (f := match (generate_loop clock generate_content key key_index p models attempts st).1
            with
            | Returns _ => Rotators.record_success
            | Raises _ => Rotators.record_failure
            end) in *.
  destruct Hs as (Ho & _ & Hsome & _).
  assert (Htr' : rate_limit_tracker (self st') = None).
  { rewrite Htr in Hsome. destruct (rate_limit_tracker (self st')) as [tr|]; [|done].
    destruct Hsome as [Hsome _]. destruct Hsome as [? ?]; [eauto|done]. }
  unfold rotator_record. rewrite Hr.
  destruct (rotator (self st)) as [r|] eqn:Er, key_index as [i|];
    cbn [set_rotator self history options rate_limit_tracker rotator];
    do 5 (split; [done|]); try done; by rewrite Hr.
Qed.

End GenerateOutcomes.

Section StreamOutcomes.
Import Types Client Spec.

Variable clock : list Event -> Q.
Variable generate_content_stream :
  list Event -> option string -> string -> string -> Stream.

Lemma get_api_key_keeps (st st1 : State) (res : outcome Rotators.KeyInfo) :
  _get_api_key clock st = (res, st1) ->
  history st1 = history st /\ same_setup (self st) (self st1).
Proof.
  unfold _get_api_key. destruct (rotator (self st)) as [r|].
  - destruct (Rotators.get_next_key (now clock st) r) as [res' r'].
    intros [= _ <-]. split; [done|]. by unfold same_setup.
  - intros [= _ <-]. split; [done|]. apply same_setup_refl.
Qed.

Lemma stream_attempts_cons (m : string) (s : Stream) (l : list (string * Stream)) :
  stream_attempts ((m, s) :: l)
  = match failure s with
    | Some e => (m, message e) :: stream_attempts l
    | None => stream_attempts l
    end.
Proof. unfold stream_attempts. simpl. by destruct (failure s). Qed.

(** X20. The loop of [generate_stream] over any list of models, whatever
    the SDK streams. The models are tried in order, one streaming call
    each, up to the first stream that yields a fragment and ends
    normally; when there is none the call raises [GeminiBackError]
    with the code [ALL_MODELS_FAILED], after every model, and with one
    more attempt, without a status, for each stream that raised. The
    consumer is handed the fragments of every stream tried, in order,
    those of the streams that raised included. Unlike [generate], the
    call records neither a success nor a failure to the rotator. *)
Theorem stream_tries_models_until_one_yields_and_ends :
  (forall (key : option string) (p : string) (models : list string)
          (attempts : list AttemptRecord) (yielded : list string) (st : State),
      exists tried : list string,
        let out := stream_loop clock generate_content_stream key p models attempts
                               yielded st in
        let streams := streams_of generate_content_stream key p tried (history st) in
        tried `prefix_of` models /\
        history out.2 = history st ++ stream_events key p tried /\
        out.1.2 = yielded ++ concat (chunks <$> streams) /\
        rotator (self out.2) = rotator (self st) /\
        same_setup (self st) (self out.2) /\
        match out.1.1 with
        | Returns _ =>
            exists before s,
              streams = before ++ [s] /\ Forall fruitless before /\
              chunks s <> [] /\ failure s = None
        | Raises ex =>
            tried = models /\ Forall fruitless streams /\
            exists new,
              ex = GeminiBackError "All models failed for stream" "ALL_MODELS_FAILED"
                                   (attempts ++ new) None None /\
              (fun a => (ar_model a, ar_error a)) <$> new
              = stream_attempts (zip tried streams) /\
              Forall (fun a => ar_status_code a = None) new
        end) /\
  (forall (p : string) (model : option string) (st st1 : State)
          (key_info : Rotators.KeyInfo),
      _get_api_key clock st = (Returns key_info, st1) ->
      rotator (self (generate_stream clock generate_content_stream p model st).2)
      = rotator (self st1)).
Proof.
  assert (Hloop :
    forall (key : option string) (p : string) (models : list string)
           (attempts : list AttemptRecord) (yielded : list string) (st : State),
      exists tried : list string,
        let out := stream_loop clock generate_content_stream key p models attempts
                               yielded st in
        let streams := streams_of generate_content_stream key p tried (history st) in
        tried `prefix_of` models /\
        history out.2 = history st ++ stream_events key p tried /\
        out.1.2 = yielded ++ concat (chunks <$> streams) /\
        rotator (self out.2) = rotator (self st) /\
        same_setup (self st) (self out.2) /\
        match out.1.1 with
        | Returns _ =>
            exists before s,
              streams = before ++ [s] /\ Forall fruitless before /\
              chunks s <> [] /\ failure s = None
        | Raises ex =>
            tried = models /\ Forall fruitless streams /\
            exists new,
              ex = GeminiBackError "All models failed for stream" "ALL_MODELS_FAILED"
                                   (attempts ++ new) None None /\
              (fun a => (ar_model a, ar_error a)) <$> new
              = stream_attempts (zip tried streams) /\
              Forall (fun a => ar_status_code a = None) new
        end).
  { intros key p models. induction models as [|m rest IH]; intros attempts yielded st.
    - exists []. cbn [stream_loop streams_of fst snd]. split; [done|].
      split; [by rewrite app_nil_r|]. split; [by rewrite app_nil_r|]. split; [done|].
      split; [apply same_setup_refl|]. split; [done|]. split; [done|].
      exists []. by rewrite app_nil_r.
    - cbn [stream_loop].
      destruct (track_keeps clock m st) as (Hh1 & Hs1 & Hr1 & _).
      set (st1 := track clock m st) in *. rewrite Hh1.
      set (s := generate_content_stream (history st) key m p).
      set (st2 := set_history (history st ++ [InvokeStream key m p]) st1).
      destruct (failure s) as [e|] eqn:Efail; [|destruct (chunks s) as [|c cs] eqn:Echunks].
      + match goal with
        | |- context [monitor m ?d false st2] =>
            destruct (monitor_keeps m d false st2) as (Hh3 & Hs3 & Hr3 & _);
            set (st3 := monitor m d false st2) in *
        end.
        match goal with
        | |- context [stream_loop _ _ _ _ rest ?a ?y st3] =>
            destruct (IH a y st3) as (tried & Hpre & Hh & Hout & Hr & Hs & Hres)
        end.
        cbv zeta in *.
        assert (Hh3' : history st3 = history st ++ [InvokeStream key m p])
          by (by rewrite Hh3).
        rewrite Hh3' in Hh, Hout, Hres.
        exists (m :: tried). cbn [streams_of]. fold s.
        split; [by apply prefix_cons|].
        split; [rewrite Hh; unfold stream_events; rewrite fmap_cons;
                by rewrite <- app_assoc|].
        split; [rewrite Hout, fmap_cons; cbn [concat]; by rewrite <- app_assoc|].
        split; [rewrite Hr, Hr3; exact Hr1|].
        split; [eapply same_setup_trans; [exact Hs1|];
                eapply same_setup_trans; [|exact Hs]; exact Hs3|].
        destruct (stream_loop _ _ _ _ _ _ _ _).1.1 as [[]|ex].
        * destruct Hres as (before & s' & Hstr & Hfr & Hch & Hfl).
          exists (s :: before), s'. split; [by rewrite Hstr|].
          split; [|done]. apply Forall_cons. split; [|done]. left. by rewrite Efail.
        * destruct Hres as (-> & Hfr & new & -> & Hnew & Hnone).
          split; [done|]. split.
          { apply Forall_cons. split; [|done]. left. by rewrite Efail. }
          eexists (_ :: new). split; [by rewrite <- app_assoc|]. split.
          -- rewrite fmap_cons. cbn [zip zip_with ar_model ar_error].
             rewrite stream_attempts_cons, Efail. f_equal. exact Hnew.
          -- apply Forall_cons. by split.
      + destruct (IH attempts (yielded ++ []) st2)
          as (tried & Hpre & Hh & Hout & Hr & Hs & Hres).
        cbv zeta in *.
        change (history st2) with (history st ++ [InvokeStream key m p]) in Hh, Hout, Hres.
        exists (m :: tried). cbn [streams_of]. fold s.
        split; [by apply prefix_cons|].
        split; [rewrite Hh; unfold stream_events; rewrite fmap_cons;
                by rewrite <- app_assoc|].
        split; [rewrite Hout, fmap_cons, Echunks; cbn [concat]; by rewrite <- app_assoc|].
        split; [rewrite Hr; exact Hr1|].
        split; [eapply same_setup_trans; [exact Hs1|]; exact Hs|].
        destruct (stream_loop _ _ _ _ _ _ _ _).1.1 as [[]|ex].
        * destruct Hres as (before & s' & Hstr & Hfr & Hch & Hfl).
          exists (s :: before), s'. split; [by rewrite Hstr|].
          split; [|done]. apply Forall_cons. split; [|done]. by right.
        * destruct Hres as (-> & Hfr & new & -> & Hnew & Hnone).
          split; [done|]. split.
          { apply Forall_cons. split; [|done]. by right. }
          exists new. split; [done|]. split; [|done].
          cbn [zip zip_with]. rewrite stream_attempts_cons, Efail. exact Hnew.
      + match goal with
        | |- context [monitor m ?d true st2] =>
            destruct (monitor_keeps m d true st2) as (Hh3 & Hs3 & Hr3 & _);
            set (st3 := monitor m d true st2) in *
        end.
        cbn [set_history history self] in *.
        exists [m]. cbn [streams_of fst snd]. fold s.
        split; [by apply prefix_cons, prefix_nil|]. split; [done|].
        split; [cbn [fmap list_fmap concat]; by rewrite app_nil_r, Echunks|].
        split; [rewrite Hr3; exact Hr1|].
        split; [eapply same_setup_trans; [exact Hs1|]; exact Hs3|].
        exists [], s. split; [done|]. split; [done|]. split; [by rewrite Echunks | done]. }
  split; [exact Hloop|].
  intros p model st st1 key_info Hkey. unfold generate_stream. rewrite Hkey.
  destruct (Hloop (Rotators.key key_info) p (models_to_try model st) [] [] st1)
    as (tried & _ & _ & _ & Hr & _).
  exact Hr.
Qed.

End StreamOutcomes.

Section FallbackStats.
Import Types Client Spec.

Variable clock : list Event -> Q.

Lemma get_status_lookup (m m' : string) (now : Q) (tr : RateLimit.RateLimitTracker) :
  RateLimit.request_timestamps (RateLimit.get_status m now tr).2 !! m'
  = if decide (m' = m)
    then RateLimit.newer_than (now - 300) <$> RateLimit.request_timestamps tr !! m'
    else RateLimit.request_timestamps tr !! m'.
Proof.
  unfold RateLimit.get_status. cbn [snd].
  destruct (decide (m' = m)) as [->|Hne].
  - destruct (RateLimit.request_timestamps tr !! m) as [l|] eqn:E.
    + unfold RateLimit._cleanup. cbn [RateLimit.request_timestamps].
      by rewrite lookup_alter_eq, E.
    + by rewrite E.
  - destruct (RateLimit.request_timestamps tr !! m) as [l|] eqn:E; [|done].
    unfold RateLimit._cleanup. cbn [RateLimit.request_timestamps].
    by rewrite lookup_alter_ne.
Qed.

(** The list comprehension over [get_status]: every status is the one
    that the tracker gives for the model when asked about it alone,
    and the tracker ends with the entries of the models asked about
    pruned. *)
Lemma status_list_spec (t : Q) (models : list string) :
  forall tr : RateLimit.RateLimitTracker,
    (status_list t models tr).1 = (fun m => (RateLimit.get_status m t tr).1) <$> models /\
    forall m,
      RateLimit.request_timestamps (status_list t models tr).2 !! m
      = if decide (m ∈ models)
        then RateLimit.newer_than (t - 300) <$> RateLimit.request_timestamps tr !! m
        else RateLimit.request_timestamps tr !! m.
Proof.
  induction models as [|m rest IH]; intros tr.
  - split; [done|]. intros m. rewrite decide_False; [done|]. apply not_elem_of_nil.
  - cbn [status_list].
    destruct (RateLimit.get_status m t tr) as [s tr1] eqn:Est.
    destruct (IH tr1) as [Hss Hts].
    destruct (status_list t rest tr1) as [ss tr2]. cbn [fst snd] in *.
    assert (Htr1 : forall m',
               RateLimit.request_timestamps tr1 !! m'
               = if decide (m' = m)
                 then RateLimit.newer_than (t - 300)
                        <$> RateLimit.request_timestamps tr !! m'
                 else RateLimit.request_timestamps tr !! m').
    { intros m'. rewrite <- (get_status_lookup m m' t tr). by rewrite Est. }
    split.
    + rewrite fmap_cons, Est. cbn [fst]. f_equal. rewrite Hss.
      apply list_fmap_ext. intros _ m' _. apply get_status_fst_ext.
      rewrite Htr1. destruct (decide (m' = m)) as [->|]; [|done].
      destruct (RateLimit.request_timestamps tr !! m) as [l|]; [|done].
      cbn [fmap option_fmap option_map from_option id]. apply newer_than_idem.
    + intros x. rewrite Hts, Htr1.
      destruct (decide (x ∈ rest)) as [Hin|Hnin], (decide (x = m)) as [->|Hne].
      * rewrite decide_True by (by left).
        destruct (RateLimit.request_timestamps tr !! m) as [l|]; [|done].
        cbn [fmap option_fmap option_map]. by rewrite newer_than_idem.
      * by rewrite decide_True by (by right).
      * by rewrite decide_True by (by left).
      * rewrite decide_False; [done|]. intros Hx. apply elem_of_cons in Hx. tauto.
Qed.

(** X21. [get_fallback_stats] reports on the models of the fallback order,
    in order, when monitoring is enabled: for each one the status that
    the tracker gives when asked about it alone at the instant of the
    call, and the health that the monitor gives. The call awaits
    nothing and changes nothing of the client but the tracker, where
    it prunes the entries of these models that are older than 300
    seconds. *)
Theorem fallback_stats_report_each_model_and_only_prune (st : State) :
  let out := get_fallback_stats clock st in
  let models := fallback_order (options (self st)) in
  let enabled := enable_monitoring (options (self st)) in
  (monitoring out.1 = None <->
   enabled = false \/
   (rate_limit_tracker (self st) = None /\ health_monitor (self st) = None)) /\
  (forall mon,
      monitoring out.1 = Some mon ->
      rateLimitStatus mon
      = match rate_limit_tracker (self st) with
        | Some tr => (fun m => (RateLimit.get_status m (now clock st) tr).1) <$> models
        | None => []
        end /\
      modelHealth mon
      = match health_monitor (self st) with
        | Some hm => (fun m => Health.get_health m hm) <$> models
        | None => []
        end) /\
  history out.2 = history st /\
  options (self out.2) = options (self st) /\
  rotator (self out.2) = rotator (self st) /\
  _single_key (self out.2) = _single_key (self st) /\
  health_monitor (self out.2) = health_monitor (self st) /\
  match rate_limit_tracker (self st) with
  | None => rate_limit_tracker (self out.2) = None
  | Some tr =>
      exists tr',
        rate_limit_tracker (self out.2) = Some tr' /\
        forall m,
          RateLimit.request_timestamps tr' !! m
          = if enabled && bool_decide (m ∈ models)
            then RateLimit.newer_than (now clock st - 300)
                   <$> RateLimit.request_timestamps tr !! m
            else RateLimit.request_timestamps tr !! m
  end.
Proof.
  intros out models enabled. unfold out, get_fallback_stats. fold models enabled.
  destruct enabled eqn:Een; cbn [andb].
  2:{ cbn [fst snd monitoring]. split; [split; [by left | done]|].
      split; [done|]. repeat (split; [done|]).
      destruct (rate_limit_tracker (self st)) as [tr|] eqn:Etr; [|done].
      by exists tr. }
  destruct (rate_limit_tracker (self st)) as [tr|] eqn:Etr.
  - rewrite bool_decide_eq_true_2 by eauto. cbn [orb].
    destruct (status_list_spec (now clock st) models tr) as [Hss Hts].
    destruct (status_list (now clock st) models tr) as [ss tr'].
    cbn [fst snd monitoring set_tracker self history options rotator _single_key
         health_monitor rate_limit_tracker] in *.
    split; [split; [done | by intros [|[? _]]]|].
    split; [by intros mon [= <-]|]. repeat (split; [done|]).
    exists tr'. split; [done|]. intros m. rewrite Hts.
    by destruct (decide (m ∈ models)) as [Hin|Hnin];
      [rewrite bool_decide_eq_true_2 | rewrite bool_decide_eq_false_2].
  - rewrite (bool_decide_eq_false_2 (is_Some None)) by (by intros [? ?]). cbn [orb].
    destruct (health_monitor (self st)) as [hm|] eqn:Ehm.
    + rewrite bool_decide_eq_true_2 by eauto.
      cbn [fst snd monitoring]. split; [split; [done | by intros [|[_ ?]]]|].
      split; [by intros mon [= <-]|]. by rewrite Etr.
    + rewrite (bool_decide_eq_false_2 (is_Some None)) by (by intros [? ?]).
      cbn [fst snd monitoring]. split; [split; [by right | done]|].
      split; [done|]. by rewrite Etr, Ehm.
Qed.

End FallbackStats.

Section MonitoredTurn.
Import Types Client Spec.

Variable clock : list Event -> Q.
Variable generate_content :
  list Event -> option string -> string -> string -> ApiError + RawResponse.

Lemma get_recommended_wait_time_snd (m : string) (now1 now2 : Q)
      (tr : RateLimit.RateLimitTracker) :
  (RateLimit.get_recommended_wait_time m now1 now2 tr).2
  = (RateLimit.get_status m now1 tr).2.
Proof.
  unfold RateLimit.get_recommended_wait_time, RateLimit.would_exceed_limit.
  destruct (RateLimit.get_status m now1 tr) as [s tr1]. cbn [snd].
  destruct (negb _); [done|].
  destruct (default [] _); [done|]. by destruct (RateLimit.sorted _).
Qed.

(** The prediction prunes the entries of the model in the tracker
    and changes nothing else. *)
Lemma predict_tracker (m : string) (st : State) (tr : RateLimit.RateLimitTracker) :
  rate_limit_tracker (self st) = Some tr ->
  exists tr1,
    rate_limit_tracker (self (predict clock m st).2) = Some tr1 /\
    forall m',
      RateLimit.request_timestamps tr1 !! m'
      = if decide (m' = m)
        then RateLimit.newer_than (now clock st - 300)
               <$> RateLimit.request_timestamps tr !! m'
        else RateLimit.request_timestamps tr !! m'.
Proof.
  intros Etr. unfold predict. rewrite Etr. unfold RateLimit.would_exceed_limit.
  pose proof (get_status_lookup m) as Hlook.
  destruct (RateLimit.get_status m (now clock st) tr) as [s tr1] eqn:Est.
  assert (Htr1 : forall m',
             RateLimit.request_timestamps tr1 !! m'
             = if decide (m' = m)
               then RateLimit.newer_than (now clock st - 300)
                      <$> RateLimit.request_timestamps tr !! m'
               else RateLimit.request_timestamps tr !! m').
  { intros m'. rewrite <- (Hlook m' (now clock st) tr). by rewrite Est. }
  destruct (RateLimit.max_rpm s <=? RateLimit.current_rpm s).
  - pose proof (get_recommended_wait_time_snd m (now clock st) (now clock st) tr1) as Hsnd.
    destruct (RateLimit.get_recommended_wait_time m (now clock st) (now clock st) tr1)
      as [wait tr2].
    cbn [snd] in Hsnd. subst tr2.
    exists (RateLimit.get_status m (now clock st) tr1).2.
    split; [by destruct wait|].
    intros m'. rewrite Hlook, Htr1. destruct (decide (m' = m)) as [->|]; [|done].
    destruct (RateLimit.request_timestamps tr !! m) as [l|]; [|done].
    cbn [fmap option_fmap option_map]. by rewrite newer_than_idem.
  - by exists tr1.
Qed.

Lemma monitor_keeps_tracker (m : string) (d : Q) (ok : bool) (st : State) :
  rate_limit_tracker (self (monitor m d ok st)) = rate_limit_tracker (self st).
Proof. unfold monitor. by destruct (health_monitor (self st)). Qed.

(** X22. Monitoring counts the models tried, not the calls of the SDK. In
    one turn of the loop of [generate], whatever the retry loop does
    and however many calls and sleeps it takes, the rate limit tracker
    gets one entry for the model, stamped with the instant at which
    the turn began, after the entries of the model older than 300
    seconds were dropped; and the health monitor gets one record for
    the model: the outcome of the retry loop, with the time that the
    whole of it took on the clock, in milliseconds. Other models keep
    their entries. *)
Theorem a_turn_is_monitored_once_whatever_the_retries
        (key : option string) (key_index : option Z) (p m : string)
        (rest : list string) (attempts : list AttemptRecord) (st : State) :
  let run := _generate_with_retry generate_content (options (self st)) key m p (history st) in
  let began := clock (history st) in
  exists st',
    generate_loop clock generate_content key key_index p (m :: rest) attempts st
    = match run.1 with
      | inr response =>
          (Returns {| text := text_of response; model := m; raw_response := response |},
           rotator_record Rotators.record_success key_index st')
      | inl e =>
          let attempts' :=
            attempts ++ [{| ar_model := m; ar_error := message e;
                            ar_timestamp := clock run.2;
                            ar_status_code := status_of e |}] in
          if is_auth (status_of e)
          then (Raises (GeminiBackError "Authentication failed" "AUTH_ERROR" attempts'
                                        (status_of e) (Some m)),
                rotator_record Rotators.record_failure key_index st')
          else generate_loop clock generate_content key key_index p rest attempts' st'
      end /\
    history st' = run.2 /\
    match rate_limit_tracker (self st) with
    | None => rate_limit_tracker (self st') = None
    | Some tr =>
        exists tr',
          rate_limit_tracker (self st') = Some tr' /\
          forall m',
            RateLimit.request_timestamps tr' !! m'
            = if decide (m' = m)
              then Some (RateLimit.newer_than
                           (began - 300)
                           (default [] (RateLimit.request_timestamps tr !! m))
                           ++ [began])
              else RateLimit.request_timestamps tr !! m'
    end /\
    health_monitor (self st')
    = Health.record_request m ((clock run.2 - began) * 1000)
                            match run.1 with inl _ => false | inr _ => true end
        <$> health_monitor (self st).
Proof.
  intros run began. cbn [generate_loop].
  destruct (predict_keeps clock m st) as (st1 & Hpredict & Hh1 & Hs1 & Hr1 & Hm1).
  pose proof (predict_tracker m st) as Hptr. rewrite Hpredict in *. cbn [snd] in Hptr.
  destruct (track_keeps clock m st1) as (Hh2 & Hs2 & Hr2 & Hm2).
  pose proof (same_setup_trans _ _ _ Hs1 Hs2) as Hs.
  assert (Ho : options (self (track clock m st1)) = options (self st)) by apply Hs.
  assert (Htrack :
    match rate_limit_tracker (self st) with
    | None => rate_limit_tracker (self (track clock m st1)) = None
    | Some tr =>
        exists tr',
          rate_limit_tracker (self (track clock m st1)) = Some tr' /\
          forall m',
            RateLimit.request_timestamps tr' !! m'
            = if decide (m' = m)
              then Some (RateLimit.newer_than
                           (began - 300)
                           (default [] (RateLimit.request_timestamps tr !! m))
                           ++ [began])
              else RateLimit.request_timestamps tr !! m'
    end).
  { destruct (rate_limit_tracker (self st)) as [tr|] eqn:Etr.
    - destruct (Hptr tr eq_refl) as (tr1 & Etr1 & Hlook).
      unfold track. rewrite Etr1. eexists. split; [done|].
      intros m'. rewrite record_request_lookup. unfold now. rewrite Hh1. fold began.
      destruct (decide (m' = m)) as [->|]; [|by rewrite Hlook, decide_False].
      rewrite Hlook, decide_True by done.
      destruct (RateLimit.request_timestamps tr !! m) as [l|]; [|done].
      cbn [fmap option_fmap option_map from_option id]. unfold now.
      by rewrite newer_than_idem.
    - destruct Hs1 as (_ & _ & Hsome & _). rewrite Etr in Hsome. unfold track.
      destruct (rate_limit_tracker (self st1)) as [tr1|] eqn:Etr1; [|exact Etr1].
      destruct Hsome as [Hsome _]. destruct Hsome as [? ?]; [eauto|done]. }
  rewrite Ho, Hh2, Hh1. fold run. unfold now. rewrite Hh1. fold began.
  destruct run as [[e|response] h'] eqn:Erun; cbn [fst snd set_history history].
  - match goal with
    | |- context [monitor m ?d false ?s] =>
        destruct (monitor_keeps m d false s) as (Hh3 & Hs3 & Hr3 & Hm3);
        exists (monitor m d false s)
    end.
    cbn [set_history self history] in *.
    split; [cbv zeta; by rewrite Hh3|]. split; [done|].
    split; [|by rewrite Hm3, Hm2, Hm1].
    rewrite monitor_keeps_tracker. exact Htrack.
  - match goal with
    | |- context [monitor m ?d true ?s] =>
        destruct (monitor_keeps m d true s) as (Hh3 & Hs3 & Hr3 & Hm3);
        exists (monitor m d true s)
    end.
    cbn [set_history self history] in *.
    split; [done|]. split; [done|].
    split; [|by rewrite Hm3, Hm2, Hm1].
    rewrite monitor_keeps_tracker. exact Htrack.
Qed.

End MonitoredTurn.

Section ClientRuns.
Import Types Client Spec Scenario.

Lemma a_model_that_answers_ends_the_call_witness :
  let gc := one_model_fails "model-b" (error 429 "Rate limit") in
  exists st',
    generate_loop clock gc (Some "test-key") None "Hello" ("model-a" :: ["model-b"]) []
                  (boot single_key)
    = (Returns {| text := "ok"; model := "model-a";
                  raw_response := {| text_of := "ok" |} |}, st') /\
    history st' = [Invoke (Some "test-key") "model-a" "Hello"].
Proof.
  intros gc.
  destruct (a_model_that_answers_ends_the_call
              clock gc (Some "test-key") None "Hello" "model-a" ["model-b"] []
              (boot single_key) {| text_of := "ok" |}
              [Invoke (Some "test-key") "model-a" "Hello"])
    as (st' & Heq & Hh & _).
  - unfold _generate_with_retry. rewrite retry_loop_turn. reflexivity.
  - exists st'. split; [exact Heq | exact Hh].
Defined.

Lemma retry_loop_is_bounded_and_returns_the_last_answer_witness :
  let gc := first_call_fails (error 500 "Server error") in
  let run := _generate_with_retry gc single_key (Some "test-key") "model-a" "Hello" [] in
  exists j : nat,
    Z.of_nat j <= 2 /\
    run.2 = retry_events single_key (Some "test-key") "model-a" "Hello" 0 j /\
    invocations (retry_events single_key (Some "test-key") "model-a" "Hello" 0 j) = S j.
Proof.
  intros gc run.
  destruct (retry_loop_is_bounded_and_returns_the_last_answer
              gc single_key (Some "test-key") "model-a" "Hello" [])
    as (j & Hj & Hrun & Hcount & _).
  - split; reflexivity.
  - exists j. split; [exact Hj|]. split; [exact Hrun | exact Hcount].
Defined.

Lemma the_loop_of_generate_ends_in_one_of_three_ways_witness :
  let gc := always_fails (error 429 "Rate limit") in
  let st := boot (options_with (Some "test-key") None ["model-a"; "model-b"] false) in
  exists events,
    let out := generate_loop clock gc (Some "test-key") None "Hello"
                             ["model-a"; "model-b"] [] st in
    history out.2 = events /\
    Forall (uses (Some "test-key") "Hello" ["model-a"; "model-b"]) events /\
    generate_outcome gc (Some "test-key") "Hello" ["model-a"; "model-b"] [] events []
                     out.1.
Proof.
  intros gc st.
  destruct (the_loop_of_generate_ends_in_one_of_three_ways
              clock gc (Some "test-key") None "Hello" ["model-a"; "model-b"] [] st)
    as (events & Hh & Hu & Hres & _).
  - reflexivity.
  - split; reflexivity.
  - exists events. split; [exact Hh|]. split; [exact Hu | exact Hres].
Defined.

(** A stream that raises after a fragment: the consumer has the
    fragment, then the fragments of the second model, and the call
    ends normally. *)
Example stream_after_a_broken_stream :
  let gcs := fun (_ : list Event) (_ : option string) (m _ : string) =>
               if decide (m = "model-a")
               then {| chunks := ["par"]; failure := Some (error 500 "Server error") |}
               else {| chunks := ["Hello"; " World"]; failure := None |} in
  let out := generate_stream clock gcs "Hello" None (boot single_key) in
  out.1 = (Returns tt, ["par"; "Hello"; " World"]) /\
  history out.2 = [InvokeStream (Some "test-key") "model-a" "Hello";
                   InvokeStream (Some "test-key") "model-b" "Hello"].
Proof. vm_compute. done. Qed.

(** The statistics of a client with two keys after a call that
    failed on the first model. *)
Example fallback_stats_run :
  let gc := one_model_fails "model-a" (error 429 "Rate limit") in
  let st := (generate clock gc "Hello" None (boot two_keys)).2 in
  let stats := (get_fallback_stats clock st).1 in
  (fun l : list Rotators.KeyStats => Rotators.success_count <$> l) <$> apiKeyStats stats
  = Some [1; 0] /\
  (fun mon => (fun s => (RateLimit.model s, RateLimit.current_rpm s))
                <$> rateLimitStatus mon) <$> monitoring stats
  = Some [("model-a", 1); ("model-b", 1)] /\
  (fun mon => (fun s => (Health.model s, Health.status s))
                <$> modelHealth mon) <$> monitoring stats
  = Some [("model-a", "unhealthy"); ("model-b", "healthy")].
Proof. vm_compute. done. Qed.

(** A model that is called three times, the first call and two
    retries, counts for one request in the rate limit tracker. *)
Example retries_are_not_tracked :
  let gc := always_fails (error 500 "Server error") in
  let st := (generate clock gc "Hello" (Some "model-a") (boot single_key)).2 in
  invocations (history st) = 3%nat /\
  (fun tr => RateLimit.current_rpm (RateLimit.get_status "model-a" (now clock st) tr).1)
    <$> rate_limit_tracker (self st)
  = Some 1.
Proof. vm_compute. done. Qed.

End ClientRuns.

(** * The simple client *)

Section SimpleKeys.
Import Types SimpleClient Spec.

Lemma slice_index_in_range {A} (l : list A) (i : Z) :
  0 <= i <= Z.of_nat (length l) -> Py.slice_index l i = Z.to_nat i.
Proof. intros Hi. unfold Py.slice_index. rewrite decide_True by lia. lia. Qed.


Lemma rotation_lookup {A} (l : list A) (n j : nat) :
  (n <= length l)%nat -> (j < length l)%nat ->
  (drop n l ++ take n l) !! j = l !! ((n + j) mod length l)%nat.
Proof.
  intros Hn Hj. destruct (decide (j < length l - n)%nat) as [Hlt|Hge].
  - rewrite lookup_app_l by (rewrite length_drop; lia).
    rewrite lookup_drop. by rewrite Nat.mod_small by lia.
  - rewrite lookup_app_r by (rewrite length_drop; lia).
    rewrite length_drop, lookup_take_lt by lia.
    f_equal. symmetry.
    rewrite (Nat.mod_unique (n + j) (length l) 1 (j - (length l - n))); lia.
Qed.

Lemma rotated_lookup_in_range (c : GemBackClient) (j : nat) :
  0 <= _current_key_index c < Z.of_nat (length (api_keys (cfg c))) ->
  (j < length (api_keys (cfg c)))%nat ->
  _get_all_keys_rotated c !! j
  = api_keys (cfg c)
      !! ((Z.to_nat (_current_key_index c) + j) mod length (api_keys (cfg c)))%nat.
Proof.
  intros Hi Hj. unfold _get_all_keys_rotated, Py.slice_from, Py.slice_to.
  rewrite slice_index_in_range by lia. apply rotation_lookup; lia.
Qed.

(** X23. [_get_all_keys_rotated] returns a permutation of the keys of the
    configuration, whatever the cursor: the keys rotated to begin at
    the cursor, for a cursor within the keys, and the keys as they are
    for a cursor at 0 or at or after their end. *)
Theorem rotated_keys_are_the_keys_from_the_cursor (c : GemBackClient) :
  let keys := api_keys (cfg c) in
  let k := length keys in
  _get_all_keys_rotated c ≡ₚ keys /\
  (0 <= _current_key_index c < Z.of_nat k ->
   forall j : nat,
     (j < k)%nat ->
     _get_all_keys_rotated c !! j
     = keys !! ((Z.to_nat (_current_key_index c) + j) mod k)%nat) /\
  (Z.of_nat k <= _current_key_index c -> _get_all_keys_rotated c = keys) /\
  (_current_key_index c = 0 -> _get_all_keys_rotated c = keys).
Proof.
  intros keys k. unfold _get_all_keys_rotated, Py.slice_from, Py.slice_to. fold keys.
  split; [|split; [|split]].
  - rewrite Permutation_app_comm. by rewrite take_drop.
  - intros Hi j Hj. fold (_get_all_keys_rotated c). by apply rotated_lookup_in_range.
  - intros Hi. unfold Py.slice_index. rewrite decide_True by lia.
    fold k. replace (Z.to_nat (_current_key_index c) `min` k)%nat with k by lia.
    unfold k. by rewrite drop_all, take_ge by lia.
  - intros ->. unfold Py.slice_index. rewrite decide_True by lia. simpl.
    by rewrite drop_0, take_0, app_nil_r.
Qed.

Lemma next_keys_from (keys : list string) (n : nat) :
  forall c : GemBackClient,
    api_keys (cfg c) = keys ->
    0 <= _current_key_index c < Z.of_nat (length keys) ->
    let out := next_keys n c in
    length out.1 = n /\
    cfg out.2 = cfg c /\
    _current_key_index out.2
    = (_current_key_index c + Z.of_nat n) `mod` Z.of_nat (length keys) /\
    forall i : nat,
      (i < n)%nat ->
      exists key,
        out.1 !! i = Some (Returns key) /\
        keys !! Z.to_nat ((_current_key_index c + Z.of_nat i) `mod` Z.of_nat (length keys))
        = Some key.
Proof.
  induction n as [|n IH]; intros c Hkeys Hcur.
  - cbn [next_keys fst snd]. split; [done|]. split; [done|].
    split; [rewrite Z.add_0_r, Z.mod_small; lia|]. intros i Hi. lia.
  - cbn [next_keys]. unfold _get_next_key. rewrite Hkeys.
    unfold Py.getitem. rewrite decide_True by lia.
    destruct (lookup_lt_is_Some_2 keys (Z.to_nat (_current_key_index c)) ltac:(lia))
      as [key Hkey].
    rewrite Hkey.
    set (c1 := {| cfg := cfg c;
                  _current_key_index :=
                    (_current_key_index c + 1) `mod` Z.of_nat (length keys) |}).
    destruct (IH c1) as (Hlen & Hcfg & Hcur' & Hnth).
    { by rewrite <- Hkeys. }
    { cbn [c1 _current_key_index]. apply Z.mod_pos_bound. lia. }
    destruct (next_keys n c1) as [rs c2]. cbn [fst snd] in *.
    split; [simpl; lia|]. split; [done|]. split.
    + rewrite Hcur'. cbn [c1 _current_key_index].
      rewrite Zplus_mod_idemp_l. f_equal. lia.
    + intros [|i] Hi.
      * exists key. split; [done|]. rewrite Z.add_0_r, Z.mod_small by lia. done.
      * destruct (Hnth i ltac:(lia)) as (key' & Hrs & Hkey').
        exists key'. split; [done|]. rewrite <- Hkey'. do 2 f_equal.
        cbn [c1 _current_key_index]. rewrite Zplus_mod_idemp_l. f_equal. lia.
Qed.

(** X24. The keys that a client hands out with [_get_next_key], from its
    construction on: the call number [i], counted from 0, returns the
    key at the index [i mod k] of the [k] keys, without raising; after
    [n] calls the cursor is [n mod k], and [_get_all_keys_rotated]
    begins at the key that the next call would return. *)
Theorem next_key_goes_round_the_keys (conf : GemBackConfig) (c : GemBackClient) (n : nat) :
  __init__ conf = Returns c ->
  let keys := api_keys conf in
  let k := Z.of_nat (length keys) in
  let out := next_keys n c in
  length out.1 = n /\
  (forall i : nat,
      (i < n)%nat ->
      exists key,
        out.1 !! i = Some (Returns key) /\
        keys !! Z.to_nat (Z.of_nat i `mod` k) = Some key) /\
  _current_key_index out.2 = Z.of_nat n `mod` k /\
  head (_get_all_keys_rotated out.2) = keys !! Z.to_nat (Z.of_nat n `mod` k).
Proof.
  intros Hinit keys k out.
  assert (Hc : keys <> [] /\ c = {| cfg := conf; _current_key_index := 0 |}).
  { unfold __init__ in Hinit. unfold keys.
    destruct (api_keys conf); [done|]. by injection Hinit as <-. }
  destruct Hc as [Hne ->].
  assert (Hk : 0 < k) by (unfold k; destruct keys; [done | simpl; lia]).
  destruct (next_keys_from keys n {| cfg := conf; _current_key_index := 0 |} eq_refl)
    as (Hlen & Hcfg & Hcur & Hnth).
  { cbn [_current_key_index]. fold k. lia. }
  fold out k in Hlen, Hcfg, Hcur, Hnth. cbn [_current_key_index cfg] in *.
  rewrite Z.add_0_l in Hcur.
  split; [done|]. split; [|split; [done|]].
  - intros i Hi. destruct (Hnth i Hi) as (key & Hout & Hkey). exists key.
    split; [done|]. by rewrite Z.add_0_l in Hkey.
  - pose proof (Z.mod_pos_bound (Z.of_nat n) k Hk) as Hbound.
    rewrite head_lookup, rotated_lookup_in_range; rewrite Hcfg; fold keys k.
    + rewrite Hcur, Nat.add_0_r. f_equal. apply Nat.mod_small. lia.
    + lia.
    + lia.
Qed.

End SimpleKeys.

Section SimpleGenerate.
Import Types SimpleClient Spec.

Variable sdk :
  list Event -> string -> string -> string -> list (string * value) -> SdkError + Response.
















End SimpleGenerate.

Section SimpleRuns.
Import Types SimpleClient Spec Scenario.

Lemma next_key_goes_round_the_keys_witness :
  let conf := config ["key1"; "key2"; "key3"] (Some ["model-a"; "model-b"]) 3 30000 0 in
  exists c,
    __init__ conf = Returns c /\
    length (next_keys 5 c).1 = 5%nat /\
    (exists key, (next_keys 5 c).1 !! 4%nat = Some (Returns key) /\
                 ["key1"; "key2"; "key3"] !! 1%nat = Some key) /\
    _current_key_index (next_keys 5 c).2 = 2.
Proof.
  intros conf. eexists. split; [reflexivity|].
  destruct (next_key_goes_round_the_keys conf _ 5 eq_refl) as (Hlen & Hnth & Hcur & _).
  split; [exact Hlen|]. split; [|exact Hcur].
  apply (Hnth 4%nat). lia.
Defined.


(** [test_key_rotation_on_429]: the first call fails on its quota,
    the second one, with the next key, answers. *)
Example key_rotation_on_429 :
  let sdk := fun (h : list Event) (_ _ _ : string) (_ : list (string * value)) =>
               match h with
               | [] => inl (ResourceExhausted "Quota exceeded")
               | _ :: _ => success "Success after rotation"
               end in
  let conf := config ["key1"; "key2"; "key3"] (Some ["model-a"; "model-b"]) 3 30000 0 in
  let out := generate_content sdk {| cfg := conf; _current_key_index := 0 |}
                              "Hello" None None None None None [] in
  match out.1 with inr output => Some (text output) | inl _ => None end
  = Some "Success after rotation" /\
  out.2 = [Call "key1" "model-a"; Call "key2" "model-a"].
Proof. vm_compute. done. Qed.

(** [test_model_fallback]: the first model fails for every key, the
    second one answers. *)
Example model_fallback :
  let sdk := fun (_ : list Event) (_ m _ : string) (_ : list (string * value)) =>
               if decide (m = "model-a") then inl (ResourceExhausted "Quota exceeded")
               else success "Success with backup model" in
  let conf := config ["key1"; "key2"; "key3"] (Some ["model-a"; "model-b"]) 3 30000 0 in
  let out := generate_content sdk {| cfg := conf; _current_key_index := 0 |}
                              "Hello" None None None None None [] in
  match out.1 with inr output => Some (model_used output) | inl _ => None end
  = Some "model-b" /\
  calls out.2 = [("key1", "model-a"); ("key2", "model-a"); ("key3", "model-a");
                 ("key1", "model-b")].
Proof. vm_compute. done. Qed.

(** A response blocked by the safety settings ends the keys of its
    model: the next model is tried, and when it fails too the error
    raised is the one of the last call, not the safety block. *)
Example safety_block_moves_to_the_next_model :
  let sdk := fun (_ : list Event) (_ m _ : string) (_ : list (string * value)) =>
               if decide (m = "model-a")
               then inr {| parts := []; prompt_feedback := Some "BLOCKED";
                           response_text := ""; usage_metadata := None;
                           candidates := [] |}
               else inl (ServiceUnavailable "503") in
  let conf := config ["key1"; "key2"] (Some ["model-a"; "model-b"]) 3 30000 500 in
  generate_content sdk {| cfg := conf; _current_key_index := 0 |}
                   "Hello" None None None None None []
  = (inl (LastError (ServiceUnavailable "Service Unavailable")),
     [Call "key1" "model-a";
      Call "key1" "model-b"; Nap (500 / 1000)%Q;
      Call "key2" "model-b"; Nap (500 / 1000)%Q]).
Proof. vm_compute. done. Qed.

(** A negative [retry_delay]: after the first [ServiceUnavailable]
    the [ValueError] of [time.sleep] leaves [generate_content]; the
    second key and the second model are not tried. *)
Example negative_delay_leaves_the_call :
  let sdk := fun (_ : list Event) (_ _ _ : string) (_ : list (string * value)) =>
               inl (ServiceUnavailable "503") : SdkError + Response in
  let conf := config ["key1"; "key2"] (Some ["model-a"; "model-b"]) 3 30000 (-1) in
  generate_content sdk {| cfg := conf; _current_key_index := 0 |}
                   "Hello" None None None None None []
  = (inl (SleepError (ValueError "sleep length must be non-negative")),
     [Call "key1" "model-a"]).
Proof. vm_compute. done. Qed.

End SimpleRuns.

Section SimpleFirstCall.
Import Types SimpleClient Spec.

Variable sdk :
  list Event -> string -> string -> string -> list (string * value) -> SdkError + Response.



End SimpleFirstCall.

Section SimpleFirstCallRun.
Import Types SimpleClient Spec Scenario.


End SimpleFirstCallRun.
